(** * go-logrotate: a shallow embedding of logrotate.go

    The development follows the layout of the Go source:
    - [GoStrings], [Strconv], [Filepath]: the library functions the package
      calls on strings (strings.HasPrefix, strconv.Atoi, filepath.Ext, ...);
    - the data model: [Logger], [file], [World], [logInfo];
    - the operations: [max], [Write], [rotate], [openNew], [backupName],
      [openExistingOrNew], [millRunOnce], [oldLogFiles], [timeFromName],
      [orderFromName], [compressLogFile];
    - the properties of the rotation-and-retention engine.

    Conventions. Go's [int] and [int64] are 64-bit two's-complement integers,
    modelled as [Z] with the wrap-around written out ([wrap64]). Strings and
    byte slices are [string] (a Go string is a sequence of bytes). A
    [time.Time] is an instant counted in nanoseconds, a [Z].

    The environment. The file system is the directory of the log file, a map
    from entry names to entries, on a Unix system: a call fails when the
    state of the directory makes it fail (a missing file, a directory where
    a file is expected), and not otherwise. The faults of the environment
    that the package has code for are added where the properties need them:
    a step of the streaming compression that reports an error, and a [chown]
    that is refused. The clock is a field of the world; reading it does not
    advance it. The goroutine that runs the mill is a function of its own,
    run between the calls of the writer. *)

From Stdlib Require Import ZArith String Ascii List Lia.
From Stdlib Require Import Decimal DecimalString DecimalN DecimalZ.
From stdpp Require Import gmap strings list sorting.

Local Open Scope string_scope.
Local Open Scope list_scope.
Local Open Scope Z_scope.

(** ** Machine integers *)

Definition int64_min : Z := - 2 ^ 63.
Definition int64_max : Z := 2 ^ 63 - 1.

(** The value an int64 holds after an arithmetic result [z]. *)
Definition wrap64 (z : Z) : Z := (z + 2 ^ 63) mod 2 ^ 64 - 2 ^ 63.

Definition in_int64 (z : Z) : Prop := int64_min <= z <= int64_max.

Definition add64 (a b : Z) : Z := wrap64 (a + b).
Definition mul64 (a b : Z) : Z := wrap64 (a * b).

(** [len(s)] as an int. *)
Definition len (s : string) : Z := Z.of_nat (String.length s).

(** ** package strings *)
Module GoStrings.

Definition HasPrefix (s prefix : string) : bool := String.prefix prefix s.

Definition HasSuffix (s suffix : string) : bool :=
  (String.length suffix <=? String.length s)%nat
  && String.eqb
       (substring (String.length s - String.length suffix)
                  (String.length suffix) s)
       suffix.

Definition TrimSuffix (s suffix : string) : string :=
  if HasSuffix s suffix
  then substring 0 (String.length s - String.length suffix) s
  else s.

Definition TrimPrefix (s prefix : string) : string :=
  if HasPrefix s prefix
  then substring (String.length prefix)
                 (String.length s - String.length prefix) s
  else s.

(** The slice expression [s[i:j]]; [None] is the run-time panic
    "slice bounds out of range", raised unless [0 <= i <= j <= len(s)]. *)
Definition slice (s : string) (i j : Z) : option string :=
  if (0 <=? i) && (i <=? j) && (j <=? len s)
  then Some (substring (Z.to_nat i) (Z.to_nat (j - i)) s)
  else None.

(** Does the byte [c] occur in [s]? *)
Fixpoint contains_byte (c : ascii) (s : string) : bool :=
  match s with
  | EmptyString => false
  | String d r => Ascii.eqb c d || contains_byte c r
  end.

End GoStrings.

(** ** package strconv *)
Module Strconv.

(** [strconv.Itoa], also what the verb [%d] prints: an optional minus sign
    and the decimal digits, no leading zero. *)
Definition Itoa (z : Z) : string := NilZero.string_of_int (Z.to_int z).

(** The digits of a decimal numeral; the empty string and any byte that is
    not a digit are syntax errors. Leading zeros are accepted. *)
Definition parse_digits (s : string) : option Z :=
  match s with
  | EmptyString => None
  | _ => match NilEmpty.uint_of_string s with
         | Some d => Some (Z.of_N (N.of_uint d))
         | None => None
         end
  end.

(** [strconv.Atoi] on a 64-bit platform: one optional sign, then digits;
    an error ([None]) on a syntax error or when the value does not fit an
    int. *)
Definition Atoi (s : string) : option Z :=
  match s with
  | EmptyString => None
  | String c r =>
      let '(neg, body) :=
        if Ascii.eqb c "-" then (true, r)
        else if Ascii.eqb c "+" then (false, r)
        else (false, s) in
      match parse_digits body with
      | None => None
      | Some n =>
          let v := if neg then - n else n in
          if (int64_min <=? v) && (v <=? int64_max) then Some v else None
      end
  end.

End Strconv.

(** ** package path/filepath (Unix: the separator is [/]) *)
Module Filepath.

Definition Separator : ascii := "/"%char.

(** [filepath.Ext]: the suffix beginning at the final dot in the final
    element of the path, empty if there is no dot. *)
Fixpoint Ext (path : string) : string :=
  match path with
  | EmptyString => EmptyString
  | String c r =>
      match Ext r with
      | EmptyString =>
          if Ascii.eqb c "." && negb (GoStrings.contains_byte Separator r)
          then path else EmptyString
      | e => e
      end
  end.

(** The path without its trailing separators. *)
Fixpoint strip_trailing (path : string) : string :=
  match path with
  | EmptyString => EmptyString
  | String c r =>
      match strip_trailing r with
      | EmptyString => if Ascii.eqb c Separator then EmptyString else String c EmptyString
      | r' => String c r'
      end
  end.

(** What follows the last separator (the whole string when there is none). *)
Fixpoint last_element (path : string) : string :=
  match path with
  | EmptyString => EmptyString
  | String c r =>
      if GoStrings.contains_byte Separator r then last_element r
      else if Ascii.eqb c Separator then r else path
  end.

(** [filepath.Base]: the last element of the path; ["."] for the empty
    path, ["/"] for a path of separators only. *)
Definition Base (path : string) : string :=
  match path with
  | EmptyString => "."
  | _ => match last_element (strip_trailing path) with
         | EmptyString => "/"
         | b => b
         end
  end.

End Filepath.

(** ** Errors and results *)

(** The errors of the package and of the os calls under it. The constructors
    that wrap another error are the [fmt.Errorf] messages of the source. *)
Inductive error : Type :=
| ENOENT (path : string)              (* os: the file does not exist *)
| EISDIR (path : string)              (* os: the path is a directory *)
| EINVAL                              (* os.ErrInvalid: a nil file handle *)
| EPERM (path : string)               (* chown refused *)
| EIO (step : string)                 (* an I/O fault while streaming *)
| ErrWriteLength (writeLen maxSize : Z) (* write length %d exceeds maximum file size %d *)
| ErrMakeDirs (e : error)             (* can't make directories for new logfile *)
| ErrRename (e : error)               (* can't rename log file *)
| ErrOpenNew (e : error)              (* can't open new logfile *)
| ErrLogFileInfo (e : error)          (* error getting log file info *)
| ErrReadDir (e : error)              (* can't read log file directory *)
| ErrMismatchedPrefix
| ErrMismatchedExtension
| ErrMismatchedOrder
| ErrTimeParse                        (* the error of time.Parse *)
| ErrOpenLog (e : error)              (* failed to open log file *)
| ErrStatLog (e : error)              (* failed to stat log file *)
| ErrChownCompressed (e : error)      (* failed to chown compressed log file *)
| ErrOpenCompressed (e : error)       (* failed to open compressed log file *)
| ErrCompress (e : error).            (* failed to compress log file *)

(** What a call produces: a value, a returned error, or a run-time panic. *)
Inductive result (A : Type) : Type :=
| Ok (a : A)
| Err (e : error)
| Panic (msg : string).
Arguments Ok {A} a.
Arguments Err {A} e.
Arguments Panic {A} msg.

(** ** The file system *)

(** A directory entry: a regular file with its bytes, or a subdirectory
    (whose own contents are not tracked). *)
Record entry : Type := Entry {
  isDir : bool;
  data : string;
  mode : N;
  modTime : Z
}.

(** [os.FileInfo] *)
Record FileInfo : Type := {
  fi_Name : string;
  fi_Size : Z;
  fi_Mode : N;
  fi_ModTime : Z;
  fi_IsDir : bool
}.

Definition info_of (name : string) (e : entry) : FileInfo :=
  {| fi_Name := name; fi_Size := len (data e); fi_Mode := mode e;
     fi_ModTime := modTime e; fi_IsDir := isDir e |}.

(** The steps of [compressLogFile] whose error the function checks, in
    program order from the point the compressed file is open. A fault names
    the first of them that reports an error; for the two that write, with the
    bytes that reached the file before. *)
Inductive cstep : Type :=
| CCopy (partial : string)     (* io.Copy(gz, f) *)
| CGzClose (partial : string)  (* gz.Close() *)
| CGzfClose                    (* gzf.Close() *)
| CFClose                      (* f.Close() *)
| CRemove.                     (* os.Remove(src) *)

(** The world a Logger runs in. [w_dir] is the directory of the log file,
    [filepath.Dir(l.filename())], as a map from entry name to entry ([None]:
    the directory does not exist yet); a path [filepath.Join(l.dir(), n)] is
    represented by [n]. The three [/tmp/solution*.log] files that the
    retention pass appends to lie outside it and are kept as their contents
    (a file that does not exist yet and an empty one are not told apart).
    [w_now] is the reading of [currentTime]. [w_fault] and [w_chown_fails]
    are the environment's faults: which step fails while the named file is
    compressed, and for which paths [chown] reports an error. *)
Record World : Type := {
  w_dir : option (gmap string entry);
  w_now : Z;
  w_solution : string;
  w_solution2 : string;
  w_solution3 : string;
  w_fault : string -> option cstep;
  w_chown_fails : string -> bool
}.

Definition set_dir (d : option (gmap string entry)) (w : World) : World :=
  {| w_dir := d; w_now := w_now w; w_solution := w_solution w;
     w_solution2 := w_solution2 w; w_solution3 := w_solution3 w;
     w_fault := w_fault w; w_chown_fails := w_chown_fails w |}.

Definition entries (w : World) : gmap string entry :=
  match w_dir w with Some d => d | None => ∅ end.

(** Appending with O_APPEND|O_CREATE to the three files under /tmp. *)
Definition append_solution (s : string) (w : World) : World :=
  {| w_dir := w_dir w; w_now := w_now w; w_solution := w_solution w +:+ s;
     w_solution2 := w_solution2 w; w_solution3 := w_solution3 w;
     w_fault := w_fault w; w_chown_fails := w_chown_fails w |}.
Definition append_solution2 (s : string) (w : World) : World :=
  {| w_dir := w_dir w; w_now := w_now w; w_solution := w_solution w;
     w_solution2 := w_solution2 w +:+ s; w_solution3 := w_solution3 w;
     w_fault := w_fault w; w_chown_fails := w_chown_fails w |}.
Definition append_solution3 (s : string) (w : World) : World :=
  {| w_dir := w_dir w; w_now := w_now w; w_solution := w_solution w;
     w_solution2 := w_solution2 w; w_solution3 := w_solution3 w +:+ s;
     w_fault := w_fault w; w_chown_fails := w_chown_fails w |}.

(** *** package os, on the log directory *)
Module OS.

(** [os.MkdirAll(l.dir(), 0755)] *)
Definition MkdirAll (w : World) : result unit * World :=
  match w_dir w with
  | Some _ => (Ok tt, w)
  | None => (Ok tt, set_dir (Some ∅) w)
  end.

(** [os.Stat] *)
Definition Stat (name : string) (w : World) : result FileInfo :=
  match entries w !! name with
  | Some e => Ok (info_of name e)
  | None => Err (ENOENT name)
  end.

(** [os.IsNotExist] *)
Definition IsNotExist (e : error) : bool :=
  match e with ENOENT _ => true | _ => false end.

(** [os.Rename]: a file replaces what the new name held, unless that is a
    directory. *)
Definition Rename (oldname newname : string) (w : World) : result unit * World :=
  match w_dir w with
  | None => (Err (ENOENT oldname), w)
  | Some d =>
      match d !! oldname with
      | None => (Err (ENOENT oldname), w)
      | Some e =>
          match d !! newname with
          | Some e' =>
              if isDir e' then (Err (EISDIR newname), w)
              else (Ok tt, set_dir (Some (<[newname := e]> (delete oldname d))) w)
          | None => (Ok tt, set_dir (Some (<[newname := e]> (delete oldname d))) w)
          end
      end
  end.

(** [os.Chtimes(name, atime, mtime)]; access times are not tracked. *)
Definition Chtimes (name : string) (mtime : Z) (w : World) : result unit * World :=
  match w_dir w with
  | None => (Err (ENOENT name), w)
  | Some d =>
      match d !! name with
      | None => (Err (ENOENT name), w)
      | Some e =>
          (Ok tt, set_dir (Some (<[name := Entry (isDir e) (data e) (mode e) mtime]> d)) w)
      end
  end.

(** [os.OpenFile(name, O_CREATE|O_WRONLY|O_TRUNC, perm)]: an existing file
    is emptied and keeps its mode, a missing one is created with [perm]. *)
Definition OpenFile_trunc (name : string) (perm : N) (w : World) : result string * World :=
  match w_dir w with
  | None => (Err (ENOENT name), w)
  | Some d =>
      match d !! name with
      | Some e =>
          if isDir e then (Err (EISDIR name), w)
          else (Ok name, set_dir (Some (<[name := Entry false "" (mode e) (w_now w)]> d)) w)
      | None =>
          (Ok name, set_dir (Some (<[name := Entry false "" perm (w_now w)]> d)) w)
      end
  end.

(** [os.OpenFile(name, O_APPEND|O_WRONLY, 0644)] *)
Definition OpenFile_append (name : string) (w : World) : result string :=
  match entries w !! name with
  | Some e => if isDir e then Err (EISDIR name) else Ok name
  | None => Err (ENOENT name)
  end.

(** [os.Open(name)], for reading; a directory can be opened. *)
Definition Open (name : string) (w : World) : result string :=
  match entries w !! name with
  | Some e => Ok name
  | None => Err (ENOENT name)
  end.

(** The [Write] method of [os.File], through a handle on [name]: the bytes go to the end
    of the file. Writing through a handle whose file has been removed
    changes nothing that can be seen in the directory. *)
Definition FileWrite (name : string) (p : string) (w : World) : (Z * option error) * World :=
  match w_dir w with
  | None => ((len p, None), w)
  | Some d =>
      match d !! name with
      | Some e =>
          ((len p, None),
           set_dir (Some (<[name := Entry (isDir e) (data e +:+ p) (mode e) (w_now w)]> d)) w)
      | None => ((len p, None), w)
      end
  end.

(** [os.Remove]. A subdirectory is taken not to be empty, so that removing
    it fails. *)
Definition Remove (name : string) (w : World) : result unit * World :=
  match w_dir w with
  | None => (Err (ENOENT name), w)
  | Some d =>
      match d !! name with
      | None => (Err (ENOENT name), w)
      | Some e =>
          if isDir e then (Err (EISDIR name), w)
          else (Ok tt, set_dir (Some (delete name d)) w)
      end
  end.

(** [os.ReadDir]: the entries, sorted by file name. *)
Definition ReadDir (w : World) : result (list (string * entry)) :=
  match w_dir w with
  | None => Err (ENOENT ".")
  | Some d => Ok (merge_sort (λ a b : string * entry, String.leb a.1 b.1) (map_to_list d))
  end.

End OS.

(** ** The Logger *)

(** The line feed that ends each line appended under /tmp. *)
Definition newline : string := String (ascii_of_nat 10) EmptyString.

Definition compressSuffix : string := ".gz".
Definition defaultMaxSize : Z := 100.

(** [megabyte], the conversion factor between MaxSize and bytes. *)
Definition megabyte : Z := 1024 * 1024.

(** [time.Hour], a Duration in nanoseconds. *)
Definition Hour : Z := 3600 * 1000000000.

(** What the package takes from the Go runtime and does not define:
    [time.Parse(layout, value)], [t.Format(layout)] in the local zone or in
    UTC, the output of a gzip writer on given bytes, and the default log file
    [filepath.Join(os.TempDir(), filepath.Base(os.Args[0]) + ".log")]. *)
Class Platform : Type := {
  time_Parse : string -> string -> option Z;
  time_Format : bool -> string -> Z -> string;
  gzip : string -> string;
  default_filename : string
}.

(** The struct [Logger]. [file] is the open handle, by the name of the entry
    it was opened on; [millCh] is the mill channel of capacity one: [None]
    until [startMill] has run, then [Some b] with [b] telling whether a
    request is waiting in it. *)
Record Logger : Type := {
  Filename : string;
  FilenameTimeFormat : string;
  MaxBytes : Z;
  MaxAge : Z;
  MaxBackups : Z;
  LocalTime : bool;
  Compress : bool;
  size : Z;
  file : option string;
  millCh : option bool
}.

Definition set_size (n : Z) (l : Logger) : Logger :=
  {| Filename := Filename l; FilenameTimeFormat := FilenameTimeFormat l;
     MaxBytes := MaxBytes l; MaxAge := MaxAge l; MaxBackups := MaxBackups l;
     LocalTime := LocalTime l; Compress := Compress l;
     size := n; file := file l; millCh := millCh l |}.

Definition set_file (f : option string) (l : Logger) : Logger :=
  {| Filename := Filename l; FilenameTimeFormat := FilenameTimeFormat l;
     MaxBytes := MaxBytes l; MaxAge := MaxAge l; MaxBackups := MaxBackups l;
     LocalTime := LocalTime l; Compress := Compress l;
     size := size l; file := f; millCh := millCh l |}.

Definition set_millCh (c : option bool) (l : Logger) : Logger :=
  {| Filename := Filename l; FilenameTimeFormat := FilenameTimeFormat l;
     MaxBytes := MaxBytes l; MaxAge := MaxAge l; MaxBackups := MaxBackups l;
     LocalTime := LocalTime l; Compress := Compress l;
     size := size l; file := file l; millCh := c |}.

(** [logInfo]: a backup's FileInfo with its ordering timestamp. *)
Record logInfo : Type := {
  timestamp : Z;
  info : FileInfo
}.

Definition Name (f : logInfo) : string := fi_Name (info f).

(** What a method call leaves behind for an observer, in program order. *)
Inductive event : Type :=
| EvRotate                              (* rotate() was entered *)
| EvMill                                (* mill() was called *)
| EvFileWrite (name : string) (n : Z).  (* l.file.Write(p) returned n *)

(** The state a method of the Logger runs on: the receiver, the world, and
    the events so far (oldest first). *)
Record St : Type := {
  st_l : Logger;
  st_w : World;
  st_trace : list event
}.

Definition M (A : Type) : Type := St -> result A * St.

Definition set_l (l : Logger) (st : St) : St :=
  {| st_l := l; st_w := st_w st; st_trace := st_trace st |}.
Definition set_w (w : World) (st : St) : St :=
  {| st_l := st_l st; st_w := w; st_trace := st_trace st |}.
Definition emit (e : event) (st : St) : St :=
  {| st_l := st_l st; st_w := st_w st; st_trace := st_trace st ++ [e] |}.

(** Modelled from the spec: chown, the platform-specific ownership shim of
    the repository, is not among the sources. The spec has it propagate
    ownership bits, which the world does not track; so it changes nothing
    here, and reports an error for the paths the environment refuses. *)
Definition chown (name : string) (fi : FileInfo) (w : World) : result unit :=
  if w_chown_fails w name then Err (EPERM name) else Ok tt.

Section Logger.
Context `{P : Platform}.

Import GoStrings.

(** [filename] generates the name of the logfile. *)
Definition filename (l : Logger) : string :=
  if negb (String.eqb (Filename l) "") then Filename l else default_filename.

(** The entry of the log directory that the path [l.filename()] names. *)
Definition logEntry (l : Logger) : string := Filepath.Base (filename l).

(** [max] returns the maximum size in bytes of log files before rolling. *)
Definition max (l : Logger) (writeLen : Z) : Z :=
  if negb (MaxBytes l =? 0) then
    if MaxBytes l =? -1 then add64 (add64 writeLen (size l)) 1
    else MaxBytes l
  else defaultMaxSize * megabyte.

(** [prefixAndExt] returns the filename part and extension part from the
    Logger's filename. *)
Definition prefixAndExt (l : Logger) : string * string :=
  let filename := Filepath.Base (filename l) in
  if negb (String.eqb (FilenameTimeFormat l) "") then
    let ext := Filepath.Ext filename in
    (substring 0 (String.length filename - String.length ext) filename +:+ "-", ext)
  else (filename, "").

(** [timeFromName] extracts the formatted time from the filename by
    stripping off the filename's prefix and extension. *)
Definition timeFromName (l : Logger) (filename prefix ext : string) : result Z :=
  if negb (HasPrefix filename prefix) then Err ErrMismatchedPrefix
  else if negb (HasSuffix filename ext) then Err ErrMismatchedExtension
  else
    match slice filename (len prefix) (len filename - len ext) with
    | None => Panic "slice bounds out of range"
    | Some ts =>
        match time_Parse (FilenameTimeFormat l) ts with
        | Some t => Ok t
        | None => Err ErrTimeParse
        end
    end.

(** [orderFromName] extracts the order from the filename. *)
Definition orderFromName (l : Logger) (filename prefix ext : string) : result Z :=
  if negb (HasPrefix filename prefix) then Err ErrMismatchedPrefix
  else if negb (HasSuffix filename ext) then Err ErrMismatchedExtension
  else
    let strOrder :=
      if negb (String.eqb ext "") then
        slice filename (len prefix) (len filename - len ext)
      else Some (Filepath.Ext filename) in
    match strOrder with
    | None => Panic "slice bounds out of range"
    | Some strOrder =>
        match Strconv.Atoi (TrimPrefix strOrder ".") with
        | Some order => Ok order
        | None => Err ErrMismatchedOrder
        end
    end.

(** [getFileTimeInfo]: the modification time that [times.Stat] reports. *)
Definition getFileTimeInfo (l : Logger) (fileName : string) (w : World) : result Z :=
  match OS.Stat fileName w with
  | Ok fi => Ok (fi_ModTime fi)
  | Err e => Err e
  | Panic m => Panic m
  end.

(** [byBirthTime]: [Less(i, j)] is [b[i].timestamp.After(b[j].timestamp)]. *)
Definition Less (a b : logInfo) : bool := timestamp b <? timestamp a.

(** [sort.Sort(byBirthTime(logFiles))]. On a short slice Go's sort is an
    insertion sort, each element moved towards the front while it is [Less]
    than its predecessor; that sort is the model at every length. The order
    it gives to files of equal timestamps is the order of the scan; no
    property below depends on it. [insertBack] works on the sorted part in
    reverse. *)
Fixpoint insertBack (x : logInfo) (sortedRev : list logInfo) : list logInfo :=
  match sortedRev with
  | [] => [x]
  | y :: r => if Less x y then y :: insertBack x r else x :: y :: r
  end.

Definition sortByBirthTime (fs : list logInfo) : list logInfo :=
  rev (fold_left (fun acc x => insertBack x acc) fs []).

(** The [switch] in the loop of [oldLogFiles]: the ordering timestamp of a
    file that is classified as a backup, [None] for one that falls through
    to the end of the loop body. *)
Definition classifyEntry (l : Logger) (prefix ext name : string) (w : World)
    : result (option Z) :=
  if negb (String.eqb (FilenameTimeFormat l) "") then
    match timeFromName l name prefix ext with
    | Ok t => Ok (Some t)
    | Panic m => Panic m
    | Err _ =>
        match timeFromName l name prefix (ext +:+ compressSuffix) with
        | Ok t => Ok (Some t)
        | Panic m => Panic m
        | Err _ => Ok None
        end
    end
  else
    match orderFromName l name prefix ext with
    | Ok _ =>
        match getFileTimeInfo l name w with
        | Ok logInfoTime => Ok (Some logInfoTime)
        | Err e => Err e
        | Panic m => Panic m
        end
    | Panic m => Panic m
    | Err _ => Ok None
    end.

(** The loop of [oldLogFiles] over the directory entries. *)
Fixpoint scanEntries (l : Logger) (prefix ext : string)
    (files : list (string * entry)) (logFiles : list logInfo) (w : World)
    : result (list logInfo) * World :=
  match files with
  | [] => (Ok logFiles, w)
  | (name, f) :: rest =>
      if isDir f then scanEntries l prefix ext rest logFiles w
      else
        let fInfo := info_of name f in
        match classifyEntry l prefix ext name w with
        | Ok (Some t) =>
            scanEntries l prefix ext rest
              (logFiles ++ [{| timestamp := t; info := fInfo |}]) w
        | Ok None =>
            scanEntries l prefix ext rest logFiles
              (append_solution2 (fi_Name fInfo +:+ newline) w)
        | Err e => (Err e, w)
        | Panic m => (Panic m, w)
        end
  end.

(** [oldLogFiles] returns the list of backup log files stored in the same
    directory as the current log file, sorted by bTime. *)
Definition oldLogFiles (l : Logger) (w : World) : result (list logInfo) * World :=
  match OS.ReadDir w with
  | Err e => (Err (ErrReadDir e), w)
  | Panic m => (Panic m, w)
  | Ok files =>
      let '(prefix, ext) := prefixAndExt l in
      match scanEntries l prefix ext files [] w with
      | (Ok logFiles, w') => (Ok (sortByBirthTime logFiles), w')
      | r => r
      end
  end.

(** The calls of [compressLogFile] that stream the bytes, each with the
    fault of the call: it fails when the fault names it, and otherwise does
    what the file system lets it do. *)

(** [io.Copy(gz, f)]: reads the source; the compressed bytes stay in the
    gzip writer unless the copy breaks off. Reading a directory fails. *)
Definition io_Copy (fault : option cstep) (gzf f : string) (w : World)
    : result string * World :=
  match fault with
  | Some (CCopy partial) => (Err (EIO "copy"), snd (OS.FileWrite gzf partial w))
  | _ =>
      match entries w !! f with
      | Some e => if isDir e then (Err (EISDIR f), w) else (Ok (data e), w)
      | None => (Ok "", w)
      end
  end.

(** [gz.Close()]: flushes the compressed bytes to the file. *)
Definition gz_Close (fault : option cstep) (gzf bytes : string) (w : World)
    : result unit * World :=
  match fault with
  | Some (CGzClose partial) =>
      (Err (EIO "gzip close"), snd (OS.FileWrite gzf partial w))
  | _ => (Ok tt, snd (OS.FileWrite gzf (gzip bytes) w))
  end.

(** [gzf.Close()] and [f.Close()] *)
Definition gzf_Close (fault : option cstep) : result unit :=
  match fault with Some CGzfClose => Err (EIO "close compressed") | _ => Ok tt end.
Definition f_Close (fault : option cstep) : result unit :=
  match fault with Some CFClose => Err (EIO "close log") | _ => Ok tt end.

(** [os.Remove(src)] *)
Definition remove_src (fault : option cstep) (src : string) (w : World)
    : result unit * World :=
  match fault with
  | Some CRemove => (Err (EIO "remove log"), w)
  | _ => OS.Remove src w
  end.

(** [compressLogFile] compresses the given log file, removing the
    uncompressed log file if successful. [fault] is the step that fails in
    this call, if one does. [cleanup] is the deferred function, which acts
    when the function returns an error once the compressed file is open;
    the two deferred [Close] calls change nothing in the directory. *)
Definition compressLogFile (fault : option cstep) (src dst : string) (w : World)
    : result unit * World :=
  match OS.Open src w with
  | Err e => (Err (ErrOpenLog e), w)
  | Panic m => (Panic m, w)
  | Ok f =>
  match OS.Stat src w with
  | Err e => (Err (ErrStatLog e), w)
  | Panic m => (Panic m, w)
  | Ok fi =>
  match chown dst fi w with
  | Err e => (Err (ErrChownCompressed e), w)
  | Panic m => (Panic m, w)
  | Ok _ =>
  match OS.OpenFile_trunc dst (fi_Mode fi) w with
  | (Err e, w1) => (Err (ErrOpenCompressed e), w1)
  | (Panic m, w1) => (Panic m, w1)
  | (Ok gzf, w1) =>
      let cleanup (err : error) (w : World) : result unit * World :=
        (Err (ErrCompress err), snd (OS.Remove dst w)) in
      match io_Copy fault gzf f w1 with
      | (Err e, w2) => cleanup e w2
      | (Panic m, w2) => (Panic m, w2)
      | (Ok bytes, w2) =>
      match gz_Close fault gzf bytes w2 with
      | (Err e, w3) => cleanup e w3
      | (Panic m, w3) => (Panic m, w3)
      | (Ok _, w3) =>
      match gzf_Close fault with
      | Err e => cleanup e w3
      | Panic m => (Panic m, w3)
      | Ok _ =>
      match f_Close fault with
      | Err e => cleanup e w3
      | Panic m => (Panic m, w3)
      | Ok _ =>
      match remove_src fault src w3 with
      | (Err e, w4) => cleanup e w4
      | (Panic m, w4) => (Panic m, w4)
      | (Ok _, w4) => (Ok tt, w4)
      end end end end end
  end end end end.

(** The loops of [millRunOnce]. *)

(** Appending every name to /tmp/solution3.log. *)
Fixpoint logSolution3 (files : list logInfo) (w : World) : World :=
  match files with
  | [] => w
  | f :: rest => logSolution3 rest (append_solution3 (Name f +:+ newline) w)
  end.

(** The count loop: [preserved] is the set of keys of the Go map. *)
Fixpoint countLoop (maxBackups : Z) (files : list logInfo)
    (preserved : gset string) (remaining remove : list logInfo) (w : World)
    : list logInfo * list logInfo * World :=
  match files with
  | [] => (remaining, remove, w)
  | f :: rest =>
      let w := append_solution (Name f +:+ newline) w in
      let fn := TrimSuffix (Name f) compressSuffix in
      let preserved := {[ fn ]} ∪ preserved in
      if Z.of_nat (base.size preserved) >? maxBackups
      then countLoop maxBackups rest preserved remaining (remove ++ [f]) w
      else countLoop maxBackups rest preserved (remaining ++ [f]) remove w
  end.

(** The age loop. *)
Fixpoint ageLoop (cutoff : Z) (files remaining remove : list logInfo)
    : list logInfo * list logInfo :=
  match files with
  | [] => (remaining, remove)
  | f :: rest =>
      if timestamp f <? cutoff   (* f.timestamp.Before(cutoff) *)
      then ageLoop cutoff rest remaining (remove ++ [f])
      else ageLoop cutoff rest (remaining ++ [f]) remove
  end.

(** The selection of the files to compress. *)
Fixpoint compressSelect (files compress : list logInfo) : list logInfo :=
  match files with
  | [] => compress
  | f :: rest =>
      if negb (HasSuffix (Name f) compressSuffix)
      then compressSelect rest (compress ++ [f])
      else compressSelect rest compress
  end.

(** The removals; [err] keeps the first error. *)
Fixpoint removeLoop (remove : list logInfo) (err : option error) (w : World)
    : option error * World :=
  match remove with
  | [] => (err, w)
  | f :: rest =>
      match OS.Remove (Name f) w with
      | (Ok _, w') => removeLoop rest err w'
      | (Err errRemove, w') =>
          removeLoop rest (match err with None => Some errRemove | _ => err end) w'
      | (Panic _, w') => removeLoop rest err w'
      end
  end.

(** The compressions; [err] keeps the first error. *)
Fixpoint compressLoop (compress : list logInfo) (err : option error) (w : World)
    : option error * World :=
  match compress with
  | [] => (err, w)
  | f :: rest =>
      let fn := Name f in
      match compressLogFile (w_fault w fn) fn (fn +:+ compressSuffix) w with
      | (Ok _, w') => compressLoop rest err w'
      | (Err errCompress, w') =>
          compressLoop rest (match err with None => Some errCompress | _ => err end) w'
      | (Panic _, w') => compressLoop rest err w'
      end
  end.

(** [millRunOnce] performs compression and removal of stale log files. *)
Definition millRunOnce (l : Logger) (w : World) : result unit * World :=
  if (MaxBackups l =? 0) && (MaxAge l =? 0) && negb (Compress l) then (Ok tt, w)
  else
    match oldLogFiles l w with
    | (Err e, w1) => (Err e, w1)
    | (Panic m, w1) => (Panic m, w1)
    | (Ok files, w1) =>
        let w2 := logSolution3 files w1 in
        let '(files, remove, w3) :=
          if (MaxBackups l >? 0) && (MaxBackups l <? Z.of_nat (length files))
          then countLoop (MaxBackups l) files ∅ [] [] w2
          else (files, [], w2) in
        let '(files, remove) :=
          if MaxAge l >? 0 then
            let diff := mul64 (24 * Hour) (MaxAge l) in
            let cutoff := w_now w3 + mul64 (-1) diff in
            ageLoop cutoff files [] remove
          else (files, remove) in
        let compress :=
          if Compress l then compressSelect files [] else [] in
        let '(err, w4) := removeLoop remove None w3 in
        let '(err, w5) := compressLoop compress err w4 in
        (match err with None => Ok tt | Some e => Err e end, w5)
    end.

(** The loop of [backupName] over the old files: the highest order among
    the names that do not end in the compress suffix. *)
Fixpoint maxOrderLoop (l : Logger) (prefix ext : string)
    (oldFiles : list logInfo) (maxBackupOrder : Z) : result Z :=
  match oldFiles with
  | [] => Ok maxBackupOrder
  | f :: rest =>
      if negb (HasSuffix (Name f) compressSuffix) then
        match orderFromName l (Name f) prefix ext with
        | Ok order =>
            if maxBackupOrder <? order
            then maxOrderLoop l prefix ext rest order
            else maxOrderLoop l prefix ext rest maxBackupOrder
        | Err _ => maxOrderLoop l prefix ext rest maxBackupOrder
        | Panic m => Panic m
        end
      else maxOrderLoop l prefix ext rest maxBackupOrder
  end.

(** [backupName] creates a new filename. The result stands for
    [filepath.Join(dir, filename)], an entry of the log directory. *)
Definition backupName (l : Logger) (name nameTimeFormat : string) (local : bool)
    (w : World) : result string * World :=
  let '(prefix, ext) := prefixAndExt l in
  if negb (String.eqb nameTimeFormat "") then
    let t := w_now w in
    let timestamp := time_Format local nameTimeFormat t in
    (Ok (prefix +:+ timestamp +:+ ext), w)
  else
    match oldLogFiles l w with
    | (Err e, w') => (Err e, w')
    | (Panic m, w') => (Panic m, w')
    | (Ok oldFiles, w') =>
        match maxOrderLoop l prefix ext oldFiles 0 with
        | Ok maxBackupOrder =>
            (Ok (prefix +:+ ext +:+ "." +:+ Strconv.Itoa (add64 maxBackupOrder 1)), w')
        | Err e => (Err e, w')
        | Panic m => (Panic m, w')
        end
    end.

(** [mill] starts the mill goroutine if necessary and sends on the channel
    without blocking. The goroutine itself runs apart from the caller: see
    [millRun]. *)
Definition mill (st : St) : St :=
  emit EvMill (set_l (set_millCh (Some true) (st_l st)) st).

(** One turn of the loop of [millRun]: takes the waiting request, if any,
    and runs [millRunOnce], whose error it drops. *)
Definition millRun (st : St) : St :=
  match millCh (st_l st) with
  | Some true =>
      let st := set_l (set_millCh (Some false) (st_l st)) st in
      set_w (snd (millRunOnce (st_l st) (st_w st))) st
  | _ => st
  end.

(** The body of [if err == nil] in [openNew]: moves the existing file. *)
Definition moveExisting (l : Logger) (name : string) (info : FileInfo) (w : World)
    : result unit * World :=
  match backupName l name (FilenameTimeFormat l) (LocalTime l) w with
  | (Err e, w1) => (Err e, w1)
  | (Panic m, w1) => (Panic m, w1)
  | (Ok newname, w1) =>
      match OS.Rename (Filepath.Base name) newname w1 with
      | (Err e, w2) => (Err (ErrRename e), w2)
      | (Panic m, w2) => (Panic m, w2)
      | (Ok _, w2) =>
          let chtimes :=
            if String.eqb (FilenameTimeFormat l) ""
            then OS.Chtimes newname (w_now w2) w2
            else (Ok tt, w2) in
          match chtimes with
          | (Err e, w3) => (Err e, w3)
          | (Panic m, w3) => (Panic m, w3)
          | (Ok _, w3) =>
              match chown (Filepath.Base name) info w3 with
              | Err e => (Err e, w3)
              | Panic m => (Panic m, w3)
              | Ok _ => (Ok tt, w3)
              end
          end
      end
  end.

(** [openNew] opens a new log file for writing, moving any old log file
    out of the way. *)
Definition openNew : M unit := fun st =>
  let l := st_l st in
  match OS.MkdirAll (st_w st) with
  | (Err e, w) => (Err (ErrMakeDirs e), set_w w st)
  | (Panic m, w) => (Panic m, set_w w st)
  | (Ok _, w) =>
      let name := filename l in
      let moved :=
        match OS.Stat (Filepath.Base name) w with
        | Ok info =>
            match moveExisting l name info w with
            | (Ok _, w') => (Ok (fi_Mode info), w')
            | (Err e, w') => (Err e, w')
            | (Panic m, w') => (Panic m, w')
            end
        | _ => (Ok 384%N, w)     (* os.FileMode(0600) *)
        end in
      match moved with
      | (Err e, w1) => (Err e, set_w w1 st)
      | (Panic m, w1) => (Panic m, set_w w1 st)
      | (Ok mode, w1) =>
          match OS.OpenFile_trunc (Filepath.Base name) mode w1 with
          | (Err e, w2) => (Err (ErrOpenNew e), set_w w2 st)
          | (Panic m, w2) => (Panic m, set_w w2 st)
          | (Ok f, w2) =>
              (Ok tt, set_w w2 (set_l (set_size 0 (set_file (Some f) l)) st))
          end
      end
  end.

(** [close] closes the file if it is open. *)
Definition close : M unit := fun st =>
  match file (st_l st) with
  | None => (Ok tt, st)
  | Some _ => (Ok tt, set_l (set_file None (st_l st)) st)
  end.

(** [rotate] closes the current file, moves it aside, opens a new file with
    the original filename, and then runs post-rotation processing. *)
Definition rotate : M unit := fun st =>
  match close (emit EvRotate st) with
  | (Err e, st1) => (Err e, st1)
  | (Panic m, st1) => (Panic m, st1)
  | (Ok _, st1) =>
      match openNew st1 with
      | (Err e, st2) => (Err e, st2)
      | (Panic m, st2) => (Panic m, st2)
      | (Ok _, st2) => (Ok tt, mill st2)
      end
  end.

(** [openExistingOrNew] opens the logfile if it exists and if the current
    write would not put it over MaxBytes. *)
Definition openExistingOrNew (writeLen : Z) : M unit := fun st =>
  let st := mill st in
  let l := st_l st in
  let filename := Filepath.Base (filename l) in
  match OS.Stat filename (st_w st) with
  | Panic m => (Panic m, st)
  | Err e =>
      if OS.IsNotExist e then openNew st
      else (Err (ErrLogFileInfo e), st)
  | Ok info =>
      if add64 (fi_Size info) writeLen >=? max l writeLen then rotate st
      else
        match OS.OpenFile_append filename (st_w st) with
        | Ok file => (Ok tt, set_l (set_size (fi_Size info) (set_file (Some file) l)) st)
        | _ => openNew st
        end
  end.

(** [Write] implements io.Writer; the result is the pair [(n, err)]. *)
Definition Write (p : string) : M (Z * option error) := fun st =>
  let writeLen := len p in
  if writeLen >? max (st_l st) writeLen then
    (Ok (0, Some (ErrWriteLength writeLen (max (st_l st) writeLen))), st)
  else
    let opened :=
      match file (st_l st) with
      | None => openExistingOrNew (len p) st
      | Some _ => (Ok tt, st)
      end in
    match opened with
    | (Err e, st1) => (Ok (0, Some e), st1)
    | (Panic m, st1) => (Panic m, st1)
    | (Ok _, st1) =>
        let rotated :=
          if add64 (size (st_l st1)) writeLen >? max (st_l st1) writeLen
          then rotate st1
          else (Ok tt, st1) in
        match rotated with
        | (Err e, st2) => (Ok (0, Some e), st2)
        | (Panic m, st2) => (Panic m, st2)
        | (Ok _, st2) =>
            match file (st_l st2) with
            | None => (Ok (0, Some EINVAL), st2)
            | Some f =>
                let '((n, err), w) := OS.FileWrite f p (st_w st2) in
                (Ok (n, err),
                 emit (EvFileWrite f n)
                   (set_w w (set_l (set_size (add64 (size (st_l st2)) n) (st_l st2)) st2)))
            end
        end
    end.

(** [Close] implements io.Closer, and closes the current logfile. *)
Definition Close : M unit := close.

(** [Rotate] causes Logger to close the existing log file and immediately
    create a new one. *)
Definition Rotate : M unit := rotate.

End Logger.

(** ** A platform and a world to run the definitions on

    The layout language of package time is not part of this repository; the
    reference platform reads a timestamp as a count of nanoseconds in decimal
    and prints it the same way. *)
#[export] Instance refPlatform : Platform := {|
  time_Parse := fun _ ts => Strconv.parse_digits ts;
  time_Format := fun _ _ t => Strconv.Itoa t;
  gzip := fun s => "gzip:" +:+ s;
  default_filename := "/tmp/logrotate.test.log"
|}.

Definition mkWorld (d : list (string * entry)) (now : Z) : World :=
  {| w_dir := Some (list_to_map d); w_now := now;
     w_solution := ""; w_solution2 := ""; w_solution3 := "";
     w_fault := fun _ => None; w_chown_fails := fun _ => false |}.

Definition mkLogger (name format : string) (maxBytes maxAge maxBackups : Z)
    (compress : bool) : Logger :=
  {| Filename := name; FilenameTimeFormat := format; MaxBytes := maxBytes;
     MaxAge := maxAge; MaxBackups := maxBackups; LocalTime := false;
     Compress := compress; size := 0; file := None; millCh := None |}.

Definition mkSt (l : Logger) (w : World) : St :=
  {| st_l := l; st_w := w; st_trace := [] |}.

(** A regular file with mode 0644. *)
Definition regular (bytes : string) (mtime : Z) : entry := Entry false bytes 420 mtime.

(** The names in the directory, in [ReadDir] order. *)
Definition ls (w : World) : list string :=
  match OS.ReadDir w with
  | Ok files => map fst files
  | _ => []
  end.

(** The bytes of a file of the directory. *)
Definition cat (name : string) (w : World) : option string :=
  data <$> entries w !! name.

(** The value and the state after a call. *)
Definition after {A} (m : M A) (st : St) : St := snd (m st).

(** ** Vocabulary of the properties *)

(** The lines [name + "\n"] of a list of names, one after the other. *)
Fixpoint joinLines (names : list string) : string :=
  match names with
  | [] => ""
  | n :: rest => (n +:+ newline) +:+ joinLines rest
  end.

(** The entries of the log directory as [os.ReadDir] lists them. *)
Definition listing (w : World) : list (string * entry) :=
  match OS.ReadDir w with
  | Ok files => files
  | _ => []
  end.

(** The files of an entry list that the scan classifies as backups, with
    their timestamps, and the names of those it does not classify. *)
Fixpoint scanned `{P : Platform} (l : Logger) (prefix ext : string) (w : World)
    (files : list (string * entry)) : list logInfo :=
  match files with
  | [] => []
  | (name, f) :: rest =>
      if isDir f then scanned l prefix ext w rest
      else match classifyEntry l prefix ext name w with
           | Ok (Some t) =>
               {| timestamp := t; info := info_of name f |} :: scanned l prefix ext w rest
           | _ => scanned l prefix ext w rest
           end
  end.

Fixpoint unscanned `{P : Platform} (l : Logger) (prefix ext : string) (w : World)
    (files : list (string * entry)) : list string :=
  match files with
  | [] => []
  | (name, f) :: rest =>
      if isDir f then unscanned l prefix ext w rest
      else match classifyEntry l prefix ext name w with
           | Ok None => name :: unscanned l prefix ext w rest
           | _ => unscanned l prefix ext w rest
           end
  end.

(** The classified backups of the log directory, and the names of the files
    in it that fail classification. *)
Definition classified `{P : Platform} (l : Logger) (w : World) : list logInfo :=
  scanned l (fst (prefixAndExt l)) (snd (prefixAndExt l)) w (listing w).

Definition unclassifiedNames `{P : Platform} (l : Logger) (w : World) : list string :=
  unscanned l (fst (prefixAndExt l)) (snd (prefixAndExt l)) w (listing w).

(** What the calls leave of the world outside the directory. *)
Definition same_env (w w' : World) : Prop :=
  w_now w' = w_now w /\ w_solution w' = w_solution w /\
  w_solution2 w' = w_solution2 w /\ w_solution3 w' = w_solution3 w /\
  w_fault w' = w_fault w /\ w_chown_fails w' = w_chown_fails w.

(** The worlds between the opening of the compressed file and the end of
    [compressLogFile]: [dst] is a regular file holding [c], the rest is as
    in [w]. *)
Definition streaming (dst : string) (c : string) (w wk : World) : Prop :=
  same_env w wk /\
  (forall n, n <> dst -> entries wk !! n = entries w !! n) /\
  exists ed, entries wk !! dst = Some ed /\ isDir ed = false /\ data ed = c.

(** Is every byte of [s] a decimal digit? *)
Fixpoint all_digits (s : string) : bool :=
  match s with
  | EmptyString => true
  | String c r =>
      (Ascii.eqb c "0" || Ascii.eqb c "1" || Ascii.eqb c "2" || Ascii.eqb c "3"
       || Ascii.eqb c "4" || Ascii.eqb c "5" || Ascii.eqb c "6" || Ascii.eqb c "7"
       || Ascii.eqb c "8" || Ascii.eqb c "9") && all_digits r
  end.

(** ** Example runs

    The directories and Loggers of the package's own tests, for the
    reference platform. *)

(** TestWriteTooLong: MaxBytes is 1 and the directory is empty. *)
Definition tooLongLogger : Logger := mkLogger "/var/log/foo.log" "" 1 0 0 false.
Definition tooLongSt : St := mkSt tooLongLogger (mkWorld [] 1000).

(** A Logger with MaxBytes below the sentinel. *)
Definition negativeSt : St :=
  mkSt (mkLogger "/var/log/foo.log" "" (-2) 0 0 false) (mkWorld [] 1000).

(** A Logger with foo.log open at 4 bytes and MaxBytes 10. *)
Definition openSt : St :=
  mkSt (set_size 4 (set_file (Some "foo.log")
          (mkLogger "/var/log/foo.log" "" 10 0 0 false)))
       (mkWorld [("foo.log", regular "boo!" 900)] 1000).

(** TestAutoRotateBackupWithOrder and TestRotateBackupsWithOrder: an empty
    directory and MaxBytes 10. *)
Definition autoRotateSt : St :=
  mkSt (mkLogger "/tmp/TestAutoRotateBackupWithOrder/foobar.log" "" 10 0 0 false)
       (mkWorld [] 1000).

(** TestCleanupExistingBackupsWithOrder: three backups, the second one
    compressed, a log file of 4 bytes, MaxBytes 10 and MaxBackups 1. *)
Definition cleanupLogger : Logger :=
  mkLogger "/tmp/TestCleanupExistingBackupsWithOrder/foobar.log" "" 10 0 1 false.
Definition cleanupWorld : World :=
  mkWorld [("foobar.log.1", regular "data" 100);
           ("foobar.log.2.gz", regular "data" 200);
           ("foobar.log.3", regular "data" 300);
           ("foobar.log", regular "data" 400)] 1000.

(** A directory in ordinal mode with a backup, its compressed form, a
    subdirectory named like a backup and another file. *)
Definition ordinalLogger : Logger := mkLogger "/var/log/foo.log" "" 10 0 0 true.
Definition ordinalWorld : World :=
  mkWorld [("foo.log", regular "data" 400);
           ("foo.log.1", regular "old" 100);
           ("foo.log.1.gz", regular "gzip:old" 100);
           ("foo.log.4", Entry true "" 493 50);
           ("notes.txt", regular "n" 10)] 1000.

(** The same in timestamp mode; the reference layout is a decimal count. *)
Definition timeLogger : Logger := mkLogger "/var/log/foo.log" "ns" 10 0 0 true.
Definition timeWorld : World :=
  mkWorld [("foo.log", regular "data" 400);
           ("foo-100.log", regular "old" 100);
           ("foo-100.log.gz", regular "gzip:old" 100);
           ("foo-200.log", Entry true "" 493 50);
           ("notes.txt", regular "n" 10)] 1000.

(** A directory whose highest order is the largest int. *)
Definition overflowWorld : World :=
  mkWorld [("foobar.log", regular "data" 400);
           ("foobar.log.9223372036854775807", regular "a" 100);
           ("foobar.log.-9223372036854775808", regular "b" 200)] 1000.

(** Files whose names start like the log file and end in a number, next to
    one that ends otherwise. *)
Definition looseWorld : World :=
  mkWorld [("foobar.log-old.7", regular "" 100);
           ("foobar.log.+3", regular "" 200);
           ("foobar.logger.2", regular "" 300);
           ("foobar.log.4.foo", regular "" 400)] 1000.

(** A log file name whose prefix and extension overlap in a file name of the
    directory, in timestamp mode. *)
Definition overlapLogger : Logger := mkLogger "/var/log/x..-" "ns" 10 0 1 false.
Definition overlapWorld : World := mkWorld [("x.-", regular "" 100)] 1000.


(** The list that the scan of a world returns, empty if it fails. *)
Definition scanOf `{P : Platform} (l : Logger) (w : World) : list logInfo :=
  match fst (oldLogFiles l w) with
  | Ok files => files
  | _ => []
  end.

(** A backup to compress and a fault while its bytes are copied. *)
Definition compressWorld : World :=
  mkWorld [("foo.log", regular "data" 400);
           ("foo.log.1", regular "boo!" 100)] 1000.

(** The backups a list of files stands for: their names without the
    compress suffix, a file and its compressed form counting once. *)
Definition units (files : list logInfo) : gset string :=
  list_to_set (map (fun f => GoStrings.TrimSuffix (Name f) compressSuffix) files).

(** A list of files with the newest first. *)
Definition newestFirst (files : list logInfo) : Prop :=
  StronglySorted (fun a b => timestamp b <= timestamp a) files.

(** The Logger's book-keeping of the open file: the handle is on the log
    file, a regular file of the directory, and the tracked size is the
    number of bytes the file holds. It holds trivially while no file is
    open. *)
Definition tracked `{P : Platform} (st : St) : Prop :=
  match file (st_l st) with
  | Some f =>
      f = logEntry (st_l st) /\
      exists e, entries (st_w st) !! f = Some e /\ isDir e = false /\
                size (st_l st) = len (data e)
  | None => True
  end.

(** The Logger after an attempt to open a new log file: no file is open,
    or the handle is on the log file, a regular file without bytes, and
    the tracked size is 0. *)
Definition closedOrFresh `{P : Platform} (st : St) : Prop :=
  match file (st_l st) with
  | Some f =>
      f = logEntry (st_l st) /\ size (st_l st) = 0 /\
      exists e, entries (st_w st) !! f = Some e /\ isDir e = false /\ data e = ""
  | None => True
  end.

(** A Logger with the sentinel MaxBytes and foo.log open at 4 bytes. *)
Definition unlimitedSt : St :=
  mkSt (set_size 4 (set_file (Some "foo.log")
          (mkLogger "/var/log/foo.log" "" (-1) 0 0 false)))
       (mkWorld [("foo.log", regular "boo!" 900)] 1000).

(** A Logger without a handle, MaxBytes 10, next to a log file of 4
    bytes. *)
Definition reopenSt : St :=
  mkSt (mkLogger "/var/log/foo.log" "" 10 0 0 false)
       (mkWorld [("foo.log", regular "boo!" 900)] 1000).

(** The timestamp directory with a request to the mill pending. *)
Definition pendingSt : St := mkSt (set_millCh (Some true) timeLogger) timeWorld.

(** The uncompressed backup of the ordinal directory. *)
Definition ordinalBackup : logInfo :=
  {| timestamp := 100; info := info_of "foo.log.1" (regular "old" 100) |}.

(** * Properties *)

(** ** Machine arithmetic *)

Lemma wrap64_id (z : Z) : in_int64 z -> wrap64 z = z.
Proof.
  unfold in_int64, int64_min, int64_max, wrap64. intros H.
  rewrite Z.mod_small; lia.
Qed.

Lemma wrap64_range (z : Z) : in_int64 (wrap64 z).
Proof.
  unfold in_int64, int64_min, int64_max, wrap64.
  pose proof (Z.mod_pos_bound (z + 2 ^ 63) (2 ^ 64)). lia.
Qed.

Lemma add64_add64_1 (a b : Z) : add64 (add64 a b) 1 = wrap64 (b + a + 1).
Proof.
  unfold add64, wrap64.
  replace ((a + b + 2 ^ 63) mod 2 ^ 64 - 2 ^ 63 + 1 + 2 ^ 63)
    with ((a + b + 2 ^ 63) mod 2 ^ 64 + 1) by lia.
  rewrite Zplus_mod_idemp_l. f_equal. f_equal. lia.
Qed.

Lemma len_nonneg (p : string) : 0 <= len p.
Proof. unfold len. lia. Qed.

(** ** The effective maximum and the write path *)

Section WriteProperties.
Context `{P : Platform}.

(** C8. The effective maximum size is the configured MaxBytes when that is
    positive; the tracked size plus the pending write length plus one, in
    int64 arithmetic, when MaxBytes is the sentinel -1 (the plain sum
    whenever it fits an int64); and 100 MiB, 100 * 1024 * 1024 bytes, when
    MaxBytes is zero. *)
Theorem max_effective (l : Logger) (writeLen : Z) :
  (0 < MaxBytes l -> max l writeLen = MaxBytes l) /\
  (MaxBytes l = -1 ->
     max l writeLen = wrap64 (size l + writeLen + 1) /\
     (in_int64 (size l + writeLen + 1) -> max l writeLen = size l + writeLen + 1)) /\
  (MaxBytes l = 0 -> max l writeLen = 100 * 1024 * 1024).
Proof.
  unfold max. repeat split.
  - intros H. destruct (Z.eqb_spec (MaxBytes l) 0); [lia|]. simpl.
    destruct (Z.eqb_spec (MaxBytes l) (-1)); [lia|]. reflexivity.
  - rewrite H. simpl. apply add64_add64_1.
  - intros Hr. rewrite H. simpl. rewrite add64_add64_1. now apply wrap64_id.
  - intros H. rewrite H. reflexivity.
Qed.

(** C1. When the length of [p] alone exceeds the effective maximum, [Write]
    returns n = 0 with the length-exceeded error and leaves the whole state
    as it was: the tracked size and the handle of the Logger, every entry of
    the directory (no file is created), and the trace (no rotation, no
    request to the mill). *)
Theorem Write_too_long (p : string) (st : St) :
  len p > max (st_l st) (len p) ->
  Write p st =
    (Ok (0, Some (ErrWriteLength (len p) (max (st_l st) (len p)))), st).
Proof.
  intros H. unfold Write.
  destruct (Z.gtb_spec (len p) (max (st_l st) (len p))) as [_|Hle]; [reflexivity | lia].
Qed.

(** C10. With a configured MaxBytes below -1 the effective maximum is that
    negative value, so [Write] rejects every [p], the empty one included,
    with the length-exceeded error and n = 0, and changes nothing: no file
    is opened or created. *)
Theorem Write_negative_MaxBytes (p : string) (st : St) :
  MaxBytes (st_l st) < -1 ->
  max (st_l st) (len p) = MaxBytes (st_l st) /\
  Write p st =
    (Ok (0, Some (ErrWriteLength (len p) (MaxBytes (st_l st)))), st).
Proof.
  intros H.
  assert (Hmax : max (st_l st) (len p) = MaxBytes (st_l st)).
  { unfold max. destruct (Z.eqb_spec (MaxBytes (st_l st)) 0); [lia|]. simpl.
    destruct (Z.eqb_spec (MaxBytes (st_l st)) (-1)); [lia|]. reflexivity. }
  split; [exact Hmax|].
  unfold Write. rewrite Hmax.
  pose proof (len_nonneg p) as Hlen.
  destruct (Z.gtb_spec (len p) (MaxBytes (st_l st))) as [_|Hle]; [reflexivity | lia].
Qed.

(** The events of a call are appended to the trace; these lemmas name them. *)

Ltac break_match :=
  match goal with
  | |- context [match ?x with _ => _ end] => destruct x eqn:?
  end.

Lemma FileWrite_fst (name p : string) (w : World) :
  fst (OS.FileWrite name p w) = (len p, None).
Proof.
  unfold OS.FileWrite.
  destruct (w_dir w) as [d|]; [destruct (d !! name)|]; reflexivity.
Qed.

Lemma openNew_trace (st : St) : st_trace (snd (openNew st)) = st_trace st.
Proof. unfold openNew. repeat (break_match; simpl); reflexivity. Qed.

Lemma rotate_trace (st : St) :
  exists evs, st_trace (snd (rotate st)) = st_trace st ++ (EvRotate :: evs) /\
              ~ In EvRotate evs.
Proof.
  unfold rotate, close.
  destruct (file (st_l (emit EvRotate st))) eqn:Hf; simpl.
  - pose proof (openNew_trace (set_l (set_file None (st_l (emit EvRotate st))) (emit EvRotate st))) as Ht.
    destruct (openNew _) as [[[] | e | m] st2] eqn:Ho; simpl in *.
    + exists [EvMill]. rewrite Ht. rewrite <- app_assoc. split; [reflexivity|].
      simpl. intros [H|[]]. discriminate.
    + exists []. rewrite Ht. split; [reflexivity | intros []].
    + exists []. rewrite Ht. split; [reflexivity | intros []].
  - pose proof (openNew_trace (emit EvRotate st)) as Ht.
    destruct (openNew _) as [[[] | e | m] st2] eqn:Ho; simpl in *.
    + exists [EvMill]. rewrite Ht. rewrite <- app_assoc. split; [reflexivity|].
      simpl. intros [H|[]]. discriminate.
    + exists []. rewrite Ht. split; [reflexivity | intros []].
    + exists []. rewrite Ht. split; [reflexivity | intros []].
Qed.


End WriteProperties.

(** ** The file system calls, entry by entry *)

Section FileSystemFacts.

Lemma entries_Some (w : World) (d : gmap string entry) :
  w_dir w = Some d -> entries w = d.
Proof. unfold entries. now intros ->. Qed.

Lemma same_env_refl (w : World) : same_env w w.
Proof. unfold same_env. tauto. Qed.

Lemma same_env_trans (w1 w2 w3 : World) :
  same_env w1 w2 -> same_env w2 w3 -> same_env w1 w3.
Proof. unfold same_env. intuition congruence. Qed.

Lemma same_env_set_dir (d : option (gmap string entry)) (w : World) :
  same_env w (set_dir d w).
Proof. unfold same_env. simpl. tauto. Qed.

Lemma OpenFile_trunc_spec (name : string) (perm : N) (w w1 : World) (r : result string) :
  OS.OpenFile_trunc name perm w = (r, w1) ->
  same_env w w1 /\
  match r with
  | Ok g =>
      g = name /\
      (exists e, entries w1 !! name = Some e /\ isDir e = false /\ data e = "") /\
      (forall n, n <> name -> entries w1 !! n = entries w !! n)
  | Err _ => w1 = w
  | Panic _ => False
  end.
Proof.
  unfold OS.OpenFile_trunc, entries.
  destruct (w_dir w) as [d|] eqn:Hd.
  - destruct (d !! name) as [e|] eqn:He.
    + destruct (isDir e) eqn:Hdir; intros H; inversion H; subst; clear H.
      * split; [apply same_env_refl | reflexivity].
      * split; [apply same_env_set_dir|]. simpl. split; [reflexivity|]. split.
        -- eexists. rewrite lookup_insert_eq. eauto.
        -- intros n Hn. now rewrite lookup_insert_ne.
    + intros H; inversion H; subst; clear H.
      split; [apply same_env_set_dir|]. simpl. split; [reflexivity|]. split.
      * eexists. rewrite lookup_insert_eq. eauto.
      * intros n Hn. now rewrite lookup_insert_ne.
  - intros H; inversion H; subst. split; [apply same_env_refl | reflexivity].
Qed.

Lemma FileWrite_spec (name p : string) (w : World) :
  same_env w (snd (OS.FileWrite name p w)) /\
  (forall n, n <> name ->
     entries (snd (OS.FileWrite name p w)) !! n = entries w !! n) /\
  entries (snd (OS.FileWrite name p w)) !! name =
    (fun e => Entry (isDir e) (data e +:+ p) (mode e) (w_now w)) <$> (entries w !! name).
Proof.
  unfold OS.FileWrite, entries.
  destruct (w_dir w) as [d|] eqn:Hd; simpl.
  - destruct (d !! name) as [e|] eqn:He; simpl.
    + split; [apply same_env_set_dir|]. split.
      * intros n Hn. now rewrite lookup_insert_ne.
      * now rewrite lookup_insert_eq.
    + rewrite Hd. split; [apply same_env_refl|]. split; [reflexivity|].
      now rewrite He.
  - rewrite Hd. split; [apply same_env_refl|]. split; [reflexivity|].
    now rewrite lookup_empty.
Qed.

Lemma Remove_spec (name : string) (w w1 : World) (r : result unit) :
  OS.Remove name w = (r, w1) ->
  same_env w w1 /\
  match r with
  | Ok _ =>
      (exists e, entries w !! name = Some e /\ isDir e = false) /\
      entries w1 !! name = None /\
      (forall n, n <> name -> entries w1 !! n = entries w !! n)
  | Err _ =>
      w1 = w /\
      (entries w !! name = None \/
       exists e, entries w !! name = Some e /\ isDir e = true)
  | Panic _ => False
  end.
Proof.
  unfold OS.Remove, entries.
  destruct (w_dir w) as [d|] eqn:Hd.
  - destruct (d !! name) as [e|] eqn:He.
    + destruct (isDir e) eqn:Hdir; intros H; inversion H; subst; clear H.
      * split; [apply same_env_refl|]. split; [reflexivity|]. right. eauto.
      * split; [apply same_env_set_dir|]. simpl. split; [eauto|]. split.
        -- apply lookup_delete_eq.
        -- intros n Hn. now rewrite lookup_delete_ne.
    + intros H; inversion H; subst; clear H.
      split; [apply same_env_refl|]. split; [reflexivity|]. now left.
  - intros H; inversion H; subst; clear H.
    split; [apply same_env_refl|]. split; [reflexivity|]. left. apply lookup_empty.
Qed.

End FileSystemFacts.

Section CompressProperties.
Context `{P : Platform}.

Lemma streaming_write (dst c p : string) (w wk : World) :
  streaming dst c w wk ->
  streaming dst (c +:+ p) w (snd (OS.FileWrite dst p wk)).
Proof.
  intros (Henv & Hfr & ed & Hed & Hdir & Hc).
  destruct (FileWrite_spec dst p wk) as (He & Hf & Hd).
  split; [eapply same_env_trans; eauto|]. split.
  - intros n Hn. rewrite Hf by exact Hn. now apply Hfr.
  - rewrite Hd, Hed. simpl. eexists. split; [reflexivity|]. simpl.
    split; [exact Hdir | now rewrite Hc].
Qed.

Lemma streaming_cleanup (dst c : string) (w wk : World) :
  streaming dst c w wk ->
  same_env w (snd (OS.Remove dst wk)) /\
  (forall n, n <> dst -> entries (snd (OS.Remove dst wk)) !! n = entries w !! n) /\
  entries (snd (OS.Remove dst wk)) !! dst = None.
Proof.
  intros (Henv & Hfr & ed & Hed & Hdir & Hc).
  destruct (OS.Remove dst wk) as [r w'] eqn:Hr. simpl.
  apply Remove_spec in Hr. destruct Hr as [He Hr].
  destruct r as [u|e|m].
  - destruct Hr as (_ & Hnone & Hf). split; [eapply same_env_trans; eauto|].
    split; [|exact Hnone]. intros n Hn. rewrite Hf by exact Hn. now apply Hfr.
  - destruct Hr as (-> & [Hn | (e' & He' & Hd')]); congruence.
  - destruct Hr.
Qed.

(** The outcome of [compressLogFile], case by case. *)
Lemma compressLogFile_cases (fault : option cstep) (src dst : string) (w w' : World)
    (r : result unit) :
  src <> dst ->
  compressLogFile fault src dst w = (r, w') ->
  same_env w w' /\
  (forall n, n <> src -> n <> dst -> entries w' !! n = entries w !! n) /\
  match r with
  | Ok _ =>
      fault = None /\
      entries w' !! src = None /\
      exists es ed, entries w !! src = Some es /\ isDir es = false /\
                    entries w' !! dst = Some ed /\ isDir ed = false /\
                    data ed = gzip (data es)
  | Err (ErrCompress _) =>
      entries w' !! dst = None /\ entries w' !! src = entries w !! src
  | Err _ => w' = w
  | Panic _ => False
  end.
Proof.
  intros Hne. unfold compressLogFile, OS.Open, OS.Stat, chown.
  destruct (entries w !! src) as [es|] eqn:Hs;
    [| intros H; inversion H; subst; repeat split; auto using same_env_refl].
  destruct (w_chown_fails w dst) eqn:Hc;
    [intros H; inversion H; subst; repeat split; auto using same_env_refl |].
  destruct (OS.OpenFile_trunc dst (fi_Mode (info_of src es)) w) as [ro w1] eqn:Ho.
  apply OpenFile_trunc_spec in Ho. destruct Ho as [Henv1 Ho].
  destruct ro as [gzf|e|m];
    [| subst w1; intros H; inversion H; subst; repeat split; auto using same_env_refl
     | destruct Ho].
  destruct Ho as (-> & (ed & Hed & Hdir & Hdata) & Hfr1).
  assert (Hst : streaming dst "" w w1).
  { split; [exact Henv1|]. split; [exact Hfr1|]. eauto. }
  assert (Hfail : forall c wk e,
    streaming dst c w wk ->
    (Err (ErrCompress e), (OS.Remove dst wk).2) = (r, w') ->
    same_env w w' /\
    (forall n, n <> src -> n <> dst -> entries w' !! n = entries w !! n) /\
    match r with
    | Ok _ =>
        fault = None /\ entries w' !! src = None /\
        exists es0 ed0, Some es = Some es0 /\ isDir es0 = false /\
                      entries w' !! dst = Some ed0 /\ isDir ed0 = false /\
                      data ed0 = gzip (data es0)
    | Err (ErrCompress _) => entries w' !! dst = None /\ entries w' !! src = Some es
    | Err _ => w' = w
    | Panic _ => False
    end).
  { intros c wk e Hk H. inversion H; subst; clear H.
    destruct (streaming_cleanup _ _ _ _ Hk) as (He & Hf & Hn).
    split; [exact He|]. split; [intros n _ Hn'; now apply Hf|].
    split; [exact Hn|]. rewrite Hf by congruence. exact Hs. }
  assert (Hsrc1 : entries w1 !! src = Some es).
  { rewrite Hfr1 by congruence. exact Hs. }
  unfold io_Copy, gz_Close, gzf_Close, f_Close, remove_src.
  destruct fault as [[partial|partial| | | ]|]; simpl.
  - apply (Hfail _ _ _ (streaming_write _ _ partial _ _ Hst)).
  - rewrite Hsrc1. destruct (isDir es) eqn:Hdes; simpl.
    + apply (Hfail _ _ _ Hst).
    + apply (Hfail _ _ _ (streaming_write _ _ partial _ _ Hst)).
  - rewrite Hsrc1. destruct (isDir es) eqn:Hdes; simpl.
    + apply (Hfail _ _ _ Hst).
    + apply (Hfail _ _ _ (streaming_write _ _ (gzip (data es)) _ _ Hst)).
  - rewrite Hsrc1. destruct (isDir es) eqn:Hdes; simpl.
    + apply (Hfail _ _ _ Hst).
    + apply (Hfail _ _ _ (streaming_write _ _ (gzip (data es)) _ _ Hst)).
  - rewrite Hsrc1. destruct (isDir es) eqn:Hdes; simpl.
    + apply (Hfail _ _ _ Hst).
    + apply (Hfail _ _ _ (streaming_write _ _ (gzip (data es)) _ _ Hst)).
  - rewrite Hsrc1. destruct (isDir es) eqn:Hdes; simpl.
    + apply (Hfail _ _ _ Hst).
    + pose proof (streaming_write _ _ (gzip (data es)) _ _ Hst) as Hst2.
      destruct (OS.Remove src _) as [rr w4] eqn:Hr.
      apply Remove_spec in Hr. destruct Hr as [He4 Hr].
      destruct Hst2 as (He2 & Hf2 & ed2 & Hed2 & Hdir2 & Hdata2).
      destruct rr as [u|e|m].
      * destruct Hr as (_ & Hnone & Hf4).
        intros H; inversion H; subst; clear H.
        split; [eapply same_env_trans; eauto|]. split.
        { intros n Hn1 Hn2. rewrite Hf4 by exact Hn1. now apply Hf2. }
        split; [reflexivity|]. split; [exact Hnone|].
        exists es, ed2. rewrite Hf4 by congruence. repeat split; auto.
      * destruct Hr as (-> & _).
        apply (Hfail (gzip (data es))). split; [exact He2|]. split; [exact Hf2|]. eauto.
      * destruct Hr.
Qed.
(** A fault at any of the five steps is reported as a compression failure
    as soon as the source can be read and the compressed file opened. *)
Lemma compressLogFile_fault (step : cstep) (src dst : string) (w : World) (es : entry) :
  entries w !! src = Some es ->
  w_chown_fails w dst = false ->
  (forall ed, entries w !! dst = Some ed -> isDir ed = false) ->
  exists e, fst (compressLogFile (Some step) src dst w) = Err (ErrCompress e).
Proof.
  intros Hs Hc Hd.
  unfold compressLogFile, OS.Open, OS.Stat, chown. rewrite Hs, Hc.
  assert (Ho : exists w1, OS.OpenFile_trunc dst (fi_Mode (info_of src es)) w = (Ok dst, w1)).
  { unfold OS.OpenFile_trunc. unfold entries in *.
    destruct (w_dir w) as [d|]; [|rewrite lookup_empty in Hs; discriminate].
    destruct (d !! dst) as [ed|] eqn:He; [rewrite (Hd ed eq_refl)|]; eauto. }
  destruct Ho as [w1 ->].
  unfold io_Copy, gz_Close, gzf_Close, f_Close, remove_src.
  destruct step; simpl; eauto;
    destruct (entries w1 !! src) as [e1|]; simpl; eauto;
    destruct (isDir e1); simpl; eauto.
Qed.

(** C6. Whatever fails in [compressLogFile], the uncompressed source is
    left as it was; when the failure comes after the compressed file has
    been opened (the error is then wrapped as "failed to compress log
    file"), which a fault at any of the five steps produces, the partial
    compressed file is deleted. The source is removed only by a call in
    which no step failed, and then the compressed file holds the whole gzip
    output of the source's bytes. *)
Theorem compressLogFile_failure (fault : option cstep) (src dst : string)
    (w w' : World) (r : result unit) :
  src <> dst ->
  compressLogFile fault src dst w = (r, w') ->
  (forall e, r = Err e -> entries w' !! src = entries w !! src) /\
  (forall e, r = Err (ErrCompress e) -> entries w' !! dst = None) /\
  (forall step es,
     fault = Some step ->
     entries w !! src = Some es ->
     w_chown_fails w dst = false ->
     (forall ed, entries w !! dst = Some ed -> isDir ed = false) ->
     exists e, r = Err (ErrCompress e)) /\
  (forall es,
     entries w !! src = Some es ->
     entries w' !! src = None ->
     r = Ok tt /\ fault = None /\
     exists ed, entries w' !! dst = Some ed /\ isDir ed = false /\
                data ed = gzip (data es)).
Proof.
  intros Hne Hrun.
  pose proof (compressLogFile_cases _ _ _ _ _ _ Hne Hrun) as (Henv & Hfr & Hcase).
  repeat split.
  - intros e ->. destruct e; try (now rewrite Hcase). tauto.
  - intros e ->. tauto.
  - intros step es -> Hs Hc Hd.
    destruct (compressLogFile_fault step src dst w es Hs Hc Hd) as [e He].
    rewrite Hrun in He. simpl in He. eauto.
  - destruct r as [[]|e|m]; [reflexivity | | destruct Hcase].
    destruct e; try (subst w'; congruence). destruct Hcase as [_ Hsame]. congruence.
  - destruct r as [[]|e|m]; [tauto | | destruct Hcase].
    destruct e; try (subst w'; congruence). destruct Hcase as [_ Hsame]. congruence.
  - destruct r as [[]|e|m]; [ | | destruct Hcase].
    + destruct Hcase as (_ & _ & es' & ed & Hs' & _ & Hd & Hdir & Hdata).
      exists ed. repeat split; auto. congruence.
    + destruct e; try (subst w'; congruence). destruct Hcase as [_ Hsame]. congruence.
Qed.

End CompressProperties.

(** ** The directory scan *)

Section ScanProperties.
Context `{P : Platform}.

Lemma string_app_cons (x : ascii) (a b : string) :
  String x a +:+ b = String x (a +:+ b).
Proof. reflexivity. Qed.

Lemma string_app_nil_l (a : string) : "" +:+ a = a.
Proof. reflexivity. Qed.

Lemma string_app_assoc (a b c : string) : (a +:+ b) +:+ c = a +:+ (b +:+ c).
Proof.
  induction a as [|x a IH]; [reflexivity|].
  now rewrite !string_app_cons, IH.
Qed.

Lemma string_app_nil_r (a : string) : a +:+ "" = a.
Proof.
  induction a as [|x a IH]; [reflexivity|].
  now rewrite string_app_cons, IH.
Qed.

Lemma joinLines_app (xs ys : list string) :
  joinLines (xs ++ ys) = joinLines xs +:+ joinLines ys.
Proof.
  induction xs as [|x xs IH]; simpl; [reflexivity|].
  now rewrite IH, !string_app_assoc.
Qed.

Lemma append_solution2_nil (w : World) : append_solution2 "" w = w.
Proof.
  destruct w. unfold append_solution2.
  cbn [w_solution2 w_dir w_now w_solution w_solution3 w_fault w_chown_fails].
  now rewrite string_app_nil_r.
Qed.

Lemma append_solution2_twice (s t : string) (w : World) :
  append_solution2 t (append_solution2 s w) = append_solution2 (s +:+ t) w.
Proof. unfold append_solution2; cbn [w_solution2 w_dir w_now w_solution w_solution3 w_fault w_chown_fails]. now rewrite string_app_assoc. Qed.

Lemma classifyEntry_entries (l : Logger) (prefix ext name : string) (w w' : World) :
  entries w' = entries w ->
  classifyEntry l prefix ext name w' = classifyEntry l prefix ext name w.
Proof.
  intros He. unfold classifyEntry, getFileTimeInfo, OS.Stat. now rewrite He.
Qed.

Lemma scanned_entries (l : Logger) (prefix ext : string) (w w' : World)
    (files : list (string * entry)) :
  entries w' = entries w ->
  scanned l prefix ext w' files = scanned l prefix ext w files /\
  unscanned l prefix ext w' files = unscanned l prefix ext w files.
Proof.
  intros He. induction files as [|[name f] rest [IH1 IH2]]; simpl; [easy|].
  rewrite (classifyEntry_entries _ _ _ _ _ _ He), IH1, IH2. easy.
Qed.

(** What the loop of the scan returns when it runs to its end. *)
Lemma scanEntries_spec (l : Logger) (prefix ext : string)
    (files : list (string * entry)) :
  forall (acc out : list logInfo) (w w' : World),
    scanEntries l prefix ext files acc w = (Ok out, w') ->
    out = acc ++ scanned l prefix ext w files /\
    w' = append_solution2 (joinLines (unscanned l prefix ext w files)) w.
Proof.
  induction files as [|[name f] rest IH]; intros acc out w w' H; simpl in *.
  - inversion H; subst. now rewrite app_nil_r, append_solution2_nil.
  - destruct (isDir f); [now apply IH|].
    destruct (classifyEntry l prefix ext name w) as [[t|]|e|m] eqn:Hc;
      try discriminate.
    + apply IH in H. destruct H as [-> ->]. now rewrite <- app_assoc.
    + apply IH in H. destruct H as [-> ->].
      destruct (scanned_entries l prefix ext w
                  (append_solution2 (name +:+ newline) w) rest eq_refl) as [-> ->].
      now rewrite append_solution2_twice.
Qed.

(** Insertion keeps the elements. *)
Lemma insertBack_Permutation (x : logInfo) (acc : list logInfo) :
  Permutation (insertBack x acc) (x :: acc).
Proof.
  induction acc as [|y r IH]; simpl; [reflexivity|].
  destruct (Less x y); [|reflexivity].
  rewrite IH. apply perm_swap.
Qed.

Lemma sortByBirthTime_Permutation (fs : list logInfo) :
  Permutation (sortByBirthTime fs) fs.
Proof.
  unfold sortByBirthTime. rewrite <- Permutation_rev.
  assert (H : forall acc, Permutation (fold_left (fun acc x => insertBack x acc) fs acc)
                                      (fs ++ acc)).
  { induction fs as [|x fs IH]; intros acc; simpl; [reflexivity|].
    rewrite IH, insertBack_Permutation. symmetry. apply Permutation_middle. }
  rewrite H. now rewrite app_nil_r.
Qed.

(** [oldLogFiles], when it returns a list: the classified backups of the
    directory, newest first, with the names of the other files appended to
    /tmp/solution2.log. *)
Lemma oldLogFiles_spec (l : Logger) (w w1 : World) (files : list logInfo) :
  oldLogFiles l w = (Ok files, w1) ->
  files = sortByBirthTime (classified l w) /\
  w1 = append_solution2 (joinLines (unclassifiedNames l w)) w.
Proof.
  unfold oldLogFiles, classified, unclassifiedNames, listing.
  destruct (OS.ReadDir w) as [ents|e|m]; try discriminate.
  destruct (prefixAndExt l) as [prefix ext]. simpl.
  destruct (scanEntries l prefix ext ents [] w) as [[out|e|m] w'] eqn:Hs;
    try discriminate.
  intros H; inversion H; subst.
  apply scanEntries_spec in Hs. destruct Hs as [-> ->]. easy.
Qed.

Lemma elem_of_listing (w : World) (name : string) (f : entry) :
  In (name, f) (listing w) <-> entries w !! name = Some f.
Proof.
  unfold listing, OS.ReadDir, entries.
  destruct (w_dir w) as [d|].
  - rewrite <- list_elem_of_In, merge_sort_Permutation. apply elem_of_map_to_list.
  - simpl. rewrite lookup_empty. split; [tauto | discriminate].
Qed.

Lemma scanned_In (l : Logger) (prefix ext : string) (w : World)
    (files : list (string * entry)) (f : logInfo) :
  In f (scanned l prefix ext w files) ->
  exists e, In (Name f, e) files /\ isDir e = false /\ info f = info_of (Name f) e /\
            classifyEntry l prefix ext (Name f) w = Ok (Some (timestamp f)).
Proof.
  induction files as [|[name e] rest IH]; simpl; [tauto|].
  destruct (isDir e) eqn:Hd.
  - intros H. destruct (IH H) as (e' & ? & ?). eauto.
  - destruct (classifyEntry l prefix ext name w) as [[t|]|?|?] eqn:Hc;
      try (intros H; destruct (IH H) as (e' & ? & ?); eauto).
    intros [<- | H]; [|destruct (IH H) as (e' & ? & ?); eauto].
    exists e. unfold Name. simpl. auto.
Qed.

(** A classified backup is a regular file of the directory. *)
Lemma classified_In (l : Logger) (w : World) (f : logInfo) :
  In f (classified l w) ->
  exists e, entries w !! Name f = Some e /\ isDir e = false /\
            info f = info_of (Name f) e /\
            classifyEntry l (fst (prefixAndExt l)) (snd (prefixAndExt l)) (Name f) w
              = Ok (Some (timestamp f)).
Proof.
  intros H. apply scanned_In in H. destruct H as (e & Hin & Hd & Hi & Hc).
  exists e. rewrite <- elem_of_listing. auto.
Qed.

End ScanProperties.

(** ** The retention pass *)

Section MillProperties.
Context `{P : Platform}.

Lemma append_solution3_nil (w : World) : append_solution3 "" w = w.
Proof.
  destruct w. unfold append_solution3.
  cbn [w_solution2 w_dir w_now w_solution w_solution3 w_fault w_chown_fails].
  now rewrite string_app_nil_r.
Qed.

Lemma append_solution3_twice (s t : string) (w : World) :
  append_solution3 t (append_solution3 s w) = append_solution3 (s +:+ t) w.
Proof.
  unfold append_solution3.
  cbn [w_solution2 w_dir w_now w_solution w_solution3 w_fault w_chown_fails].
  now rewrite string_app_assoc.
Qed.

Lemma append_solution_nil (w : World) : append_solution "" w = w.
Proof.
  destruct w. unfold append_solution.
  cbn [w_solution2 w_dir w_now w_solution w_solution3 w_fault w_chown_fails].
  now rewrite string_app_nil_r.
Qed.

Lemma append_solution_twice (s t : string) (w : World) :
  append_solution t (append_solution s w) = append_solution (s +:+ t) w.
Proof.
  unfold append_solution.
  cbn [w_solution2 w_dir w_now w_solution w_solution3 w_fault w_chown_fails].
  now rewrite string_app_assoc.
Qed.

Lemma logSolution3_spec (files : list logInfo) (w : World) :
  logSolution3 files w = append_solution3 (joinLines (map Name files)) w.
Proof.
  revert w. induction files as [|f rest IH]; intros w; simpl.
  - now rewrite append_solution3_nil.
  - now rewrite IH, append_solution3_twice.
Qed.

Lemma countLoop_spec (maxBackups : Z) (files : list logInfo) :
  forall (preserved : gset string) (remaining0 remove0 remaining remove : list logInfo)
         (w w' : World),
    countLoop maxBackups files preserved remaining0 remove0 w = (remaining, remove, w') ->
    w' = append_solution (joinLines (map Name files)) w /\
    exists kept dropped,
      remaining = remaining0 ++ kept /\ remove = remove0 ++ dropped /\
      Permutation (kept ++ dropped) files.
Proof.
  induction files as [|f rest IH]; intros preserved rem0 rmv0 rem rmv w w' H; simpl in *.
  - inversion H; subst. rewrite append_solution_nil. split; [reflexivity|].
    exists [], []. now rewrite !app_nil_r.
  - destruct (Z.of_nat _ >? maxBackups).
    + apply IH in H. destruct H as (-> & kept & dropped & -> & -> & Hp).
      rewrite append_solution_twice. split; [reflexivity|].
      exists kept, (f :: dropped). rewrite <- app_assoc. repeat split.
      rewrite <- Permutation_middle. now constructor.
    + apply IH in H. destruct H as (-> & kept & dropped & -> & -> & Hp).
      rewrite append_solution_twice. split; [reflexivity|].
      exists (f :: kept), dropped. rewrite <- app_assoc. repeat split.
      simpl. now constructor.
Qed.

Lemma ageLoop_spec (cutoff : Z) (files : list logInfo) :
  forall remaining0 remove0 remaining remove,
    ageLoop cutoff files remaining0 remove0 = (remaining, remove) ->
    exists kept dropped,
      remaining = remaining0 ++ kept /\ remove = remove0 ++ dropped /\
      Permutation (kept ++ dropped) files /\
      (forall f, In f kept -> ~ timestamp f < cutoff) /\
      (forall f, In f dropped -> timestamp f < cutoff).
Proof.
  induction files as [|f rest IH]; intros rem0 rmv0 rem rmv H; simpl in *.
  - inversion H; subst. exists [], []. rewrite !app_nil_r.
    repeat split; simpl; try tauto; reflexivity.
  - destruct (Z.ltb_spec (timestamp f) cutoff) as [Hlt|Hge].
    + apply IH in H. destruct H as (kept & dropped & -> & -> & Hp & Hk & Hd).
      exists kept, (f :: dropped). rewrite <- app_assoc. repeat split; auto.
      * rewrite <- Permutation_middle. now constructor.
      * intros g [<-|Hg]; auto.
    + apply IH in H. destruct H as (kept & dropped & -> & -> & Hp & Hk & Hd).
      exists (f :: kept), dropped. rewrite <- app_assoc. repeat split; auto.
      * simpl. now constructor.
      * intros g [<-|Hg]; [lia | auto].
Qed.

Lemma compressSelect_In (files : list logInfo) :
  forall acc g,
    In g (compressSelect files acc) ->
    In g acc \/
    (In g files /\ GoStrings.HasSuffix (Name g) compressSuffix = false).
Proof.
  induction files as [|f rest IH]; intros acc g H; simpl in *; [tauto|].
  destruct (GoStrings.HasSuffix (Name f) compressSuffix) eqn:Hs; simpl in H.
  - apply IH in H. tauto.
  - apply IH in H. rewrite in_app_iff in H. simpl in H.
    destruct H as [[H|[<-|[]]]|H]; auto; tauto.
Qed.

(** The removals only delete, and delete every regular file they name. *)
Lemma removeLoop_spec (remove : list logInfo) :
  forall (err err' : option error) (w w' : World),
    removeLoop remove err w = (err', w') ->
    same_env w w' /\
    (forall n, entries w' !! n = None \/ entries w' !! n = entries w !! n) /\
    (forall n, (forall f, In f remove -> Name f <> n) -> entries w' !! n = entries w !! n) /\
    (forall f, In f remove ->
       entries w' !! Name f = None \/
       exists e, entries w' !! Name f = Some e /\ isDir e = true).
Proof.
  induction remove as [|f rest IH]; intros err err' w w' H; simpl in *.
  - inversion H; subst. repeat split; auto using same_env_refl. tauto.
  - destruct (OS.Remove (Name f) w) as [r w1] eqn:Hr.
    apply Remove_spec in Hr. destruct Hr as [He Hr].
    destruct r as [u|e|m]; [| |destruct Hr].
    + destruct Hr as (_ & Hnone & Hfr).
      apply IH in H. destruct H as (He' & Hmono & Hframe & Hgone).
      split; [eapply same_env_trans; eauto|]. split; [|split].
      * intros n. destruct (Hmono n) as [Hn|Hn]; [now left|].
        destruct (String.string_dec n (Name f)) as [->|Hne].
        -- left. congruence.
        -- right. rewrite Hn. now apply Hfr.
      * intros n Hn. rewrite Hframe by (intros g Hg; apply Hn; now right).
        apply Hfr. intros ->. now apply (Hn f); [left|].
      * intros g [<-|Hg]; [|now apply Hgone].
        left. destruct (Hmono (Name f)) as [Hn|Hn]; congruence.
    + destruct Hr as (-> & Hwas).
      apply IH in H. destruct H as (He' & Hmono & Hframe & Hgone).
      split; [exact He'|]. split; [exact Hmono|]. split.
      * intros n Hn. apply Hframe. intros g Hg. apply Hn. now right.
      * intros g [<-|Hg]; [|now apply Hgone].
        destruct (Hmono (Name f)) as [Hn|Hn]; [now left|].
        destruct Hwas as [Hw|(e' & Hw & Hd)]; [left; congruence|].
        right. exists e'. split; [congruence | exact Hd].
Qed.

Lemma compressSuffix_neq (s : string) : s <> s +:+ compressSuffix.
Proof.
  intros H. apply (f_equal String.length) in H.
  assert (Hl : forall a b, String.length (a +:+ b) = (String.length a + String.length b)%nat).
  { induction a as [|x a IH]; intros b; [reflexivity|].
    rewrite string_app_cons. simpl. now rewrite IH. }
  rewrite Hl in H. simpl in H. lia.
Qed.

(** The compressions touch only their sources and the names of their
    outputs; a missing file that is no output stays missing. *)
Lemma compressLoop_spec (compress : list logInfo) :
  forall (err err' : option error) (w w' : World),
    compressLoop compress err w = (err', w') ->
    same_env w w' /\
    (forall n, (forall g, In g compress -> n <> Name g /\ n <> Name g +:+ compressSuffix) ->
               entries w' !! n = entries w !! n) /\
    (forall n, entries w !! n = None ->
               (forall g, In g compress -> n <> Name g +:+ compressSuffix) ->
               entries w' !! n = None).
Proof.
  induction compress as [|f rest IH]; intros err err' w w' H; simpl in *.
  - inversion H; subst. repeat split; auto using same_env_refl.
  - destruct (compressLogFile _ _ _ w) as [r w1] eqn:Hc.
    pose proof (compressLogFile_cases _ _ _ _ _ _ (compressSuffix_neq (Name f)) Hc)
      as (He & Hfr & Hcase).
    assert (Hrest : exists e0, compressLoop rest e0 w1 = (err', w')).
    { destruct r; eauto. }
    destruct Hrest as [e0 Hrest]. apply IH in Hrest.
    destruct Hrest as (He' & Hframe & Habsent).
    split; [eapply same_env_trans; eauto|]. split.
    + intros n Hn. rewrite Hframe by (intros g Hg; apply Hn; now right).
      destruct (Hn f (or_introl eq_refl)). now apply Hfr.
    + intros n Hnone Hn. apply Habsent; [|intros g Hg; apply Hn; now right].
      destruct (String.string_dec n (Name f)) as [->|Hne].
      * destruct r as [[]|e|m]; [| |destruct Hcase].
        -- tauto.
        -- destruct e; try (now subst w1). destruct Hcase as [_ ->]. exact Hnone.
      * rewrite Hfr; auto.
Qed.


(** The pass, phase by phase, once the scan has returned its list. *)
Lemma millRunOnce_phases (l : Logger) (w w1 : World) (files : list logInfo) :
  (MaxBackups l =? 0) && (MaxAge l =? 0) && negb (Compress l) = false ->
  oldLogFiles l w = (Ok files, w1) ->
  exists survivors remove compress err4 w4 err5 w5,
    let w3 :=
      append_solution
        (if (MaxBackups l >? 0) && (MaxBackups l <? Z.of_nat (length files))
         then joinLines (map Name files) else "")
        (append_solution3 (joinLines (map Name files)) w1) in
    Permutation (survivors ++ remove) files /\
    (MaxAge l > 0 ->
     forall f, In f survivors ->
       ~ timestamp f < w_now w + mul64 (-1) (mul64 (24 * Hour) (MaxAge l))) /\
    (forall g, In g compress ->
       In g survivors /\ Compress l = true /\
       GoStrings.HasSuffix (Name g) compressSuffix = false) /\
    removeLoop remove None w3 = (err4, w4) /\
    compressLoop compress err4 w4 = (err5, w5) /\
    millRunOnce l w = (match err5 with None => Ok tt | Some e => Err e end, w5).
Proof.
  intros Hsc Hscan. unfold millRunOnce. rewrite Hsc, Hscan.
  rewrite logSolution3_spec.
  assert (Hnow : w_now w1 = w_now w).
  { apply oldLogFiles_spec in Hscan. destruct Hscan as [_ ->]. reflexivity. }
  set (w2 := append_solution3 (joinLines (map Name files)) w1).
  assert (Hcount : exists kept dropped w3,
    (if (MaxBackups l >? 0) && (MaxBackups l <? Z.of_nat (length files))
     then countLoop (MaxBackups l) files ∅ [] [] w2
     else (files, [], w2)) = (kept, dropped, w3) /\
    Permutation (kept ++ dropped) files /\
    w3 = append_solution
           (if (MaxBackups l >? 0) && (MaxBackups l <? Z.of_nat (length files))
            then joinLines (map Name files) else "") w2).
  { destruct ((MaxBackups l >? 0) && (MaxBackups l <? Z.of_nat (length files))).
    - destruct (countLoop (MaxBackups l) files ∅ [] [] w2) as [[kept dropped] w3] eqn:Hc.
      apply countLoop_spec in Hc. destruct Hc as (-> & k & d & -> & -> & Hp).
      exists k, d. eexists. repeat split; auto.
    - exists files, [], w2. rewrite app_nil_r, append_solution_nil. repeat split; auto. }
  destruct Hcount as (kept & dropped & w3 & -> & Hp1 & Hw3).
  assert (Hnow3 : w_now w3 = w_now w).
  { rewrite Hw3. unfold w2. simpl. exact Hnow. }
  assert (Hage : exists survivors remove,
    (if MaxAge l >? 0
     then ageLoop (w_now w3 + mul64 (-1) (mul64 (24 * Hour) (MaxAge l))) kept [] dropped
     else (kept, dropped)) = (survivors, remove) /\
    Permutation (survivors ++ remove) files /\
    (MaxAge l > 0 ->
     forall f, In f survivors ->
       ~ timestamp f < w_now w + mul64 (-1) (mul64 (24 * Hour) (MaxAge l)))).
  { destruct (Z.gtb_spec (MaxAge l) 0) as [Hpos|Hnp].
    - destruct (ageLoop _ kept [] dropped) as [survivors remove] eqn:Ha.
      apply ageLoop_spec in Ha.
      destruct Ha as (k & d & -> & -> & Hp & Hk & Hd).
      exists k, (dropped ++ d). repeat split; auto.
      + rewrite <- Hp1, <- Hp. simpl.
        rewrite (Permutation_app_comm dropped d), !app_assoc. reflexivity.
      + intros _ f Hf. rewrite <- Hnow3. now apply Hk.
    - exists kept, dropped. repeat split; auto; lia. }
  destruct Hage as (survivors & remove & -> & Hp2 & Hold).
  cbn zeta.
  destruct (removeLoop remove None w3) as [err4 w4] eqn:Hr.
  destruct (compressLoop (if Compress l then compressSelect survivors [] else []) err4 w4)
    as [err5 w5] eqn:Hz.
  exists survivors, remove, (if Compress l then compressSelect survivors [] else []),
    err4, w4, err5, w5.
  cbn zeta. rewrite <- Hw3. repeat split; auto.
  - destruct (Compress l); [|destruct H].
    apply compressSelect_In in H. simpl in H. tauto.
  - destruct (Compress l); [reflexivity | destruct H].
  - destruct (Compress l); [|destruct H].
    apply compressSelect_In in H. simpl in H. tauto.
Qed.

End MillProperties.

(** ** Names: extensions, orders and decimal numerals *)

Section NameFacts.
Import GoStrings.
Local Arguments Ascii.eqb : simpl never.

Lemma length_app (a b : string) :
  String.length (a +:+ b) = (String.length a + String.length b)%nat.
Proof.
  induction a as [|x a IH]; [reflexivity|].
  rewrite string_app_cons. simpl. now rewrite IH.
Qed.

Lemma prefix_app (p s : string) : String.prefix p (p +:+ s) = true.
Proof.
  induction p as [|x p IH]; [now destruct s|].
  rewrite string_app_cons. simpl. destruct (ascii_dec x x); [exact IH | congruence].
Qed.

Lemma substring_0_length (s : string) : substring 0 (String.length s) s = s.
Proof. induction s as [|x s IH]; simpl; [reflexivity | now rewrite IH]. Qed.

(** A string is its first [n] bytes followed by the rest. *)
Lemma substring_split (s : string) :
  forall n, (n <= String.length s)%nat ->
    s = substring 0 n s +:+ substring n (String.length s - n) s.
Proof.
  induction s as [|x s IH]; intros n Hn; simpl in *.
  - destruct n; [reflexivity | lia].
  - destruct n as [|n]; simpl.
    + now rewrite substring_0_length.
    + rewrite string_app_cons. f_equal. apply IH. lia.
Qed.

Lemma HasSuffix_app (s suffix : string) :
  HasSuffix s suffix = true -> exists p, s = p +:+ suffix.
Proof.
  unfold HasSuffix. intros H. apply andb_true_iff in H. destruct H as [Hl He].
  apply Nat.leb_le in Hl. apply String.eqb_eq in He.
  exists (substring 0 (String.length s - String.length suffix) s).
  rewrite (substring_split s (String.length s - String.length suffix)) at 1 by lia.
  f_equal.
  replace (String.length s - (String.length s - String.length suffix))%nat
    with (String.length suffix) by lia.
  exact He.
Qed.

Lemma Ext_no_dot (s : string) : contains_byte "." s = false -> Filepath.Ext s = "".
Proof.
  induction s as [|x s IH]; simpl; [reflexivity|].
  intros H. apply orb_false_iff in H. destruct H as [Hx Hs].
  rewrite (IH Hs). rewrite Ascii.eqb_sym in Hx. now rewrite Hx.
Qed.

(** The extension of a name that ends in a dot and dot-free bytes. *)
Lemma Ext_app_dot (p s : string) :
  contains_byte "." s = false ->
  contains_byte Filepath.Separator s = false ->
  Filepath.Ext (p +:+ String "." s) = String "." s.
Proof.
  intros Hd Hs. induction p as [|x p IH].
  - rewrite string_app_nil_l. simpl. now rewrite (Ext_no_dot s Hd), Hs.
  - rewrite string_app_cons. simpl. now rewrite IH.
Qed.

Lemma TrimPrefix_dot (s : string) : TrimPrefix (String "." s) "." = s.
Proof.
  unfold TrimPrefix, HasPrefix. simpl.
  destruct s; simpl; [reflexivity|].
  now rewrite substring_0_length.
Qed.

(** A name that ends in the compress suffix has no order. *)
Lemma Atoi_Ext_gz (name : string) :
  HasSuffix name compressSuffix = true ->
  Strconv.Atoi (TrimPrefix (Filepath.Ext name) ".") = None.
Proof.
  intros H. apply HasSuffix_app in H. destruct H as [p ->].
  unfold compressSuffix. rewrite Ext_app_dot by reflexivity.
  rewrite TrimPrefix_dot. reflexivity.
Qed.

Lemma string_of_uint_digits (d : Decimal.uint) :
  all_digits (NilEmpty.string_of_uint d) = true.
Proof. induction d; simpl; auto. Qed.

Lemma all_digits_no_byte (c : ascii) (s : string) :
  all_digits (String c "") = false -> all_digits s = true -> contains_byte c s = false.
Proof.
  intros Hc. induction s as [|x s IH]; simpl; [reflexivity|].
  intros H. apply andb_true_iff in H. destruct H as [Hx Hs].
  rewrite (IH Hs), orb_false_r.
  destruct (Ascii.eqb_spec c x) as [->|]; [|reflexivity].
  simpl in Hc. rewrite andb_true_r in Hc. congruence.
Qed.

(** Printing a positive int and reading it back. *)
Lemma Atoi_Itoa_pos (z : Z) :
  0 < z <= int64_max ->
  Strconv.Atoi (Strconv.Itoa z) = Some z /\
  contains_byte "." (Strconv.Itoa z) = false /\
  contains_byte Filepath.Separator (Strconv.Itoa z) = false.
Proof.
  intros Hz. destruct z as [|p|p]; try lia.
  unfold Strconv.Itoa. simpl Z.to_int. unfold NilZero.string_of_int.
  pose proof (string_of_uint_digits (Pos.to_uint p)) as Hdig.
  pose proof (NilEmpty.usu (Pos.to_uint p)) as Husu.
  pose proof (DecimalPos.Unsigned.of_to p) as Hof.
  assert (Hnz : NilZero.string_of_uint (Pos.to_uint p)
                = NilEmpty.string_of_uint (Pos.to_uint p)).
  { destruct (Pos.to_uint p) eqn:Hu; try reflexivity.
    simpl in Hof. discriminate. }
  rewrite Hnz.
  split; [|split; apply all_digits_no_byte; auto].
  destruct (NilEmpty.string_of_uint (Pos.to_uint p)) as [|c r] eqn:Hs.
  - destruct (Pos.to_uint p); simpl in Hs; discriminate.
  - unfold Strconv.Atoi.
    assert (Hc : Ascii.eqb c "-" = false /\ Ascii.eqb c "+" = false).
    { simpl in Hdig. apply andb_true_iff in Hdig. destruct Hdig as [Hd _].
      repeat (apply orb_true_iff in Hd; destruct Hd as [Hd|Hd]);
        apply Ascii.eqb_eq in Hd; subst c; split; reflexivity. }
    destruct Hc as [-> ->].
    unfold Strconv.parse_digits. rewrite Husu.
    change (N.of_uint (Pos.to_uint p)) with (Pos.of_uint (Pos.to_uint p)).
    rewrite Hof. simpl Z.of_N.
    destruct (Z.leb_spec int64_min (Z.pos p)); [|unfold int64_min in *; lia].
    destruct (Z.leb_spec (Z.pos p) int64_max); [reflexivity | lia].
Qed.

Lemma substring_n_0 (s : string) (n : nat) : substring n 0 s = "".
Proof. revert n. induction s as [|x s IH]; intros [|n]; simpl; auto. Qed.

Lemma HasSuffix_nil (s : string) : HasSuffix s "" = true.
Proof. unfold HasSuffix. simpl. now rewrite substring_n_0. Qed.

Lemma substring_app_r (p s : string) (n : nat) :
  substring (String.length p) n (p +:+ s) = substring 0 n s.
Proof.
  induction p as [|x p IH]; [reflexivity|].
  rewrite string_app_cons. simpl. exact IH.
Qed.

Lemma substring_app_l (g x : string) :
  forall i n, (i + n <= String.length g)%nat ->
    substring i n (g +:+ x) = substring i n g.
Proof.
  induction g as [|c g IH]; intros i n H; simpl in H.
  - assert (i = 0%nat) by lia. assert (n = 0%nat) by lia. subst.
    rewrite string_app_nil_l. simpl. now rewrite substring_n_0.
  - rewrite string_app_cons. destruct i as [|i]; simpl.
    + destruct n as [|n]; [reflexivity|]. f_equal. apply IH. simpl in H. lia.
    + apply IH. lia.
Qed.

Lemma prefix_app_r (p g x : string) :
  String.prefix p g = true -> String.prefix p (g +:+ x) = true.
Proof.
  revert g. induction p as [|c p IH]; intros g H.
  - now destruct (g +:+ x).
  - destruct g as [|d g]; [discriminate|].
    rewrite string_app_cons. simpl in *.
    destruct (ascii_dec c d); [now apply IH | discriminate].
Qed.

Lemma HasSuffix_intro (p s : string) : HasSuffix (p +:+ s) s = true.
Proof.
  unfold HasSuffix. rewrite length_app.
  replace (String.length p + String.length s - String.length s)%nat
    with (String.length p) by lia.
  rewrite substring_app_r, substring_0_length, String.eqb_refl, andb_true_r.
  apply Nat.leb_le. lia.
Qed.


Lemma Ext_nil_no_dot (s : string) :
  Filepath.Ext s = "" -> contains_byte Filepath.Separator s = false ->
  contains_byte "." s = false.
Proof.
  induction s as [|x s IH]; [reflexivity|].
  simpl. intros He Hs. apply orb_false_iff in Hs. destruct Hs as [Hx Hs].
  destruct (Filepath.Ext s) eqn:Hes; [|discriminate].
  rewrite (IH eq_refl Hs), orb_false_r. rewrite Hs in He. simpl in He.
  rewrite andb_true_r in He.
  destruct (Ascii.eqb_spec x ".") as [->|Hne]; [discriminate|].
  destruct (Ascii.eqb_spec "." x) as [<-|]; [congruence | reflexivity].
Qed.

(** An extension is empty, or a dot followed by bytes that are neither dots
    nor separators. *)
Lemma Ext_shape (s : string) :
  Filepath.Ext s = "" \/
  exists r, Filepath.Ext s = String "." r /\ contains_byte "." r = false /\
            contains_byte Filepath.Separator r = false.
Proof.
  induction s as [|x s IH]; [now left|]. simpl.
  destruct (Filepath.Ext s) eqn:Hes.
  - destruct (Ascii.eqb_spec x ".") as [->|Hne]; simpl; [|now left].
    destruct (contains_byte Filepath.Separator s) eqn:Hs; simpl; [now left|].
    right. exists s. split; [reflexivity|]. split; [|exact Hs].
    now apply Ext_nil_no_dot.
  - destruct IH as [IH|IH]; [discriminate | right; exact IH].
Qed.


End NameFacts.

(** ** Backup names in ordinal mode *)

Section BackupNameProperties.
Context `{P : Platform}.
Import GoStrings.

Lemma prefixAndExt_ordinal (l : Logger) :
  FilenameTimeFormat l = "" -> prefixAndExt l = (logEntry l, "").
Proof. unfold prefixAndExt, logEntry. now intros ->. Qed.

(** With the empty extension of ordinal mode, [orderFromName] reads the
    order after the last dot and cannot panic. *)
Lemma orderFromName_ordinal (l : Logger) (name prefix : string) :
  orderFromName l name prefix "" =
    if negb (HasPrefix name prefix) then Err ErrMismatchedPrefix
    else match Strconv.Atoi (TrimPrefix (Filepath.Ext name) ".") with
         | Some order => Ok order
         | None => Err ErrMismatchedOrder
         end.
Proof. unfold orderFromName. now rewrite HasSuffix_nil. Qed.

Lemma classifyEntry_ordinal (l : Logger) (prefix name : string) (w : World) (e : entry) :
  FilenameTimeFormat l = "" ->
  entries w !! name = Some e ->
  classifyEntry l prefix "" name w =
    match orderFromName l name prefix "" with
    | Ok _ => Ok (Some (modTime e))
    | _ => Ok None
    end.
Proof.
  intros Hf He. unfold classifyEntry, getFileTimeInfo, OS.Stat. rewrite Hf, He. simpl.
  rewrite orderFromName_ordinal.
  destruct (negb (HasPrefix name prefix)); [reflexivity|].
  now destruct (Strconv.Atoi _).
Qed.

(** In ordinal mode the scan of the entries of the directory returns. *)
Lemma scanEntries_ordinal_total (l : Logger) (prefix : string)
    (files : list (string * entry)) :
  FilenameTimeFormat l = "" ->
  forall acc w,
    (forall name e, In (name, e) files -> entries w !! name = Some e) ->
    exists out w', scanEntries l prefix "" files acc w = (Ok out, w').
Proof.
  intros Hf. induction files as [|[name e] rest IH]; intros acc w Hin; simpl.
  - eauto.
  - destruct (isDir e); [apply IH; intros; apply Hin; now right|].
    rewrite (classifyEntry_ordinal l prefix name w e Hf) by (apply Hin; now left).
    destruct (orderFromName l name prefix ""); apply IH; intros; apply Hin; now right.
Qed.

Lemma oldLogFiles_ordinal_total (l : Logger) (w : World) (d : gmap string entry) :
  FilenameTimeFormat l = "" -> w_dir w = Some d ->
  exists files w', oldLogFiles l w = (Ok files, w').
Proof.
  intros Hf Hd. unfold oldLogFiles.
  pose proof (elem_of_listing w) as Hl. unfold listing in Hl.
  destruct (OS.ReadDir w) as [ents|e|m] eqn:Hr;
    try (unfold OS.ReadDir in Hr; rewrite Hd in Hr; discriminate).
  rewrite (prefixAndExt_ordinal l Hf).
  destruct (scanEntries_ordinal_total l (logEntry l) ents Hf [] w) as (out & w' & ->).
  - intros name e Hin. now apply Hl.
  - eauto.
Qed.

(** The loop of [backupName]: the result bounds the start value and every
    order of a name without the compress suffix, and is one of them. *)
Lemma maxOrderLoop_spec (l : Logger) (prefix : string) (oldFiles : list logInfo) :
  forall m0,
    exists N,
      maxOrderLoop l prefix "" oldFiles m0 = Ok N /\ m0 <= N /\
      (forall f k, In f oldFiles -> HasSuffix (Name f) compressSuffix = false ->
                   orderFromName l (Name f) prefix "" = Ok k -> k <= N) /\
      (N = m0 \/
       exists f, In f oldFiles /\ HasSuffix (Name f) compressSuffix = false /\
                 orderFromName l (Name f) prefix "" = Ok N).
Proof.
  induction oldFiles as [|f rest IH]; intros m0; simpl.
  - exists m0. repeat split; [lia | tauto | now left].
  - destruct (HasSuffix (Name f) compressSuffix) eqn:Hgz; simpl.
    + destruct (IH m0) as (N & -> & Hle & Hub & Hwit). exists N.
      repeat split; auto.
      * intros g k [<-|Hg] Hs Ho; [congruence | eauto].
      * destruct Hwit as [->|(g & Hg & Hs & Ho)]; [now left | right; eauto].
    + rewrite orderFromName_ordinal.
      destruct (negb (HasPrefix (Name f) prefix)) eqn:Hp.
      * destruct (IH m0) as (N & -> & Hle & Hub & Hwit). exists N.
        repeat split; auto.
        -- intros g k [<-|Hg] Hs Ho; [|eauto].
           rewrite orderFromName_ordinal, Hp in Ho. discriminate.
        -- destruct Hwit as [->|(g & Hg & Hs & Ho)]; [now left | right; eauto].
      * destruct (Strconv.Atoi _) as [order|] eqn:Ha.
        -- destruct (Z.ltb_spec m0 order) as [Hlt|Hge].
           ++ destruct (IH order) as (N & -> & Hle & Hub & Hwit). exists N.
              repeat split; auto; [lia | |].
              ** intros g k [<-|Hg] Hs Ho; [|eauto].
                 rewrite orderFromName_ordinal, Hp, Ha in Ho. inversion Ho. lia.
              ** right. destruct Hwit as [->|(g & Hg & Hs & Ho)]; [|eauto].
                 exists f. rewrite orderFromName_ordinal, Hp, Ha. auto.
           ++ destruct (IH m0) as (N & -> & Hle & Hub & Hwit). exists N.
              repeat split; auto.
              ** intros g k [<-|Hg] Hs Ho; [|eauto].
                 rewrite orderFromName_ordinal, Hp, Ha in Ho. inversion Ho. lia.
              ** destruct Hwit as [->|(g & Hg & Hs & Ho)]; [now left | right; eauto].
        -- destruct (IH m0) as (N & -> & Hle & Hub & Hwit). exists N.
           repeat split; auto.
           ++ intros g k [<-|Hg] Hs Ho; [|eauto].
              rewrite orderFromName_ordinal, Hp, Ha in Ho. discriminate.
           ++ destruct Hwit as [->|(g & Hg & Hs & Ho)]; [now left | right; eauto].
Qed.

(** The converse of [scanned_In]: a regular file that the scan classifies
    is in its list. *)
Lemma In_scanned (l : Logger) (prefix ext : string) (w : World)
    (files : list (string * entry)) (name : string) (e : entry) (t : Z) :
  In (name, e) files -> isDir e = false ->
  classifyEntry l prefix ext name w = Ok (Some t) ->
  In {| timestamp := t; info := info_of name e |} (scanned l prefix ext w files).
Proof.
  intros Hin Hd Hc. induction files as [|[n' e'] rest IH]; simpl in *; [tauto|].
  destruct Hin as [Heq|Hin].
  - inversion Heq; subst. rewrite Hd, Hc. now left.
  - destruct (isDir e'); [auto|].
    destruct (classifyEntry l prefix ext n' w) as [[?|]|?|?]; simpl; auto.
Qed.

(** The order of the name that [backupName] builds is the number printed
    in it. *)
Lemma orderFromName_backup (l : Logger) (prefix : string) (n : Z) :
  0 < n <= int64_max ->
  orderFromName l (prefix +:+ "" +:+ "." +:+ Strconv.Itoa n) prefix "" = Ok n.
Proof.
  intros Hn. destruct (Atoi_Itoa_pos n Hn) as (Ha & Hdot & Hsep).
  rewrite orderFromName_ordinal. unfold HasPrefix.
  rewrite string_app_nil_l, prefix_app. simpl negb. cbv iota.
  change ("." +:+ Strconv.Itoa n) with (String "." (Strconv.Itoa n)).
  rewrite (Ext_app_dot prefix _ Hdot Hsep), TrimPrefix_dot, Ha. reflexivity.
Qed.

(** C7, as amended. In ordinal mode, with the log directory present,
    [backupName] returns prefix, ext, a dot and the decimal of N + 1 in
    int arithmetic, where N is the highest order among the regular files
    of the directory that do not end in the compress suffix and whose name
    yields an order, and 0 when none has an order above 0. When N is below
    the largest int, the number printed is N + 1 and the name differs from
    the name of every file of the directory that yields an order. *)
Theorem backupName_ordinal (l : Logger) (w : World) (d : gmap string entry) :
  FilenameTimeFormat l = "" ->
  w_dir w = Some d ->
  exists N,
    fst (backupName l (filename l) (FilenameTimeFormat l) (LocalTime l) w)
      = Ok (fst (prefixAndExt l) +:+ snd (prefixAndExt l) +:+ "." +:+
            Strconv.Itoa (add64 N 1)) /\
    0 <= N /\
    (forall name e k,
       d !! name = Some e -> isDir e = false ->
       HasSuffix name compressSuffix = false ->
       orderFromName l name (fst (prefixAndExt l)) (snd (prefixAndExt l)) = Ok k ->
       k <= N) /\
    (N = 0 \/
     exists name e,
       d !! name = Some e /\ isDir e = false /\
       HasSuffix name compressSuffix = false /\
       orderFromName l name (fst (prefixAndExt l)) (snd (prefixAndExt l)) = Ok N) /\
    (N < int64_max ->
     add64 N 1 = N + 1 /\
     forall name e k,
       d !! name = Some e -> isDir e = false ->
       orderFromName l name (fst (prefixAndExt l)) (snd (prefixAndExt l)) = Ok k ->
       name <> fst (prefixAndExt l) +:+ snd (prefixAndExt l) +:+ "." +:+
               Strconv.Itoa (N + 1)).
Proof.
  intros Hf Hd.
  destruct (oldLogFiles_ordinal_total l w d Hf Hd) as (files & w' & Hscan).
  unfold backupName. rewrite (prefixAndExt_ordinal l Hf), Hf, Hscan. simpl.
  destruct (maxOrderLoop_spec l (logEntry l) files 0) as (N & -> & Hle & Hub & Hwit).
  apply oldLogFiles_spec in Hscan. destruct Hscan as [-> _].
  assert (Hent : entries w = d) by now apply entries_Some.
  assert (Hbound : forall name e k,
            d !! name = Some e -> isDir e = false ->
            HasSuffix name compressSuffix = false ->
            orderFromName l name (logEntry l) "" = Ok k -> k <= N).
  { intros name e k He Hdir Hgz Ho.
    apply (Hub {| timestamp := modTime e; info := info_of name e |}); auto.
    rewrite <- list_elem_of_In, sortByBirthTime_Permutation, list_elem_of_In.
    unfold classified. rewrite (prefixAndExt_ordinal l Hf). simpl.
    apply In_scanned; auto.
    - apply elem_of_listing. now rewrite Hent.
    - rewrite (classifyEntry_ordinal l _ name w e Hf) by now rewrite Hent.
      now rewrite Ho. }
  assert (Hnogz : forall name k,
            orderFromName l name (logEntry l) "" = Ok k ->
            HasSuffix name compressSuffix = false).
  { intros name k Ho. destruct (HasSuffix name compressSuffix) eqn:Hs; [|reflexivity].
    rewrite orderFromName_ordinal, (Atoi_Ext_gz name Hs) in Ho.
    destruct (negb _); discriminate. }
  assert (Hmax : N <= int64_max).
  { destruct Hwit as [->|(f & _ & _ & Ho)]; [unfold int64_max; lia|].
    rewrite orderFromName_ordinal in Ho.
    destruct (negb _); [discriminate|].
    unfold Strconv.Atoi in Ho.
    destruct (TrimPrefix _ _) as [|c r]; [discriminate|].
    destruct (if Ascii.eqb c "-" then _ else _) as [neg body].
    destruct (Strconv.parse_digits body) as [n|]; [|discriminate].
    destruct (Z.leb_spec int64_min (if neg then - n else n)); [|discriminate].
    destruct (Z.leb_spec (if neg then - n else n) int64_max); [|discriminate].
    simpl in Ho. inversion Ho. lia. }
  exists N. split; [reflexivity|]. split; [exact Hle|]. split; [exact Hbound|]. split.
  - destruct Hwit as [->|(f & Hin & Hgz & Ho)]; [now left | right].
    rewrite <- list_elem_of_In, sortByBirthTime_Permutation, list_elem_of_In in Hin.
    apply classified_In in Hin. destruct Hin as (e & He & Hdir & _).
    exists (Name f), e. rewrite <- Hent. auto.
  - intros Hlt.
    assert (Hadd : add64 N 1 = N + 1).
    { unfold add64. apply wrap64_id. unfold in_int64, int64_min, int64_max in *. lia. }
    split; [exact Hadd|].
    intros name e k He Hdir Ho ->.
    rewrite orderFromName_backup in Ho by lia.
    inversion Ho; subst k.
    assert (N + 1 <= N); [|lia].
    eapply (Hbound _ e); eauto.
    + eapply Hnogz. apply orderFromName_backup. lia.
    + apply orderFromName_backup. lia.
Qed.

End BackupNameProperties.

(** ** Retention: what a pass leaves behind *)

Section RetentionProperties.
Context `{P : Platform}.
Import GoStrings.

(** The scan of the entries of the directory returns no error: a listed
    file can be stat'ed, and nothing else in the loop fails. *)
Lemma scanEntries_no_err (l : Logger) (prefix ext : string)
    (files : list (string * entry)) :
  forall acc w e w',
    (forall name f, In (name, f) files -> entries w !! name = Some f) ->
    scanEntries l prefix ext files acc w <> (Err e, w').
Proof.
  induction files as [|[name f] rest IH]; intros acc w e w' Hin; simpl.
  - discriminate.
  - assert (Hrest : forall n g, In (n, g) rest -> entries w !! n = Some g).
    { intros n g Hg. apply Hin. now right. }
    destruct (isDir f); [now apply IH|].
    assert (Hc : forall e0, classifyEntry l prefix ext name w <> Err e0).
    { intros e0. unfold classifyEntry, getFileTimeInfo, OS.Stat.
      rewrite (Hin name f (or_introl eq_refl)).
      destruct (negb (String.eqb (FilenameTimeFormat l) "")).
      - destruct (timeFromName l name prefix ext); try discriminate.
        destruct (timeFromName l name prefix (ext +:+ compressSuffix)); discriminate.
      - destruct (orderFromName l name prefix ext); discriminate. }
    destruct (classifyEntry l prefix ext name w) as [[t|]|e0|m] eqn:Hce.
    + now apply IH.
    + apply IH. exact Hrest.
    + now destruct (Hc e0).
    + discriminate.
Qed.

(** [oldLogFiles] returns an error only when the directory cannot be read. *)
Lemma oldLogFiles_Err (l : Logger) (w w1 : World) (e : error) :
  oldLogFiles l w = (Err e, w1) -> w_dir w = None /\ w1 = w.
Proof.
  unfold oldLogFiles.
  pose proof (elem_of_listing w) as Hl. unfold listing in Hl.
  destruct (OS.ReadDir w) as [ents|e0|m] eqn:Hr.
  - destruct (prefixAndExt l) as [prefix ext].
    destruct (scanEntries l prefix ext ents [] w) as [[out|e1|m] w'] eqn:Hs;
      try discriminate.
    exfalso. apply (scanEntries_no_err l prefix ext ents [] w e1 w'); [|exact Hs].
    intros name f Hin. now apply Hl.
  - unfold OS.ReadDir in Hr. destruct (w_dir w); [discriminate|].
    intros H; inversion H; auto.
  - discriminate.
Qed.

Lemma scanOf_Ok (l : Logger) (w : World) (f : logInfo) :
  In f (scanOf l w) ->
  oldLogFiles l w = (Ok (scanOf l w), snd (oldLogFiles l w)).
Proof.
  unfold scanOf. destruct (oldLogFiles l w) as [[files|e|m] w1]; simpl; tauto.
Qed.

(** C9. A retention pass that gets past the short-circuit and does not
    panic writes outside the log directory: the names of the classified
    backups, which are the files its scan returned, go to
    /tmp/solution3.log; the names of the files of the directory that fail
    classification go to /tmp/solution2.log (subdirectories are skipped
    before classification, without a line); and the names of the classified
    backups go to /tmp/solution.log when count enforcement runs, nothing
    otherwise. Each name is followed by a line feed. *)
Theorem millRunOnce_tmp_logs (l : Logger) (w : World) :
  (MaxBackups l =? 0) && (MaxAge l =? 0) && negb (Compress l) = false ->
  (forall m, fst (millRunOnce l w) <> Panic m) ->
  Permutation (scanOf l w) (classified l w) /\
  w_solution3 (snd (millRunOnce l w)) =
    w_solution3 w +:+ joinLines (map Name (scanOf l w)) /\
  w_solution2 (snd (millRunOnce l w)) =
    w_solution2 w +:+ joinLines (unclassifiedNames l w) /\
  w_solution (snd (millRunOnce l w)) =
    w_solution w +:+
      (if (MaxBackups l >? 0) && (MaxBackups l <? Z.of_nat (length (scanOf l w)))
       then joinLines (map Name (scanOf l w)) else "").
Proof.
  intros Hsc Hnp.
  destruct (oldLogFiles l w) as [[files|e|m] w1] eqn:Hscan.
  - assert (Hfiles : scanOf l w = files) by (unfold scanOf; now rewrite Hscan).
    rewrite Hfiles.
    destruct (millRunOnce_phases l w w1 files Hsc Hscan)
      as (survivors & remove & compress & err4 & w4 & err5 & w5 & H).
    cbn zeta in H. destruct H as (_ & _ & _ & Hr & Hz & ->).
    apply oldLogFiles_spec in Hscan. destruct Hscan as [-> ->].
    apply removeLoop_spec in Hr. destruct Hr as [He4 _].
    apply compressLoop_spec in Hz. destruct Hz as [He5 _].
    pose proof (same_env_trans _ _ _ He4 He5) as (_ & Hs & Hs2 & Hs3 & _).
    split; [apply sortByBirthTime_Permutation|].
    cbn [snd]. rewrite Hs, Hs2, Hs3. repeat split.
  - assert (Hfiles : scanOf l w = []) by (unfold scanOf; now rewrite Hscan).
    rewrite Hfiles.
    assert (Hrun : millRunOnce l w = (Err e, w1)).
    { unfold millRunOnce. now rewrite Hsc, Hscan. }
    apply oldLogFiles_Err in Hscan. destruct Hscan as [Hd ->].
    assert (Hl : listing w = []).
    { unfold listing, OS.ReadDir. now rewrite Hd. }
    rewrite Hrun. unfold classified, unclassifiedNames. rewrite Hl.
    cbn [snd scanned unscanned joinLines map length].
    rewrite !string_app_nil_r.
    destruct ((MaxBackups l >? 0) && (MaxBackups l <? Z.of_nat 0));
      rewrite ?string_app_nil_r; repeat split; reflexivity.
  - exfalso. apply (Hnp m). unfold millRunOnce. now rewrite Hsc, Hscan.
Qed.




End RetentionProperties.

(** ** The properties on the example runs *)

Section Runs.
Import GoStrings.

(** TestWriteTooLong: seventeen bytes against MaxBytes 1 are rejected. *)
Lemma Write_too_long_run :
  len "booooooooooooooo!" > max (st_l tooLongSt) (len "booooooooooooooo!") /\
  Write "booooooooooooooo!" tooLongSt =
    (Ok (0, Some (ErrWriteLength (len "booooooooooooooo!")
                    (max (st_l tooLongSt) (len "booooooooooooooo!")))),
     tooLongSt).
Proof.
  split; [reflexivity|].
  apply (Write_too_long "booooooooooooooo!" tooLongSt). reflexivity.
Defined.

(** MaxBytes -2 rejects the empty write. *)
Lemma Write_negative_MaxBytes_run :
  MaxBytes (st_l negativeSt) < -1 /\
  max (st_l negativeSt) (len "") = MaxBytes (st_l negativeSt) /\
  Write "" negativeSt =
    (Ok (0, Some (ErrWriteLength (len "") (MaxBytes (st_l negativeSt)))), negativeSt).
Proof.
  split; [reflexivity|].
  apply (Write_negative_MaxBytes "" negativeSt). reflexivity.
Defined.

(** The effective maximum for a positive MaxBytes, the sentinel and zero. *)
Lemma max_effective_run :
  max (mkLogger "foo.log" "" 10 0 0 false) 4 = 10 /\
  max (set_size 7 (mkLogger "foo.log" "" (-1) 0 0 false)) 4 = 12 /\
  max (mkLogger "foo.log" "" 0 0 0 false) 4 = 104857600.
Proof.
  split; [|split].
  - apply (max_effective (mkLogger "foo.log" "" 10 0 0 false) 4). reflexivity.
  - apply (max_effective (set_size 7 (mkLogger "foo.log" "" (-1) 0 0 false)) 4).
    + reflexivity.
    + unfold in_int64, int64_min, int64_max. simpl. lia.
  - apply (max_effective (mkLogger "foo.log" "" 0 0 0 false) 4). reflexivity.
Defined.


(** A copy that breaks off after two bytes. *)
Lemma compressLogFile_failure_run :
  "foo.log.1" <> "foo.log.1.gz" /\
  fst (compressLogFile (Some (CCopy "xx")) "foo.log.1" "foo.log.1.gz" compressWorld)
    = Err (ErrCompress (EIO "copy")) /\
  entries (snd (compressLogFile (Some (CCopy "xx")) "foo.log.1" "foo.log.1.gz"
                  compressWorld)) !! "foo.log.1.gz" = None /\
  entries (snd (compressLogFile (Some (CCopy "xx")) "foo.log.1" "foo.log.1.gz"
                  compressWorld)) !! "foo.log.1"
    = entries compressWorld !! "foo.log.1".
Proof.
  assert (Hne : "foo.log.1" <> "foo.log.1.gz") by discriminate.
  assert (Hrun :
    compressLogFile (Some (CCopy "xx")) "foo.log.1" "foo.log.1.gz" compressWorld =
    (Err (ErrCompress (EIO "copy")),
     snd (compressLogFile (Some (CCopy "xx")) "foo.log.1" "foo.log.1.gz" compressWorld))).
  { vm_compute. reflexivity. }
  destruct (compressLogFile_failure _ _ _ _ _ _ Hne Hrun) as (Hsrc & Hdst & _ & _).
  split; [exact Hne|]. split; [now rewrite Hrun|].
  split; [exact (Hdst _ eq_refl) | exact (Hsrc _ eq_refl)].
Defined.

(** The backup name in the directory of the cleanup test. *)
Lemma backupName_ordinal_run :
  FilenameTimeFormat cleanupLogger = "" /\
  w_dir cleanupWorld = Some (entries cleanupWorld) /\
  exists N,
    fst (backupName cleanupLogger (filename cleanupLogger)
           (FilenameTimeFormat cleanupLogger) (LocalTime cleanupLogger) cleanupWorld)
      = Ok (fst (prefixAndExt cleanupLogger) +:+ snd (prefixAndExt cleanupLogger)
            +:+ "." +:+ Strconv.Itoa (add64 N 1)) /\
    0 <= N.
Proof.
  split; [reflexivity|]. split; [reflexivity|].
  destruct (backupName_ordinal cleanupLogger cleanupWorld (entries cleanupWorld)
              eq_refl eq_refl) as (N & Hname & Hpos & _).
  exists N. split; [exact Hname | exact Hpos].
Defined.

(** Where the highest order is the largest int, the number printed is the
    smallest int, not the maximum plus one, and the name chosen is the name
    of an uncompressed backup of the directory. *)
Lemma backupName_ordinal_overflow :
  fst (backupName cleanupLogger (filename cleanupLogger) "" false overflowWorld)
    = Ok "foobar.log.-9223372036854775808" /\
  entries overflowWorld !! "foobar.log.-9223372036854775808" = Some (regular "b" 200) /\
  HasSuffix "foobar.log.-9223372036854775808" compressSuffix = false /\
  orderFromName cleanupLogger "foobar.log.-9223372036854775808" "foobar.log" ""
    = Ok (-9223372036854775808) /\
  orderFromName cleanupLogger "foobar.log.9223372036854775807" "foobar.log" ""
    = Ok 9223372036854775807.
Proof. vm_compute. repeat split. Qed.


(** The lines appended under /tmp by a pass on the ordinal directory, with
    compression on. *)
Lemma millRunOnce_tmp_logs_run :
  (MaxBackups ordinalLogger =? 0) && (MaxAge ordinalLogger =? 0)
    && negb (Compress ordinalLogger) = false /\
  (forall m, fst (millRunOnce ordinalLogger ordinalWorld) <> Panic m) /\
  w_solution3 (snd (millRunOnce ordinalLogger ordinalWorld)) =
    w_solution3 ordinalWorld +:+ joinLines (map Name (scanOf ordinalLogger ordinalWorld)) /\
  w_solution2 (snd (millRunOnce ordinalLogger ordinalWorld)) =
    w_solution2 ordinalWorld +:+ joinLines (unclassifiedNames ordinalLogger ordinalWorld).
Proof.
  assert (Hsc : (MaxBackups ordinalLogger =? 0) && (MaxAge ordinalLogger =? 0)
                && negb (Compress ordinalLogger) = false) by reflexivity.
  assert (Hnp : forall m, fst (millRunOnce ordinalLogger ordinalWorld) <> Panic m).
  { intros m. vm_compute. discriminate. }
  destruct (millRunOnce_tmp_logs ordinalLogger ordinalWorld Hsc Hnp) as (_ & H3 & H2 & _).
  split; [exact Hsc|]. split; [exact Hnp|]. split; [exact H3 | exact H2].
Defined.

(** C3 at its failing input. In ordinal mode the scan classifies
    foo.log.1 and leaves out its compressed form foo.log.1.gz, whose name
    goes to /tmp/solution2.log with the unclassified ones; the
    subdirectory foo.log.4 is skipped. In timestamp mode, on the same
    directory with timestamp names, both forms are classified. *)
Theorem scan_compressed_forms :
  map Name (scanOf ordinalLogger ordinalWorld) = ["foo.log.1"] /\
  orderFromName ordinalLogger "foo.log.1.gz" "foo.log" "" = Err ErrMismatchedOrder /\
  unclassifiedNames ordinalLogger ordinalWorld = ["foo.log"; "foo.log.1.gz"; "notes.txt"] /\
  map Name (scanOf timeLogger timeWorld) = ["foo-100.log"; "foo-100.log.gz"] /\
  unclassifiedNames timeLogger timeWorld = ["foo.log"; "notes.txt"].
Proof. vm_compute. repeat split. Qed.

(** C2 at its failing input, TestCleanupExistingBackupsWithOrder. With
    MaxBackups 1, the write rotates foobar.log to foobar.log.4 and the
    retention pass that follows removes foobar.log.1 and foobar.log.3 but
    not foobar.log.2.gz: two backups are left, foobar.log.2 in compressed
    form and foobar.log.4, where the test counts two files in all. *)
Theorem cleanup_keeps_compressed_backup :
  MaxBackups cleanupLogger = 1 /\
  fst (Write "foooooo!" (mkSt cleanupLogger cleanupWorld)) = Ok (8, None) /\
  ls (st_w (snd (Write "foooooo!" (mkSt cleanupLogger cleanupWorld))))
    = ["foobar.log"; "foobar.log.1"; "foobar.log.2.gz"; "foobar.log.3"; "foobar.log.4"] /\
  fst (millRunOnce cleanupLogger
         (st_w (snd (Write "foooooo!" (mkSt cleanupLogger cleanupWorld))))) = Ok tt /\
  ls (st_w (millRun (snd (Write "foooooo!" (mkSt cleanupLogger cleanupWorld)))))
    = ["foobar.log"; "foobar.log.2.gz"; "foobar.log.4"].
Proof. vm_compute. repeat split. Qed.

(** TestAutoRotateBackupWithOrder: the second write moves the first four
    bytes aside to foobar.log.1 and goes to a fresh foobar.log. *)
Example auto_rotate_run :
  fst (Write "boo!" autoRotateSt) = Ok (4, None) /\
  ls (st_w (after (Write "boo!") autoRotateSt)) = ["foobar.log"] /\
  fst (Write "foooooo!" (after (Write "boo!") autoRotateSt)) = Ok (8, None) /\
  ls (st_w (after (Write "foooooo!") (after (Write "boo!") autoRotateSt)))
    = ["foobar.log"; "foobar.log.1"] /\
  cat "foobar.log" (st_w (after (Write "foooooo!") (after (Write "boo!") autoRotateSt)))
    = Some "foooooo!" /\
  cat "foobar.log.1" (st_w (after (Write "foooooo!") (after (Write "boo!") autoRotateSt)))
    = Some "boo!" /\
  st_trace (after (Write "foooooo!") (after (Write "boo!") autoRotateSt))
    = [EvMill; EvFileWrite "foobar.log" 4; EvRotate; EvMill; EvFileWrite "foobar.log" 8].
Proof. vm_compute. repeat split. Qed.

(** TestRotateBackupsWithOrder: two calls of Rotate after a write give the
    backups 1 and 2, the second one empty. *)
Example rotate_twice_run :
  ls (st_w (after Rotate (after Rotate (after (Write "boo!") autoRotateSt))))
    = ["foobar.log"; "foobar.log.1"; "foobar.log.2"] /\
  cat "foobar.log.1"
      (st_w (after Rotate (after Rotate (after (Write "boo!") autoRotateSt))))
    = Some "boo!" /\
  cat "foobar.log.2"
      (st_w (after Rotate (after Rotate (after (Write "boo!") autoRotateSt))))
    = Some "" /\
  cat "foobar.log"
      (st_w (after Rotate (after Rotate (after (Write "boo!") autoRotateSt))))
    = Some "".
Proof. vm_compute. repeat split. Qed.

(** In ordinal mode the order is read after the last dot of the name,
    whatever lies between the prefix and that dot, and may carry a sign. *)
Example scan_ordinal_loose_names :
  map Name (scanOf cleanupLogger looseWorld)
    = ["foobar.logger.2"; "foobar.log.+3"; "foobar.log-old.7"].
Proof. vm_compute. reflexivity. Qed.

(** The slice in [timeFromName] panics when the prefix and the extension
    overlap in the file name; the pass panics with it. *)
Example scan_overlap_panics :
  prefixAndExt overlapLogger = ("x.-", ".-") /\
  fst (oldLogFiles overlapLogger overlapWorld) = Panic "slice bounds out of range" /\
  fst (millRunOnce overlapLogger overlapWorld) = Panic "slice bounds out of range".
Proof. vm_compute. repeat split. Qed.

End Runs.

(** ** Names, both ways *)

Section NameRoundTrips.
Context `{P : Platform}.
Import GoStrings.

Local Arguments Ascii.eqb : simpl never.

Lemma substring_app_exact (a b : string) :
  substring 0 (String.length a) (a +:+ b) = a.
Proof.
  rewrite substring_app_l by lia. apply substring_0_length.
Qed.

Lemma prefix_length (p s : string) :
  String.prefix p s = true -> (String.length p <= String.length s)%nat.
Proof.
  revert s. induction p as [|c p IH]; intros s H; simpl; [lia|].
  destruct s as [|d s]; [discriminate|]. simpl in H.
  destruct (ascii_dec c d); [|discriminate]. specialize (IH s H). simpl. lia.
Qed.

Lemma prefix_split (p s : string) :
  String.prefix p s = true -> exists rest, s = p +:+ rest.
Proof.
  intros H. pose proof (prefix_length _ _ H) as Hl.
  apply prefix_correct in H.
  exists (substring (String.length p) (String.length s - String.length p) s).
  rewrite (substring_split s (String.length p) Hl) at 1. now rewrite H.
Qed.

Lemma HasSuffix_length (s suffix : string) :
  HasSuffix s suffix = true -> (String.length suffix <= String.length s)%nat.
Proof.
  unfold HasSuffix. intros H. apply andb_true_iff in H. destruct H as [H _].
  now apply Nat.leb_le.
Qed.

(** Two ways of cutting one string: the shorter head is a head of the
    longer one. *)
Lemma app_eq_app_le (p rest q ext : string) :
  p +:+ rest = q +:+ ext -> (String.length p <= String.length q)%nat ->
  exists m, q = p +:+ m /\ rest = m +:+ ext.
Proof.
  revert q. induction p as [|c p IH]; intros q H Hl.
  - exists q. now rewrite !string_app_nil_l in *.
  - destruct q as [|d q]; [simpl in Hl; lia|].
    rewrite !string_app_cons in H. inversion H; subst d.
    destruct (IH q) as (m & -> & ->); [assumption | simpl in Hl; lia |].
    exists m. now rewrite string_app_cons.
Qed.

(** The join of a prefix, a timestamp and an extension is read back. *)
Lemma timeFromName_app (l : Logger) (prefix ts ext : string) :
  timeFromName l (prefix +:+ ts +:+ ext) prefix ext =
    match time_Parse (FilenameTimeFormat l) ts with
    | Some t => Ok t
    | None => Err ErrTimeParse
    end.
Proof.
  unfold timeFromName, HasPrefix. rewrite prefix_app. simpl negb. cbv iota.
  assert (Hs : HasSuffix (prefix +:+ ts +:+ ext) ext = true).
  { rewrite <- string_app_assoc. apply HasSuffix_intro. }
  rewrite Hs. simpl negb. cbv iota.
  assert (Hsl : slice (prefix +:+ ts +:+ ext) (len prefix)
                  (len (prefix +:+ ts +:+ ext) - len ext) = Some ts).
  { unfold slice, len. rewrite !length_app.
    destruct (Z.leb_spec 0 (Z.of_nat (String.length prefix))); [|lia].
    destruct (Z.leb_spec (Z.of_nat (String.length prefix))
                (Z.of_nat (String.length prefix + (String.length ts + String.length ext))
                 - Z.of_nat (String.length ext))); [|lia].
    destruct (Z.leb_spec
                (Z.of_nat (String.length prefix + (String.length ts + String.length ext))
                 - Z.of_nat (String.length ext))
                (Z.of_nat (String.length prefix + (String.length ts + String.length ext))));
      [|lia].
    simpl. rewrite Nat2Z.id.
    replace (Z.to_nat (Z.of_nat (String.length prefix + (String.length ts + String.length ext))
                       - Z.of_nat (String.length ext) - Z.of_nat (String.length prefix)))
      with (String.length ts) by lia.
    now rewrite substring_app_r, substring_app_exact. }
  now rewrite Hsl.
Qed.

(** X1. [timeFromName] returns a time exactly for the names that are the
    prefix, a text that [time.Parse] reads under the Logger's layout, and the
    extension, in this order; the time is the one parsed from that text. *)
Theorem timeFromName_Ok_iff (l : Logger) (name prefix ext : string) (t : Z) :
  timeFromName l name prefix ext = Ok t <->
  exists ts, name = prefix +:+ ts +:+ ext /\
             time_Parse (FilenameTimeFormat l) ts = Some t.
Proof.
  split.
  - intros H.
    assert (Hp : String.prefix prefix name = true).
    { unfold timeFromName, HasPrefix in H.
      now destruct (String.prefix prefix name). }
    assert (Hs : HasSuffix name ext = true).
    { unfold timeFromName, HasPrefix in H. rewrite Hp in H. simpl in H.
      now destruct (HasSuffix name ext). }
    assert (Hb : (String.length prefix <= String.length name - String.length ext)%nat).
    { unfold timeFromName, HasPrefix in H. rewrite Hp, Hs in H. simpl in H.
      unfold slice, len in H.
      destruct (Z.leb_spec (Z.of_nat (String.length prefix))
                  (Z.of_nat (String.length name) - Z.of_nat (String.length ext)));
        [lia|].
      rewrite andb_false_r in H. simpl in H. discriminate. }
    destruct (prefix_split _ _ Hp) as [rest Hrest].
    pose proof (HasSuffix_length _ _ Hs) as Hle.
    destruct (HasSuffix_app _ _ Hs) as [q Hq].
    assert (Hlq : (String.length prefix <= String.length q)%nat).
    { apply (f_equal String.length) in Hq. rewrite length_app in Hq. lia. }
    destruct (app_eq_app_le prefix rest q ext) as (m & Hm & Hr);
      [congruence | exact Hlq |].
    exists m. subst rest. split; [exact Hrest|].
    rewrite Hrest, timeFromName_app in H.
    now destruct (time_Parse (FilenameTimeFormat l) m) as [t'|]; inversion H.
  - intros (ts & -> & Ht). rewrite timeFromName_app. now rewrite Ht.
Qed.

(** Printing a negative int and reading it back. *)
Lemma Atoi_Itoa_neg (z : Z) :
  int64_min <= z < 0 ->
  Strconv.Atoi (Strconv.Itoa z) = Some z /\
  contains_byte "." (Strconv.Itoa z) = false /\
  contains_byte Filepath.Separator (Strconv.Itoa z) = false.
Proof.
  intros Hz. destruct z as [|p|p]; try lia.
  unfold Strconv.Itoa. simpl Z.to_int. unfold NilZero.string_of_int.
  pose proof (string_of_uint_digits (Pos.to_uint p)) as Hdig.
  pose proof (NilEmpty.usu (Pos.to_uint p)) as Husu.
  pose proof (DecimalPos.Unsigned.of_to p) as Hof.
  assert (Hnz : NilZero.string_of_uint (Pos.to_uint p)
                = NilEmpty.string_of_uint (Pos.to_uint p)).
  { destruct (Pos.to_uint p) eqn:Hu; try reflexivity.
    simpl in Hof. discriminate. }
  rewrite Hnz.
  split; [|split].
  - unfold Strconv.Atoi. change (Ascii.eqb "-" "-") with true. cbv iota beta.
    unfold Strconv.parse_digits. rewrite Husu.
    destruct (NilEmpty.string_of_uint (Pos.to_uint p)) as [|c r] eqn:Hs.
    { destruct (Pos.to_uint p); simpl in Hs; discriminate. }
    change (N.of_uint (Pos.to_uint p)) with (Pos.of_uint (Pos.to_uint p)).
    rewrite Hof. simpl Z.of_N.
    change (- Z.pos p) with (Z.neg p).
    destruct (Z.leb_spec int64_min (Z.neg p)); [|lia].
    destruct (Z.leb_spec (Z.neg p) int64_max); [reflexivity|].
    unfold int64_max in *. lia.
  - simpl. change (Ascii.eqb "." "-") with false. simpl.
    now apply all_digits_no_byte.
  - simpl. change (Ascii.eqb Filepath.Separator "-") with false. simpl.
    now apply all_digits_no_byte.
Qed.

(** Printing any int and reading it back. *)
Lemma Atoi_Itoa (z : Z) :
  in_int64 z ->
  Strconv.Atoi (Strconv.Itoa z) = Some z /\
  contains_byte "." (Strconv.Itoa z) = false /\
  contains_byte Filepath.Separator (Strconv.Itoa z) = false.
Proof.
  intros [Hlo Hhi]. destruct (Z.lt_trichotomy z 0) as [Hn|[->|Hp]].
  - apply Atoi_Itoa_neg. lia.
  - repeat split.
  - apply Atoi_Itoa_pos. lia.
Qed.

(** The order of a name that ends in a dot and a printed int is that int. *)
Lemma orderFromName_Itoa (l : Logger) (prefix : string) (n : Z) :
  in_int64 n ->
  orderFromName l (prefix +:+ "" +:+ "." +:+ Strconv.Itoa n) prefix "" = Ok n.
Proof.
  intros Hn. destruct (Atoi_Itoa n Hn) as (Ha & Hdot & Hsep).
  rewrite orderFromName_ordinal. unfold HasPrefix.
  rewrite string_app_nil_l, prefix_app. simpl negb. cbv iota.
  change ("." +:+ Strconv.Itoa n) with (String "." (Strconv.Itoa n)).
  rewrite (Ext_app_dot prefix _ Hdot Hsep), TrimPrefix_dot, Ha. reflexivity.
Qed.

(** A name that ends in a dot and a printed int does not end in the
    compress suffix. *)
Lemma HasSuffix_Itoa_gz (prefix : string) (n : Z) :
  in_int64 n ->
  HasSuffix (prefix +:+ "" +:+ "." +:+ Strconv.Itoa n) compressSuffix = false.
Proof.
  intros Hn. destruct (Atoi_Itoa n Hn) as (Ha & Hdot & Hsep).
  destruct (HasSuffix _ compressSuffix) eqn:Hs; [|reflexivity].
  apply HasSuffix_app in Hs. destruct Hs as [q Hq].
  rewrite string_app_nil_l in Hq.
  change ("." +:+ Strconv.Itoa n) with (String "." (Strconv.Itoa n)) in Hq.
  apply (f_equal Filepath.Ext) in Hq.
  rewrite (Ext_app_dot prefix _ Hdot Hsep) in Hq.
  unfold compressSuffix in Hq. rewrite Ext_app_dot in Hq by reflexivity.
  inversion Hq as [Hi]. rewrite Hi in Ha. discriminate.
Qed.

(** X2. In ordinal mode, with the log directory present, [backupName]
    returns a name that [orderFromName] reads back: the name is the log
    file's name, a dot and a printed int k, its order is k, and it does
    not end in the compress suffix, so that the next scan of the directory
    takes the renamed file for a backup of order k. This holds for every
    content of the directory, the wrap-around of k included. *)
Theorem ordinal_backup_read_back (l : Logger) (w : World) (d : gmap string entry) :
  FilenameTimeFormat l = "" -> w_dir w = Some d ->
  exists k name,
    fst (backupName l (filename l) (FilenameTimeFormat l) (LocalTime l) w) = Ok name /\
    name = logEntry l +:+ "" +:+ "." +:+ Strconv.Itoa k /\
    orderFromName l name (fst (prefixAndExt l)) (snd (prefixAndExt l)) = Ok k /\
    HasSuffix name compressSuffix = false.
Proof.
  intros Hf Hd. unfold backupName.
  rewrite (prefixAndExt_ordinal l Hf), Hf. simpl negb. cbv iota. cbn [fst snd].
  destruct (oldLogFiles_ordinal_total l w d Hf Hd) as (files & w' & ->).
  destruct (maxOrderLoop_spec l (logEntry l) files 0) as (N & -> & _).
  cbn [fst].
  assert (Hk : in_int64 (add64 N 1)) by apply wrap64_range.
  exists (add64 N 1), (logEntry l +:+ "" +:+ "." +:+ Strconv.Itoa (add64 N 1)).
  repeat split.
  - now apply orderFromName_Itoa.
  - now apply HasSuffix_Itoa_gz.
Qed.

(** X3. In timestamp mode [backupName] returns the prefix, the formatted
    current time and the extension without reading the directory, and the
    scan reads this name back: when [time.Parse] reads what [time.Format]
    printed, [oldLogFiles] classifies the name as a backup whose timestamp
    is the parsed time. *)
Theorem timestamp_backup_read_back (l : Logger) (w : World) (t : Z) :
  FilenameTimeFormat l <> "" ->
  time_Parse (FilenameTimeFormat l)
    (time_Format (LocalTime l) (FilenameTimeFormat l) (w_now w)) = Some t ->
  let name := fst (prefixAndExt l)
              +:+ time_Format (LocalTime l) (FilenameTimeFormat l) (w_now w)
              +:+ snd (prefixAndExt l) in
  backupName l (filename l) (FilenameTimeFormat l) (LocalTime l) w = (Ok name, w) /\
  forall w',
    classifyEntry l (fst (prefixAndExt l)) (snd (prefixAndExt l)) name w'
      = Ok (Some t).
Proof.
  intros Hf Ht name. apply String.eqb_neq in Hf.
  split.
  - unfold backupName. subst name. destruct (prefixAndExt l) as [prefix ext].
    now rewrite Hf.
  - intros w'. unfold classifyEntry. rewrite Hf. simpl negb. cbv iota.
    subst name. now rewrite timeFromName_app, Ht.
Qed.

End NameRoundTrips.

(** ** The order of the scan and the count of the backups *)

Section OrderProperties.
Context `{P : Platform}.
Import GoStrings.

Lemma insertBack_sorted (x : logInfo) (acc : list logInfo) :
  StronglySorted (fun a b => timestamp a <= timestamp b) acc ->
  StronglySorted (fun a b => timestamp a <= timestamp b) (insertBack x acc).
Proof.
  induction acc as [|y r IH]; intros H; simpl.
  - repeat constructor.
  - apply StronglySorted_inv in H. destruct H as [Hr Hy].
    unfold Less. destruct (Z.ltb_spec (timestamp y) (timestamp x)) as [Hlt|Hge].
    + constructor; [now apply IH|].
      rewrite Forall_forall in *. intros z Hz.
      rewrite (insertBack_Permutation x r) in Hz.
      apply elem_of_cons in Hz. destruct Hz as [->|Hz]; [lia | now apply Hy].
    + constructor; [now constructor|].
      constructor; [exact Hge|].
      rewrite Forall_forall in *. intros z Hz. specialize (Hy z Hz). simpl in Hy. lia.
Qed.

Lemma rev_sorted (fs : list logInfo) :
  StronglySorted (fun a b => timestamp a <= timestamp b) fs ->
  newestFirst (rev fs).
Proof.
  unfold newestFirst. induction fs as [|x fs IH]; intros H; simpl; [constructor|].
  apply StronglySorted_inv in H. destruct H as [Hs Hx].
  apply StronglySorted_app_2; [|now apply IH|repeat constructor].
  intros a b Ha Hb. apply list_elem_of_In in Ha, Hb.
  destruct Hb as [<-|[]]. apply in_rev in Ha. apply list_elem_of_In in Ha.
  rewrite Forall_forall in Hx. now apply Hx.
Qed.

(** The sort of [oldLogFiles] puts the newest first. *)
Lemma sortByBirthTime_sorted (fs : list logInfo) : newestFirst (sortByBirthTime fs).
Proof.
  unfold sortByBirthTime. apply rev_sorted.
  assert (H : forall acc,
             StronglySorted (fun a b => timestamp a <= timestamp b) acc ->
             StronglySorted (fun a b => timestamp a <= timestamp b)
               (fold_left (fun acc x => insertBack x acc) fs acc)).
  { induction fs as [|x fs IH]; intros acc Ha; simpl; [exact Ha|].
    apply IH. now apply insertBack_sorted. }
  apply H. constructor.
Qed.

(** The scan writes to /tmp/solution2.log only. *)
Lemma scanEntries_dir (l : Logger) (prefix ext : string)
    (files : list (string * entry)) :
  forall acc w, w_dir (snd (scanEntries l prefix ext files acc w)) = w_dir w.
Proof.
  induction files as [|[name f] rest IH]; intros acc w; simpl; [reflexivity|].
  destruct (isDir f); [apply IH|].
  destruct (classifyEntry l prefix ext name w) as [[t|]|e|m]; try reflexivity.
  - apply IH.
  - now rewrite IH.
Qed.

Lemma oldLogFiles_dir (l : Logger) (w : World) :
  w_dir (snd (oldLogFiles l w)) = w_dir w.
Proof.
  unfold oldLogFiles. destruct (OS.ReadDir w) as [ents|e|m]; try reflexivity.
  destruct (prefixAndExt l) as [prefix ext].
  pose proof (scanEntries_dir l prefix ext ents [] w) as H.
  now destruct (scanEntries l prefix ext ents [] w) as [[out|e|m] w'].
Qed.

Lemma listing_NoDup (w : World) : NoDup (map fst (listing w)).
Proof.
  unfold listing, OS.ReadDir. destruct (w_dir w) as [d|]; [|constructor].
  rewrite merge_sort_Permutation. apply NoDup_fst_map_to_list.
Qed.

Lemma scanned_NoDup (l : Logger) (prefix ext : string) (w : World)
    (files : list (string * entry)) :
  NoDup (map fst files) -> NoDup (map Name (scanned l prefix ext w files)).
Proof.
  induction files as [|[name f] rest IH]; simpl; intros H; [constructor|].
  apply NoDup_cons in H. destruct H as [Hn Hr].
  destruct (isDir f); [now apply IH|].
  destruct (classifyEntry l prefix ext name w) as [[t|]|e|m]; try now apply IH.
  simpl. apply NoDup_cons. split; [|now apply IH].
  intros Hin. apply Hn. apply list_elem_of_In in Hin. apply list_elem_of_In.
  apply in_map_iff in Hin. destruct Hin as (g & Hg & Hin).
  apply scanned_In in Hin. destruct Hin as (e' & Hin & _).
  apply in_map_iff. exists (Name g, e'). split; [|exact Hin].
  simpl. rewrite Hg. reflexivity.
Qed.


Lemma units_snoc (fs : list logInfo) (f : logInfo) :
  {[ TrimSuffix (Name f) compressSuffix ]} ∪ units fs = units (fs ++ [f]).
Proof.
  unfold units. rewrite map_app. simpl.
  rewrite list_to_set_app_L. simpl.
  now rewrite union_empty_r_L, union_comm_L.
Qed.

Lemma size_insert_le (x : string) (X : gset string) :
  (base.size X <= base.size ({[ x ]} ∪ X) <= S (base.size X))%nat.
Proof.
  split.
  - apply subseteq_size, union_subseteq_r.
  - rewrite size_union_alt, size_singleton.
    apply le_n_S, subseteq_size, subseteq_difference_l. reflexivity.
Qed.

(** Once the map of preserved names is over the limit, every further file
    is removed. *)
Lemma countLoop_over (maxBackups : Z) (files : list logInfo) :
  forall preserved remaining remove w,
    Z.of_nat (base.size preserved) > maxBackups ->
    exists w',
      countLoop maxBackups files preserved remaining remove w
        = (remaining, remove ++ files, w').
Proof.
  induction files as [|f rest IH]; intros X rem rmv w Hx; simpl.
  - rewrite app_nil_r. eauto.
  - pose proof (size_insert_le (TrimSuffix (Name f) compressSuffix) X) as Hs.
    destruct (Z.gtb_spec
                (Z.of_nat (base.size ({[TrimSuffix (Name f) compressSuffix]} ∪ X)))
                maxBackups) as [Hgt|Hle]; [|lia].
    destruct (IH ({[TrimSuffix (Name f) compressSuffix]} ∪ X) rem (rmv ++ [f])
                (append_solution (Name f +:+ newline) w)) as [w' ->]; [lia|].
    rewrite <- app_assoc. simpl. eauto.
Qed.

(** The count loop while the limit holds: it keeps a head of the files and
    removes the rest. *)
Lemma countLoop_under (maxBackups : Z) (files : list logInfo) :
  forall remaining remove w,
    Z.of_nat (base.size (units remaining)) <= maxBackups ->
    exists kept dropped w',
      countLoop maxBackups files (units remaining) remaining remove w
        = (remaining ++ kept, remove ++ dropped, w') /\
      files = kept ++ dropped /\
      Z.of_nat (base.size (units (remaining ++ kept))) <= maxBackups /\
      (dropped <> [] ->
       Z.of_nat (base.size (units (remaining ++ kept))) = maxBackups).
Proof.
  induction files as [|f rest IH]; intros rem rmv w Hx; simpl.
  - exists [], [], w. rewrite !app_nil_r. repeat split; auto. congruence.
  - pose proof (size_insert_le (TrimSuffix (Name f) compressSuffix) (units rem)) as Hs.
    destruct (Z.gtb_spec
                (Z.of_nat (base.size ({[TrimSuffix (Name f) compressSuffix]} ∪ units rem)))
                maxBackups) as [Hgt|Hle].
    + destruct (countLoop_over maxBackups rest
                  ({[TrimSuffix (Name f) compressSuffix]} ∪ units rem) rem (rmv ++ [f])
                  (append_solution (Name f +:+ newline) w)) as [w' ->]; [lia|].
      exists [], (f :: rest), w'. rewrite app_nil_r, <- app_assoc. simpl.
      repeat split; auto. intros _. lia.
    + rewrite units_snoc in *.
      destruct (IH (rem ++ [f]) rmv (append_solution (Name f +:+ newline) w) Hle)
        as (kept & dropped & w' & -> & -> & Hk & Hd).
      exists (f :: kept), dropped, w'. rewrite <- !app_assoc in *. simpl in *.
      repeat split; auto.
Qed.

(** X5. Count enforcement over the files of a scan keeps a head of the
    list and removes the rest: the kept files stand for at most
    [maxBackups] backups, a file and its compressed form counting once;
    for exactly [maxBackups] when any file is removed; and no removed file
    is newer than a kept one. *)
Theorem countLoop_keeps_newest (l : Logger) (w w2 w3 : World) (maxBackups : Z)
    (remaining remove : list logInfo) :
  0 <= maxBackups ->
  countLoop maxBackups (scanOf l w) ∅ [] [] w2 = (remaining, remove, w3) ->
  scanOf l w = remaining ++ remove /\
  Z.of_nat (base.size (units remaining)) <= maxBackups /\
  (remove <> [] -> Z.of_nat (base.size (units remaining)) = maxBackups) /\
  (forall k d, In k remaining -> In d remove -> timestamp d <= timestamp k).
Proof.
  intros Hm Hc.
  destruct (countLoop_under maxBackups (scanOf l w) [] [] w2)
    as (kept & dropped & w' & Hr & Hf & Hk & Hd).
  { change (units []) with (∅ : gset string). rewrite size_empty. lia. }
  change (units []) with (∅ : gset string) in Hr.
  rewrite Hr in Hc. simpl in Hc. inversion Hc; subst kept dropped w'.
  simpl in Hk, Hd. repeat split; auto.
  intros k d Hin Hid.
  assert (Hs : newestFirst (scanOf l w)).
  { unfold scanOf. destruct (oldLogFiles l w) as [[files|e|m] w1] eqn:Ho;
      simpl; try constructor.
    apply oldLogFiles_spec in Ho. destruct Ho as [-> _].
    apply sortByBirthTime_sorted. }
  rewrite Hf in Hs. unfold newestFirst in Hs.
  apply (StronglySorted_app_1_elem_of _ _ _ k d) in Hs; auto;
    now apply list_elem_of_In.
Qed.

End OrderProperties.

(** ** What a retention pass leaves alone *)

Section FrameProperties.
Context `{P : Platform}.
Import GoStrings.

Local Arguments Ascii.eqb : simpl never.

Lemma entries_dir (w w' : World) : w_dir w' = w_dir w -> entries w' = entries w.
Proof. unfold entries. now intros ->. Qed.

Lemma In_scanOf (l : Logger) (w : World) (f : logInfo) :
  In f (scanOf l w) -> In f (classified l w).
Proof.
  intros H. pose proof (scanOf_Ok l w f H) as Ho.
  apply oldLogFiles_spec in Ho. destruct Ho as [Hs _].
  rewrite Hs in H.
  now apply (Permutation_in _ (sortByBirthTime_Permutation _)) in H.
Qed.

(** The names outside the scan: a pass changes neither a name that the
    scan does not list nor one that is not a listed name with the compress
    suffix. *)
Lemma millRunOnce_frame_names (l : Logger) (w : World) (n : string) :
  (forall g, In g (scanOf l w) -> n <> Name g /\ n <> Name g +:+ compressSuffix) ->
  entries (snd (millRunOnce l w)) !! n = entries w !! n.
Proof.
  intros Hn.
  destruct ((MaxBackups l =? 0) && (MaxAge l =? 0) && negb (Compress l)) eqn:Hsc.
  { unfold millRunOnce. now rewrite Hsc. }
  destruct (oldLogFiles l w) as [[files|e|m] w1] eqn:Ho.
  - destruct (millRunOnce_phases l w w1 files Hsc Ho)
      as (survivors & remove & compress & err4 & w4 & err5 & w5 & Hp);
      cbv zeta in Hp.
    destruct Hp as (Hperm & _ & Hcomp & Hrm & Hcp & ->). cbn [snd].
    assert (Hfiles : scanOf l w = files) by (unfold scanOf; now rewrite Ho).
    rewrite Hfiles in Hn.
    apply removeLoop_spec in Hrm. destruct Hrm as (_ & _ & Hrm & _).
    apply compressLoop_spec in Hcp. destruct Hcp as (_ & Hcp & _).
    rewrite Hcp, Hrm.
    + pose proof (oldLogFiles_dir l w) as Hd. rewrite Ho in Hd. simpl in Hd.
      unfold entries. cbn [append_solution append_solution3 w_dir]. now rewrite Hd.
    + intros f Hf Heq. destruct (Hn f) as [Hne _]; [|congruence].
      apply (Permutation_in _ Hperm). apply in_or_app. now right.
    + intros g Hg. apply Hn. apply (Permutation_in _ Hperm).
      apply in_or_app. left. now apply Hcomp.
  - pose proof (oldLogFiles_dir l w) as Hd. rewrite Ho in Hd. simpl in Hd.
    unfold millRunOnce. rewrite Hsc, Ho. simpl. now rewrite (entries_dir _ _ Hd).
  - pose proof (oldLogFiles_dir l w) as Hd. rewrite Ho in Hd. simpl in Hd.
    unfold millRunOnce. rewrite Hsc, Ho. simpl. now rewrite (entries_dir _ _ Hd).
Qed.



(** [compressLogFile] leaves a subdirectory, also one that has the name of
    its source or of its target. *)
Lemma compressLogFile_dir (fault : option cstep) (src dst n : string) (w : World)
    (e : entry) :
  src <> dst ->
  entries w !! n = Some e -> isDir e = true ->
  entries (snd (compressLogFile fault src dst w)) !! n = Some e.
Proof.
  intros Hsd He Hd.
  destruct (compressLogFile fault src dst w) as [r w'] eqn:Hc. simpl.
  destruct (String.string_dec n dst) as [->|Hnd].
  - (* the target is a directory: it cannot be opened for writing *)
    unfold compressLogFile in Hc.
    destruct (OS.Open src w); [|inversion Hc; now subst..].
    destruct (OS.Stat src w) as [fi| |]; [|inversion Hc; now subst..].
    destruct (chown dst fi w); [|inversion Hc; now subst..].
    unfold OS.OpenFile_trunc in Hc. unfold entries in He.
    destruct (w_dir w) as [d|] eqn:Hw; [|rewrite lookup_empty in He; discriminate].
    rewrite He, Hd in Hc. inversion Hc; subst. unfold entries. now rewrite Hw.
  - pose proof (compressLogFile_cases fault src dst w w' r Hsd Hc) as (_ & Hfr & Hr).
    destruct (String.string_dec n src) as [->|Hns].
    + destruct r as [u|e'|m]; [| |contradiction].
      * destruct Hr as (_ & _ & es & ed & Hes & Hds & _). congruence.
      * destruct e'; try (subst; exact He).
        destruct Hr as [_ Hr]. now rewrite Hr.
    + now rewrite Hfr.
Qed.

Lemma compressLoop_dir (compress : list logInfo) (n : string) (e : entry) :
  forall err w,
    entries w !! n = Some e -> isDir e = true ->
    entries (snd (compressLoop compress err w)) !! n = Some e.
Proof.
  induction compress as [|f rest IH]; intros err w He Hd; simpl; [exact He|].
  pose proof (compressLogFile_dir (w_fault w (Name f)) (Name f)
                (Name f +:+ compressSuffix) n w e (compressSuffix_neq _) He Hd) as Hr.
  destruct (compressLogFile _ _ _ w) as [[u|e'|m] w']; simpl in Hr; now apply IH.
Qed.


(** A file name is what comes before its extension, and the extension. *)
Lemma Ext_suffix (s : string) : exists p, s = p +:+ Filepath.Ext s.
Proof.
  induction s as [|c r [p IH]]; [now exists ""|].
  simpl. destruct (Filepath.Ext r) as [|d e] eqn:He.
  - destruct (Ascii.eqb c "." && negb (contains_byte Filepath.Separator r)).
    + now exists "".
    + exists (String c r). now rewrite string_app_nil_r.
  - exists (String c p). rewrite string_app_cons. now rewrite <- IH.
Qed.

Lemma prefix_app_cancel (p a b : string) :
  String.prefix (p +:+ a) (p +:+ b) = String.prefix a b.
Proof.
  induction p as [|c p IH]; [now rewrite !string_app_nil_l|].
  rewrite !string_app_cons. simpl. destruct (ascii_dec c c); [exact IH | congruence].
Qed.

(** In timestamp mode the name of the log file does not begin with the
    prefix of its backups. *)
Lemma logEntry_not_backup (l : Logger) :
  FilenameTimeFormat l <> "" ->
  HasPrefix (logEntry l) (fst (prefixAndExt l)) = false.
Proof.
  intros Hf. apply String.eqb_neq in Hf.
  unfold prefixAndExt. fold (logEntry l). rewrite Hf. simpl negb. cbv iota. cbn [fst].
  destruct (Ext_suffix (logEntry l)) as [p Hp].
  assert (Hstem : substring 0 (String.length (logEntry l)
                               - String.length (Filepath.Ext (logEntry l)))
                    (logEntry l) = p).
  { rewrite Hp at 1 3. rewrite length_app.
    replace (String.length p + String.length (Filepath.Ext (logEntry l))
             - String.length (Filepath.Ext (logEntry l)))%nat
      with (String.length p) by lia.
    apply substring_app_exact. }
  rewrite Hstem. unfold HasPrefix. rewrite Hp at 1. rewrite prefix_app_cancel.
  destruct (Ext_shape (logEntry l)) as [->|(r & -> & _)]; reflexivity.
Qed.

(** A name that the scan classifies begins with the prefix. *)
Lemma classifyEntry_prefix (l : Logger) (prefix ext name : string) (w : World) (t : Z) :
  classifyEntry l prefix ext name w = Ok (Some t) -> HasPrefix name prefix = true.
Proof.
  unfold classifyEntry, timeFromName, orderFromName.
  destruct (HasPrefix name prefix); [reflexivity|]. simpl.
  now destruct (negb (String.eqb (FilenameTimeFormat l) "")).
Qed.

(** The scan lists neither the log file nor a file of which the log file
    is the compressed form: in timestamp mode always, in ordinal mode when
    what follows the last dot of the log file's name is not a number. *)
Lemma scanOf_not_logEntry (l : Logger) (w : World) (g : logInfo) :
  FilenameTimeFormat l <> "" \/
  Strconv.Atoi (TrimPrefix (Filepath.Ext (logEntry l)) ".") = None ->
  In g (scanOf l w) ->
  logEntry l <> Name g /\ logEntry l <> Name g +:+ compressSuffix.
Proof.
  intros Hmode Hg.
  apply In_scanOf, classified_In in Hg. destruct Hg as (e & _ & _ & _ & Hc).
  pose proof (classifyEntry_prefix _ _ _ _ _ _ Hc) as Hp.
  destruct (String.string_dec (FilenameTimeFormat l) "") as [Hf|Hf].
  - destruct Hmode as [Hm|Ha]; [contradiction|].
    rewrite (prefixAndExt_ordinal l Hf) in Hp, Hc. cbn [fst snd] in Hp, Hc.
    split; intros Heq.
    + rewrite <- Heq in Hc. unfold classifyEntry in Hc. rewrite Hf in Hc.
      simpl in Hc. rewrite orderFromName_ordinal, Ha in Hc.
      destruct (negb (HasPrefix (logEntry l) (logEntry l))); discriminate.
    + apply prefix_length in Hp. rewrite Heq, length_app in Hp.
      unfold compressSuffix in Hp. simpl in Hp. lia.
  - pose proof (logEntry_not_backup l Hf) as Hn.
    split; intros Heq; rewrite Heq in Hn.
    + congruence.
    + unfold HasPrefix in *. rewrite prefix_app_r in Hn; [discriminate | exact Hp].
Qed.

(** X7. A retention pass does not touch the active log file: in timestamp
    mode always, in ordinal mode when what follows the last dot of the log
    file's name is not a number. After the pass the directory holds under
    the log file's name what it held before, whatever the pass returns. *)
Theorem millRunOnce_keeps_log (l : Logger) (w : World) :
  FilenameTimeFormat l <> "" \/
  Strconv.Atoi (TrimPrefix (Filepath.Ext (logEntry l)) ".") = None ->
  entries (snd (millRunOnce l w)) !! logEntry l = entries w !! logEntry l.
Proof.
  intros Hmode. apply millRunOnce_frame_names. intros g Hg.
  now apply (scanOf_not_logEntry l w).
Qed.

End FrameProperties.

(** ** Compression that succeeds *)

Section CompressSuccess.
Context `{P : Platform}.

Lemma Remove_Ok (name : string) (w : World) (e : entry) :
  entries w !! name = Some e -> isDir e = false ->
  exists w', OS.Remove name w = (Ok tt, w').
Proof.
  intros He Hd. unfold OS.Remove. unfold entries in He.
  destruct (w_dir w) as [d|]; [|rewrite lookup_empty in He; discriminate].
  rewrite He, Hd. eauto.
Qed.

Lemma OpenFile_trunc_Ok (name : string) (perm : N) (w : World) (d : gmap string entry) :
  w_dir w = Some d ->
  (forall e, entries w !! name = Some e -> isDir e = false) ->
  exists w1, OS.OpenFile_trunc name perm w = (Ok name, w1).
Proof.
  intros Hw Hd. unfold OS.OpenFile_trunc. unfold entries in Hd. rewrite Hw in *.
  destruct (d !! name) as [e|] eqn:He; [rewrite (Hd e eq_refl)|]; eauto.
Qed.

(** Without a fault, [compressLogFile] returns nil on a regular source
    file whose target is not a directory and may be owned. *)
Lemma compressLogFile_Ok (src dst : string) (w : World) (es : entry) :
  src <> dst ->
  entries w !! src = Some es -> isDir es = false ->
  w_chown_fails w dst = false ->
  (forall ed, entries w !! dst = Some ed -> isDir ed = false) ->
  exists w', compressLogFile None src dst w = (Ok tt, w').
Proof.
  intros Hsd Hs Hds Hc Hd.
  unfold compressLogFile, OS.Open, OS.Stat, chown. rewrite Hs, Hc.
  assert (Hw : exists d, w_dir w = Some d).
  { unfold entries in Hs. destruct (w_dir w); [eauto|].
    rewrite lookup_empty in Hs. discriminate. }
  destruct Hw as [d Hw].
  destruct (OpenFile_trunc_Ok dst (fi_Mode (info_of src es)) w d Hw Hd) as [w1 Ho].
  rewrite Ho.
  apply OpenFile_trunc_spec in Ho. destruct Ho as (_ & _ & _ & Hfr1).
  assert (Hs1 : entries w1 !! src = Some es) by (now rewrite Hfr1).
  unfold io_Copy, gz_Close, gzf_Close, f_Close, remove_src.
  rewrite Hs1, Hds.
  destruct (FileWrite_spec dst (gzip (data es)) w1) as (_ & Hfr2 & _).
  assert (Hs2 : entries (snd (OS.FileWrite dst (gzip (data es)) w1)) !! src = Some es)
    by (now rewrite Hfr2).
  destruct (Remove_Ok src _ es Hs2 Hds) as [w4 ->]. eauto.
Qed.

(** X8. Without a fault, [compressLogFile] succeeds on a regular source
    file whose target is not a directory and may be owned: it returns nil,
    the source is gone, the target is a regular file that holds the
    compressed bytes of the source, replacing what it held, and no other
    name of the directory changes. *)
Theorem compressLogFile_success (src dst : string) (w : World) (es : entry) :
  src <> dst ->
  entries w !! src = Some es -> isDir es = false ->
  w_chown_fails w dst = false ->
  (forall ed, entries w !! dst = Some ed -> isDir ed = false) ->
  exists w',
    compressLogFile None src dst w = (Ok tt, w') /\
    entries w' !! src = None /\
    (exists ed, entries w' !! dst = Some ed /\ isDir ed = false /\
                data ed = gzip (data es)) /\
    (forall n, n <> src -> n <> dst -> entries w' !! n = entries w !! n).
Proof.
  intros Hsd Hs Hds Hc Hd.
  destruct (compressLogFile_Ok src dst w es Hsd Hs Hds Hc Hd) as [w' Hok].
  exists w'. split; [exact Hok|].
  destruct (compressLogFile_cases None src dst w w' (Ok tt) Hsd Hok)
    as (_ & Hfr & _ & Hnone & es' & ed & Hes & _ & Hed & Hdd & Hdata).
  split; [exact Hnone|]. split; [|exact Hfr].
  exists ed. rewrite Hs in Hes. inversion Hes; subst es'. auto.
Qed.

End CompressSuccess.

(** ** Opening, rotating and writing *)

Section OpenProperties.
Context `{P : Platform}.
Import GoStrings.

Local Arguments Ascii.eqb : simpl never.

Lemma MkdirAll_spec (w : World) :
  exists w', OS.MkdirAll w = (Ok tt, w') /\ entries w' = entries w /\
             same_env w w' /\ w_dir w' <> None.
Proof.
  unfold OS.MkdirAll, entries. destruct (w_dir w) as [d|] eqn:Hd.
  - exists w. rewrite Hd. repeat split; try apply same_env_refl. congruence.
  - eexists. split; [reflexivity|]. simpl. repeat split; try apply same_env_set_dir.
    discriminate.
Qed.

(** [openNew], case by case: when it returns nil the handle is on the log
    file, which is a regular file without bytes, and the tracked size is 0;
    otherwise the Logger is as before. The trace is as before. *)
Lemma openNew_cases (st : St) :
  st_trace (snd (openNew st)) = st_trace st /\
  match fst (openNew st) with
  | Ok _ =>
      st_l (snd (openNew st))
        = set_size 0 (set_file (Some (logEntry (st_l st))) (st_l st)) /\
      exists e0, entries (st_w (snd (openNew st))) !! logEntry (st_l st) = Some e0 /\
                 isDir e0 = false /\ data e0 = ""
  | _ => st_l (snd (openNew st)) = st_l st
  end.
Proof.
  split; [apply openNew_trace|].
  unfold openNew. destruct (MkdirAll_spec (st_w st)) as (w & -> & _).
  fold (logEntry (st_l st)).
  destruct (OS.Stat (logEntry (st_l st)) w) as [info|e|m].
  - destruct (moveExisting (st_l st) (filename (st_l st)) info w) as [[u|e|m] w1];
      try reflexivity.
    destruct (OS.OpenFile_trunc (logEntry (st_l st)) (fi_Mode info) w1) as [r w2] eqn:Ho.
    apply OpenFile_trunc_spec in Ho. destruct Ho as [_ Ho].
    destruct r as [g|e|s]; simpl; try reflexivity.
    destruct Ho as (-> & He & _). split; [reflexivity | exact He].
  - destruct (OS.OpenFile_trunc (logEntry (st_l st)) 384 w) as [r w2] eqn:Ho.
    apply OpenFile_trunc_spec in Ho. destruct Ho as [_ Ho].
    destruct r as [g|e'|s]; simpl; try reflexivity.
    destruct Ho as (-> & He & _). split; [reflexivity | exact He].
  - destruct (OS.OpenFile_trunc (logEntry (st_l st)) 384 w) as [r w2] eqn:Ho.
    apply OpenFile_trunc_spec in Ho. destruct Ho as [_ Ho].
    destruct r as [g|e'|s]; simpl; try reflexivity.
    destruct Ho as (-> & He & _). split; [reflexivity | exact He].
Qed.



(** The names depend on the Logger through its configuration only, not
    through its handle, its tracked size or its channel. *)
Lemma filename_config (l l' : Logger) :
  Filename l' = Filename l -> filename l' = filename l.
Proof. unfold filename. now intros ->. Qed.

Lemma prefixAndExt_config (l l' : Logger) :
  Filename l' = Filename l -> FilenameTimeFormat l' = FilenameTimeFormat l ->
  prefixAndExt l' = prefixAndExt l.
Proof.
  intros Hn Hf. unfold prefixAndExt. now rewrite (filename_config l l' Hn), Hf.
Qed.

Lemma classifyEntry_config (l l' : Logger) (prefix ext name : string) (w : World) :
  FilenameTimeFormat l' = FilenameTimeFormat l ->
  classifyEntry l' prefix ext name w = classifyEntry l prefix ext name w.
Proof.
  intros Hf. unfold classifyEntry, timeFromName, orderFromName. now rewrite Hf.
Qed.

Lemma scanEntries_config (l l' : Logger) (prefix ext : string)
    (files : list (string * entry)) :
  FilenameTimeFormat l' = FilenameTimeFormat l ->
  forall acc w,
    scanEntries l' prefix ext files acc w = scanEntries l prefix ext files acc w.
Proof.
  intros Hf. induction files as [|[name f] rest IH]; intros acc w; simpl; [reflexivity|].
  rewrite (classifyEntry_config l l' _ _ _ _ Hf).
  destruct (isDir f); [apply IH|].
  destruct (classifyEntry l prefix ext name w) as [[t|]|e|m]; auto.
Qed.

Lemma oldLogFiles_config (l l' : Logger) (w : World) :
  Filename l' = Filename l -> FilenameTimeFormat l' = FilenameTimeFormat l ->
  oldLogFiles l' w = oldLogFiles l w.
Proof.
  intros Hn Hf. unfold oldLogFiles.
  rewrite (prefixAndExt_config l l' Hn Hf).
  destruct (OS.ReadDir w); try reflexivity.
  destruct (prefixAndExt l) as [prefix ext].
  now rewrite (scanEntries_config l l' prefix ext _ Hf).
Qed.






End OpenProperties.

(** ** Writes that open the log file *)

Section WritePaths.
Context `{P : Platform}.

Lemma add64_small (a b : Z) :
  0 <= a -> 0 <= b -> a + b <= int64_max -> add64 a b = a + b.
Proof.
  intros Ha Hb Hs. apply wrap64_id. unfold in_int64, int64_min in *. lia.
Qed.

(** The maximum depends on the Logger through MaxBytes and the tracked
    size only. *)
Lemma max_config (l l' : Logger) (n : Z) :
  MaxBytes l' = MaxBytes l -> size l' = size l -> max l' n = max l n.
Proof. unfold max. now intros -> ->. Qed.

(** With the sentinel -1 the maximum is above the tracked size plus the
    write length. *)
Lemma max_unlimited (l : Logger) (n : Z) :
  MaxBytes l = -1 -> 0 <= size l -> 0 <= n -> size l + n < int64_max ->
  max l n = size l + n + 1.
Proof.
  intros Hm Hs Hn Hlt. unfold max. rewrite Hm. simpl.
  rewrite add64_add64_1. apply wrap64_id.
  unfold in_int64, int64_min in *. lia.
Qed.

(** The second test of [Write] on a size that fits: no rotation. *)
Lemma no_rotation (l : Logger) (n : Z) :
  0 <= size l -> 0 <= n -> size l + n < int64_max ->
  (MaxBytes l <> -1 -> size l + n <= max l n) ->
  (add64 (size l) n >? max l n) = false.
Proof.
  intros Hs Hn Hlt Hfin.
  rewrite add64_small by lia.
  destruct (Z.eq_dec (MaxBytes l) (-1)) as [Hm|Hm].
  - rewrite max_unlimited by assumption. rewrite Z.gtb_ltb. apply Z.ltb_ge. lia.
  - specialize (Hfin Hm). rewrite Z.gtb_ltb. apply Z.ltb_ge. lia.
Qed.

(** The write itself, through a handle on a regular file. *)
Lemma FileWrite_regular (f p : string) (w : World) (e : entry) :
  entries w !! f = Some e ->
  exists w',
    OS.FileWrite f p w = ((len p, None), w') /\
    entries w' !! f = Some (Entry (isDir e) (data e +:+ p) (mode e) (w_now w)) /\
    (forall n, n <> f -> entries w' !! n = entries w !! n).
Proof.
  intros He.
  destruct (FileWrite_spec f p w) as (_ & Hfr & Hf).
  pose proof (FileWrite_fst f p w) as H1.
  destruct (OS.FileWrite f p w) as [r w'] eqn:Hw. simpl in *. subst r.
  exists w'. split; [reflexivity|]. split; [|exact Hfr].
  now rewrite Hf, He.
Qed.

(** X10. With the sentinel MaxBytes = -1 and a file open, [Write] neither
    rejects nor rotates, whatever the tracked size: the bytes go to the
    open file, the call returns their number and no error, and the tracked
    size grows by it (as long as the sum stays below the largest int64). *)
Theorem Write_unlimited (p f : string) (st : St) :
  MaxBytes (st_l st) = -1 ->
  file (st_l st) = Some f ->
  0 <= size (st_l st) ->
  size (st_l st) + len p < int64_max ->
  fst (Write p st) = Ok (len p, None) /\
  st_trace (snd (Write p st)) = st_trace st ++ [EvFileWrite f (len p)] /\
  size (st_l (snd (Write p st))) = size (st_l st) + len p /\
  file (st_l (snd (Write p st))) = Some f.
Proof.
  intros Hm Hf Hs Hlt. pose proof (len_nonneg p) as Hn.
  unfold Write.
  rewrite (max_unlimited _ _ Hm Hs Hn Hlt).
  destruct (Z.gtb_spec (len p) (size (st_l st) + len p + 1)) as [Hgt|_]; [lia|].
  rewrite Hf. cbv iota beta.
  rewrite no_rotation by (auto; congruence).
  rewrite Hf.
  pose proof (FileWrite_fst f p (st_w st)) as H1.
  destruct (OS.FileWrite f p (st_w st)) as [[n err] w'] eqn:Hw. simpl in H1.
  inversion H1; subst n err.
  cbn [fst snd st_l st_w st_trace set_l set_w emit set_size size file].
  rewrite add64_small by lia. auto.
Qed.

(** [openNew] when the log file is missing: the directory is made if it
    is missing too, and the log file is created without bytes. *)
Lemma openNew_creates (st : St) :
  entries (st_w st) !! logEntry (st_l st) = None ->
  exists w',
    openNew st = (Ok tt, set_w w' (set_l (set_size 0
                    (set_file (Some (logEntry (st_l st))) (st_l st))) st)) /\
    (exists e0, entries w' !! logEntry (st_l st) = Some e0 /\
                isDir e0 = false /\ data e0 = "") /\
    (forall n, n <> logEntry (st_l st) -> entries w' !! n = entries (st_w st) !! n).
Proof.
  intros He. unfold openNew, OS.MkdirAll. unfold entries in He.
  destruct (w_dir (st_w st)) as [d|] eqn:Hw.
  - fold (logEntry (st_l st)). unfold OS.Stat, entries. rewrite Hw, He.
    unfold OS.OpenFile_trunc. rewrite Hw, He.
    eexists. split; [reflexivity|]. cbn [set_dir w_dir]. split.
    + eexists. rewrite lookup_insert_eq. eauto.
    + intros n Hn. now rewrite lookup_insert_ne.
  - fold (logEntry (st_l st)). unfold OS.Stat, entries. cbn [set_dir w_dir].
    rewrite lookup_empty.
    unfold OS.OpenFile_trunc. cbn [set_dir w_dir]. rewrite lookup_empty.
    eexists. split; [reflexivity|]. cbn [set_dir w_dir]. split.
    + eexists. rewrite lookup_insert_eq. eauto.
    + intros n Hn. rewrite Hw. now rewrite lookup_insert_ne.
Qed.

(** X11. The first [Write] of a Logger whose log file is missing creates
    it: when the write passes the length check, the call makes a request
    to the mill, creates the directory if need be and the log file in it,
    writes the bytes without a rotation and returns their number and no
    error; afterwards the log file is a regular file that holds exactly the
    bytes written, no other name of the directory has changed, the handle
    is on the log file and the tracked size is the number of bytes. *)
Theorem Write_creates (p : string) (st : St) :
  file (st_l st) = None ->
  entries (st_w st) !! logEntry (st_l st) = None ->
  in_int64 (MaxBytes (st_l st)) ->
  len p <= max (st_l st) (len p) ->
  len p < int64_max ->
  exists st',
    Write p st = (Ok (len p, None), st') /\
    st_trace st' = st_trace st ++ [EvMill; EvFileWrite (logEntry (st_l st)) (len p)] /\
    (exists e', entries (st_w st') !! logEntry (st_l st) = Some e' /\
                isDir e' = false /\ data e' = p) /\
    (forall n, n <> logEntry (st_l st) ->
               entries (st_w st') !! n = entries (st_w st) !! n) /\
    file (st_l st') = Some (logEntry (st_l st)) /\
    size (st_l st') = len p.
Proof.
  intros Hf He Hmb Hle Hlt. pose proof (len_nonneg p) as Hn.
  unfold Write.
  destruct (Z.gtb_spec (len p) (max (st_l st) (len p))) as [Hgt|_]; [lia|].
  rewrite Hf. unfold openExistingOrNew.
  fold (logEntry (st_l (mill st))).
  change (logEntry (st_l (mill st))) with (logEntry (st_l st)).
  change (st_w (mill st)) with (st_w st).
  unfold OS.Stat. rewrite He. cbn [OS.IsNotExist].
  destruct (openNew_creates (mill st) He) as (w1 & Ho & (e0 & He0 & Hd0 & Hdata0) & Hfr).
  change (logEntry (st_l (mill st))) with (logEntry (st_l st)) in *.
  change (st_w (mill st)) with (st_w st) in *.
  rewrite Ho. cbv iota beta.
  set (l1 := set_size 0 (set_file (Some (logEntry (st_l st))) (st_l (mill st)))).
  cbn [st_l set_w set_l].
  assert (Hmax : max l1 (len p) = max (set_size 0 (st_l st)) (len p)).
  { now apply max_config. }
  rewrite no_rotation; [|simpl; lia..|].
  2:{ intros Hm. change (size l1) with 0. rewrite Hmax.
      unfold max in *. cbn [MaxBytes set_size size] in *.
      destruct (MaxBytes (st_l st) =? 0); [exact Hle|]. simpl in *.
      destruct (Z.eqb_spec (MaxBytes (st_l st)) (-1)); [contradiction | exact Hle]. }
  cbn [st_l st_w set_w set_l].
  change (file l1) with (Some (logEntry (st_l st))). cbv iota beta.
  destruct (FileWrite_regular (logEntry (st_l st)) p w1 e0 He0) as (w2 & Hw & He2 & Hfr2).
  rewrite Hw. eexists. split; [reflexivity|].
  cbn [st_trace st_w st_l emit set_w set_l set_size size file].
  repeat split.
  - unfold mill. cbn [st_trace emit set_l]. now rewrite <- app_assoc.
  - eexists. split; [exact He2|]. cbn [isDir data]. split; [exact Hd0|].
    rewrite Hdata0. apply string_app_nil_l.
  - intros n Hne. rewrite Hfr2, Hfr; auto.
  - change (size l1) with 0. apply add64_small; lia.
Qed.

Lemma max_finite (l l' : Logger) (n : Z) :
  MaxBytes l' = MaxBytes l -> MaxBytes l <> -1 -> max l' n = max l n.
Proof.
  intros Hm Hne. unfold max. rewrite Hm.
  destruct (MaxBytes l =? 0); [reflexivity|]. simpl.
  now destruct (Z.eqb_spec (MaxBytes l) (-1)).
Qed.

(** What [Write] does once the file is open only adds to the trace. *)
Lemma Write_tail_trace (p : string) (r : result unit) (st1 : St) :
  exists evs,
    st_trace
      (snd (match r with
            | Err e => (Ok (0, Some e), st1)
            | Panic m => (Panic m, st1)
            | Ok _ =>
                let rotated :=
                  if add64 (size (st_l st1)) (len p) >? max (st_l st1) (len p)
                  then rotate st1
                  else (Ok tt, st1) in
                match rotated with
                | (Err e, st2) => (Ok (0, Some e), st2)
                | (Panic m, st2) => (Panic m, st2)
                | (Ok _, st2) =>
                    match file (st_l st2) with
                    | None => (Ok (0, Some EINVAL), st2)
                    | Some f =>
                        let '((n, err), w) := OS.FileWrite f p (st_w st2) in
                        (Ok (n, err),
                         emit (EvFileWrite f n)
                           (set_w w (set_l (set_size (add64 (size (st_l st2)) n)
                                              (st_l st2)) st2)))
                    end
                end
            end : result (Z * option error) * St))
    = st_trace st1 ++ evs.
Proof.
  destruct r as [u|e|m]; try (exists []; simpl; now rewrite app_nil_r).
  assert (Hlast : forall st2 evs0,
            st_trace st2 = st_trace st1 ++ evs0 ->
            exists evs,
              st_trace
                (snd (match file (st_l st2) with
                      | None => (Ok (0, Some EINVAL), st2)
                      | Some f =>
                          let '((n, err), w) := OS.FileWrite f p (st_w st2) in
                          (Ok (n, err),
                           emit (EvFileWrite f n)
                             (set_w w (set_l (set_size (add64 (size (st_l st2)) n)
                                                (st_l st2)) st2)))
                      end : result (Z * option error) * St))
              = st_trace st1 ++ evs).
  { intros st2 evs0 H2. destruct (file (st_l st2)) as [f|]; [|eauto].
    destruct (OS.FileWrite f p (st_w st2)) as [[n err] w]. simpl.
    rewrite H2, <- app_assoc. eauto. }
  cbv zeta.
  destruct (add64 (size (st_l st1)) (len p) >? max (st_l st1) (len p)).
  - destruct (rotate_trace st1) as (evs0 & Ht & _).
    destruct (rotate st1) as [[u'|e|m] st2]; simpl in Ht; eauto.
  - apply (Hlast st1 []). now rewrite app_nil_r.
Qed.

(** X12. The first [Write] of a Logger without a handle whose log file
    exists, when the write passes the length check: the call rotates the
    file exactly when its size plus the write length reaches the maximum,
    equality included, where an open file is rotated only above the
    maximum. Below the maximum the call appends: it makes a request to the
    mill, writes the bytes after those the file holds, without a rotation,
    and returns their number and no error; the tracked size is then the
    file's size. With the sentinel MaxBytes = -1 the test compares the
    file's size with the tracked size of the Logger, so that a Logger whose
    tracked size is 0 rotates every log file that is not empty. *)
Theorem Write_reopens (p : string) (st : St) (e : entry) :
  file (st_l st) = None ->
  entries (st_w st) !! logEntry (st_l st) = Some e -> isDir e = false ->
  len p <= max (st_l st) (len p) ->
  len (data e) + len p < int64_max ->
  (len (data e) + len p >= max (st_l st) (len p) ->
   exists evs,
     st_trace (snd (Write p st)) = st_trace st ++ EvMill :: EvRotate :: evs) /\
  (len (data e) + len p < max (st_l st) (len p) ->
   exists st',
     Write p st = (Ok (len p, None), st') /\
     st_trace st' = st_trace st ++ [EvMill; EvFileWrite (logEntry (st_l st)) (len p)] /\
     (exists e', entries (st_w st') !! logEntry (st_l st) = Some e' /\
                 isDir e' = false /\ data e' = data e +:+ p) /\
     (forall n, n <> logEntry (st_l st) ->
                entries (st_w st') !! n = entries (st_w st) !! n) /\
     file (st_l st') = Some (logEntry (st_l st)) /\
     size (st_l st') = len (data e) + len p) /\
  (MaxBytes (st_l st) = -1 -> 0 <= size (st_l st) ->
   size (st_l st) + len p < int64_max ->
   (len (data e) + len p >= max (st_l st) (len p) <-> size (st_l st) < len (data e))).
Proof.
  intros Hf He Hd Hle Hlt.
  pose proof (len_nonneg p) as Hn. pose proof (len_nonneg (data e)) as Hne.
  assert (Hopen : Write p st =
            (let '(r, st1) :=
               (if len (data e) + len p >=? max (st_l st) (len p)
                then rotate (mill st)
                else (Ok tt, set_l (set_size (len (data e))
                                     (set_file (Some (logEntry (st_l st)))
                                        (st_l (mill st)))) (mill st))) in
             match r with
             | Err e => (Ok (0, Some e), st1)
             | Panic m => (Panic m, st1)
             | Ok _ =>
                 let rotated :=
                   if add64 (size (st_l st1)) (len p) >? max (st_l st1) (len p)
                   then rotate st1
                   else (Ok tt, st1) in
                 match rotated with
                 | (Err e, st2) => (Ok (0, Some e), st2)
                 | (Panic m, st2) => (Panic m, st2)
                 | (Ok _, st2) =>
                     match file (st_l st2) with
                     | None => (Ok (0, Some EINVAL), st2)
                     | Some f =>
                         let '((n, err), w) := OS.FileWrite f p (st_w st2) in
                         (Ok (n, err),
                          emit (EvFileWrite f n)
                            (set_w w (set_l (set_size (add64 (size (st_l st2)) n)
                                               (st_l st2)) st2)))
                     end
                 end
             end)).
  { unfold Write.
    destruct (Z.gtb_spec (len p) (max (st_l st) (len p))) as [Hgt|_]; [lia|].
    rewrite Hf. unfold openExistingOrNew.
    fold (logEntry (st_l (mill st))).
    change (logEntry (st_l (mill st))) with (logEntry (st_l st)).
    change (st_w (mill st)) with (st_w st).
    unfold OS.Stat, OS.OpenFile_append. rewrite He, Hd.
    cbn [info_of fi_Size]. rewrite add64_small by lia.
    change (max (st_l (mill st)) (len p)) with (max (st_l st) (len p)).
    destruct (len (data e) + len p >=? max (st_l st) (len p)); reflexivity. }
  split; [|split].
  - intros Hge. rewrite Hopen.
    destruct (Z.geb_spec (len (data e) + len p) (max (st_l st) (len p))) as [_|Hc];
      [|lia].
    destruct (rotate_trace (mill st)) as (evs0 & Ht & _).
    destruct (rotate (mill st)) as [r st1]. simpl in Ht.
    destruct (Write_tail_trace p r st1) as [evs1 Ht1].
    exists (evs0 ++ evs1). rewrite Ht1, Ht. unfold mill. cbn [st_trace emit set_l].
    rewrite <- !app_assoc. reflexivity.
  - intros Hlow. rewrite Hopen.
    destruct (Z.geb_spec (len (data e) + len p) (max (st_l st) (len p))) as [Hc|_];
      [lia|].
    set (l1 := set_size (len (data e))
                 (set_file (Some (logEntry (st_l st))) (st_l (mill st)))).
    cbv iota beta. cbn [st_l st_w set_l].
    rewrite no_rotation; [|simpl; lia..|].
    2:{ intros Hm. change (size l1) with (len (data e)).
        rewrite (max_finite (st_l st) l1); auto. lia. }
    cbn [st_l st_w set_l].
    change (file l1) with (Some (logEntry (st_l st))). cbv iota beta.
    change (st_w (mill st)) with (st_w st).
    destruct (FileWrite_regular (logEntry (st_l st)) p (st_w st) e He)
      as (w2 & Hw & He2 & Hfr2).
    rewrite Hw. eexists. split; [reflexivity|].
    cbn [st_trace st_w st_l emit set_w set_l set_size size file].
    repeat split.
    + unfold mill. cbn [st_trace emit set_l]. now rewrite <- app_assoc.
    + eexists. split; [exact He2|]. cbn [isDir data]. auto.
    + exact Hfr2.
    + change (size l1) with (len (data e)). apply add64_small; lia.
  - intros Hm Hs Hlt2. rewrite (max_unlimited _ _ Hm Hs Hn Hlt2). lia.
Qed.


End WritePaths.

(** ** The tracked size *)

Section TrackedSize.
Context `{P : Platform}.

Lemma closedOrFresh_tracked (st : St) : closedOrFresh st -> tracked st.
Proof.
  unfold closedOrFresh, tracked. destruct (file (st_l st)) as [f|]; [|auto].
  intros (-> & Hs & e & He & Hd & Hdata). split; [reflexivity|].
  exists e. rewrite Hs, Hdata. auto.
Qed.

Lemma openNew_closedOrFresh (st : St) :
  file (st_l st) = None -> closedOrFresh (snd (openNew st)).
Proof.
  intros Hf. destruct (openNew_cases st) as [_ H]. unfold closedOrFresh.
  destruct (fst (openNew st)) as [u|e|m].
  - destruct H as [Hl H]. rewrite Hl. cbn [file set_size set_file size]. auto.
  - now rewrite H, Hf.
  - now rewrite H, Hf.
Qed.

Lemma mill_closedOrFresh (st : St) : closedOrFresh st -> closedOrFresh (mill st).
Proof. exact (fun H => H). Qed.

Lemma rotate_closedOrFresh (st : St) : closedOrFresh (snd (rotate st)).
Proof.
  unfold rotate, close.
  destruct (file (st_l (emit EvRotate st))) as [f|] eqn:Hfile.
  - pose proof (openNew_closedOrFresh
                  (set_l (set_file None (st_l (emit EvRotate st))) (emit EvRotate st))
                  eq_refl) as H.
    destruct (openNew _) as [[u|e|m] st2]; simpl in *; auto.
  - pose proof (openNew_closedOrFresh (emit EvRotate st) Hfile) as H.
    destruct (openNew _) as [[u|e|m] st2]; simpl in *; auto.
Qed.

(** The write through the handle keeps the book. *)
Lemma FileWrite_tracked (p : string) (st2 : St) :
  tracked st2 ->
  (file (st_l st2) <> None -> size (st_l st2) + len p <= int64_max) ->
  tracked
    (snd (match file (st_l st2) with
          | None => (Ok (0, Some EINVAL), st2)
          | Some f =>
              let '((n, err), w) := OS.FileWrite f p (st_w st2) in
              (Ok (n, err),
               emit (EvFileWrite f n)
                 (set_w w (set_l (set_size (add64 (size (st_l st2)) n)
                                    (st_l st2)) st2)))
          end : result (Z * option error) * St)).
Proof.
  intros Ht Hb. unfold tracked in Ht.
  destruct (file (st_l st2)) as [f|] eqn:Hf; [|unfold tracked; simpl; now rewrite Hf].
  destruct Ht as (-> & e & He & Hd & Hs).
  destruct (FileWrite_regular (logEntry (st_l st2)) p (st_w st2) e He)
    as (w2 & -> & He2 & _).
  unfold tracked. cbn [snd st_l st_w emit set_w set_l set_size file size].
  rewrite Hf. split; [reflexivity|].
  eexists. split; [exact He2|]. cbn [isDir data]. split; [exact Hd|].
  pose proof (len_nonneg p). pose proof (len_nonneg (data e)).
  rewrite add64_small by (try lia; apply Hb; discriminate).
  rewrite Hs. unfold len. rewrite length_app. lia.
Qed.

(** What [Write] does once the file is open keeps the book. *)
Lemma Write_tail_tracked (p : string) (r : result unit) (st1 : St) :
  len p <= int64_max ->
  tracked st1 ->
  (file (st_l st1) <> None -> size (st_l st1) + len p <= int64_max) ->
  tracked
    (snd (match r with
          | Err e => (Ok (0, Some e), st1)
          | Panic m => (Panic m, st1)
          | Ok _ =>
              let rotated :=
                if add64 (size (st_l st1)) (len p) >? max (st_l st1) (len p)
                then rotate st1
                else (Ok tt, st1) in
              match rotated with
              | (Err e, st2) => (Ok (0, Some e), st2)
              | (Panic m, st2) => (Panic m, st2)
              | (Ok _, st2) =>
                  match file (st_l st2) with
                  | None => (Ok (0, Some EINVAL), st2)
                  | Some f =>
                      let '((n, err), w) := OS.FileWrite f p (st_w st2) in
                      (Ok (n, err),
                       emit (EvFileWrite f n)
                         (set_w w (set_l (set_size (add64 (size (st_l st2)) n)
                                            (st_l st2)) st2)))
                  end
              end
          end : result (Z * option error) * St)).
Proof.
  intros Hp Ht Hb. destruct r as [u|e|m]; auto. cbv zeta.
  destruct (add64 (size (st_l st1)) (len p) >? max (st_l st1) (len p)).
  - pose proof (rotate_closedOrFresh st1) as Hr.
    destruct (rotate st1) as [[u'|e|m] st2]; simpl in Hr;
      try (now apply closedOrFresh_tracked).
    apply FileWrite_tracked; [now apply closedOrFresh_tracked|].
    unfold closedOrFresh in Hr. destruct (file (st_l st2)); [|congruence].
    destruct Hr as (_ & -> & _). intros _. lia.
  - now apply FileWrite_tracked.
Qed.

(** [openExistingOrNew] from a Logger without a handle. *)
Lemma openExistingOrNew_tracked (p : string) (st : St) :
  file (st_l st) = None ->
  len p <= int64_max ->
  (forall e, entries (st_w st) !! logEntry (st_l st) = Some e ->
             len (data e) + len p <= int64_max) ->
  tracked (snd (openExistingOrNew (len p) st)) /\
  (file (st_l (snd (openExistingOrNew (len p) st))) <> None ->
   size (st_l (snd (openExistingOrNew (len p) st))) + len p <= int64_max).
Proof.
  intros Hf Hp Hb.
  assert (Hfresh : forall st', closedOrFresh st' ->
            tracked st' /\
            (file (st_l st') <> None -> size (st_l st') + len p <= int64_max)).
  { intros st' Hc. split; [now apply closedOrFresh_tracked|].
    unfold closedOrFresh in Hc. destruct (file (st_l st')); [|congruence].
    destruct Hc as (_ & -> & _). intros _. lia. }
  assert (Hnew : closedOrFresh (snd (openNew (mill st)))).
  { apply openNew_closedOrFresh. exact Hf. }
  unfold openExistingOrNew.
  fold (logEntry (st_l (mill st))).
  change (logEntry (st_l (mill st))) with (logEntry (st_l st)).
  change (st_w (mill st)) with (st_w st).
  unfold OS.Stat, OS.OpenFile_append.
  destruct (entries (st_w st) !! logEntry (st_l st)) as [e|] eqn:He.
  - destruct (add64 (fi_Size (info_of (logEntry (st_l st)) e)) (len p)
              >=? max (st_l (mill st)) (len p)).
    + apply Hfresh, rotate_closedOrFresh.
    + destruct (isDir e) eqn:Hd; [now apply Hfresh|].
      cbn [snd st_l st_w set_l set_size set_file file size info_of fi_Size].
      split.
      * unfold tracked. cbn [st_l st_w set_l set_size set_file file size].
        split; [reflexivity|]. exists e. auto.
      * intros _. now apply Hb.
  - cbn [OS.IsNotExist]. now apply Hfresh.
Qed.

(** X14. [Write] keeps the Logger's book of the open file: when, before
    the call, the handle (if any) is on the log file and the tracked size
    is the number of bytes the file holds, the same is true after the call,
    whatever it returns and whether it rotates, reopens, creates or only
    appends; this as long as the file's size plus the write length fits an
    int64. *)
Theorem Write_keeps_book (p : string) (st : St) :
  tracked st ->
  len p <= int64_max ->
  (forall e, entries (st_w st) !! logEntry (st_l st) = Some e ->
             len (data e) + len p <= int64_max) ->
  tracked (snd (Write p st)).
Proof.
  intros Ht Hp Hb. unfold Write.
  destruct (len p >? max (st_l st) (len p)); [exact Ht|].
  destruct (file (st_l st)) as [f|] eqn:Hf.
  - apply (Write_tail_tracked p (Ok tt) st Hp Ht).
    intros _. unfold tracked in Ht. rewrite Hf in Ht.
    destruct Ht as (-> & e & He & _ & ->). now apply Hb.
  - destruct (openExistingOrNew_tracked p st Hf Hp Hb) as [H1 H2].
    destruct (openExistingOrNew (len p) st) as [r st1].
    now apply Write_tail_tracked.
Qed.

(** X15. After [Rotate], whatever it returns, the Logger has no file open
    or its handle is on the log file, which is then a regular file without
    bytes, and the tracked size is 0: a rotation that fails leaves the
    Logger closed, so that the next [Write] opens the log file again. *)
Theorem Rotate_leaves_closed_or_fresh (st : St) :
  closedOrFresh (snd (Rotate st)) /\
  (forall u, fst (Rotate st) <> Ok u -> file (st_l (snd (Rotate st))) = None).
Proof.
  split; [apply rotate_closedOrFresh|].
  unfold Rotate, rotate, close.
  destruct (file (st_l (emit EvRotate st))) as [f|] eqn:Hfile.
  - destruct (openNew_cases
                (set_l (set_file None (st_l (emit EvRotate st))) (emit EvRotate st)))
      as [_ H].
    destruct (openNew _) as [[[]|e|m] st2]; simpl in *; intros [] Hu;
      [congruence | now rewrite H..].
  - destruct (openNew_cases (emit EvRotate st)) as [_ H].
    destruct (openNew _) as [[[]|e|m] st2]; simpl in *; intros [] Hu;
      [congruence | now rewrite H..].
Qed.

(** The pass depends on the Logger through its configuration only. *)
Lemma millRunOnce_config (l l' : Logger) (w : World) :
  Filename l' = Filename l -> FilenameTimeFormat l' = FilenameTimeFormat l ->
  MaxBackups l' = MaxBackups l -> MaxAge l' = MaxAge l -> Compress l' = Compress l ->
  millRunOnce l' w = millRunOnce l w.
Proof.
  intros Hn Hf Hb Ha Hc. unfold millRunOnce.
  now rewrite Hb, Ha, Hc, (oldLogFiles_config l l' w Hn Hf).
Qed.

(** X16. One turn of the mill goroutine, in timestamp mode or with a log
    file whose name does not end in a dot and a number: it takes the
    pending request, leaves the handle and the tracked size of the Logger
    alone, and leaves under the log file's name what the directory held;
    so the Logger's book of the open file, when it was right before the
    pass, is right after it. *)
Theorem millRun_keeps_book (st : St) :
  FilenameTimeFormat (st_l st) <> "" \/
  Strconv.Atoi (GoStrings.TrimPrefix (Filepath.Ext (logEntry (st_l st))) ".") = None ->
  millCh (st_l (millRun st)) <> Some true /\
  file (st_l (millRun st)) = file (st_l st) /\
  size (st_l (millRun st)) = size (st_l st) /\
  st_trace (millRun st) = st_trace st /\
  entries (st_w (millRun st)) !! logEntry (st_l st)
    = entries (st_w st) !! logEntry (st_l st) /\
  (tracked st -> tracked (millRun st)).
Proof.
  intros Hmode. unfold millRun.
  destruct (millCh (st_l st)) as [[|]|] eqn:Hm;
    try (rewrite Hm; repeat split; auto; discriminate).
  cbn [st_l st_w st_trace set_l set_w set_millCh millCh file size].
  rewrite (millRunOnce_config (st_l st) (set_millCh (Some false) (st_l st)))
    by reflexivity.
  pose proof (millRunOnce_frame_names (st_l st) (st_w st) (logEntry (st_l st))
                (fun g Hg => scanOf_not_logEntry (st_l st) (st_w st) g Hmode Hg)) as Hk.
  repeat split; auto; try discriminate.
  unfold tracked. cbn [st_l st_w st_trace set_l set_w set_millCh millCh file size].
  destruct (file (st_l st)) as [f|]; [|auto].
  intros (-> & e & He & Hd & Hs). split; [reflexivity|].
  exists e. change (logEntry (set_millCh (Some false) (st_l st)))
              with (logEntry (st_l st)).
  rewrite Hk. auto.
Qed.

End TrackedSize.

(** ** Where the scan can panic *)

Section PanicProperties.
Context `{P : Platform}.
Import GoStrings.

Local Arguments Ascii.eqb : simpl never.

Lemma contains_byte_app (c : ascii) (a b : string) :
  contains_byte c (a +:+ b) = contains_byte c a || contains_byte c b.
Proof.
  induction a as [|x a IH]; [now rewrite string_app_nil_l|].
  rewrite string_app_cons. simpl. now rewrite IH, orb_assoc.
Qed.

(** A non-empty tail of a string that ends in a byte holds that byte. *)
Lemma tail_contains_last (c : ascii) (a ov s : string) :
  a +:+ ov = s +:+ String c "" -> ov <> "" -> contains_byte c ov = true.
Proof.
  revert s. induction a as [|x a IH]; intros s H Hov.
  - rewrite string_app_nil_l in H. subst ov. rewrite contains_byte_app. simpl.
    rewrite Ascii.eqb_refl. now rewrite orb_true_r.
  - destruct s as [|y s].
    + rewrite string_app_cons, string_app_nil_l in H. inversion H as [[Hx Ha]].
      destruct a; [|discriminate]. rewrite string_app_nil_l in Ha. contradiction.
    + rewrite !string_app_cons in H. inversion H. eauto.
Qed.

(** [timeFromName] panics only on a name in which the prefix and the
    extension overlap. *)
Lemma timeFromName_Panic (l : Logger) (name prefix ext m : string) :
  timeFromName l name prefix ext = Panic m ->
  exists a ov b, ov <> "" /\ prefix = a +:+ ov /\ ext = ov +:+ b.
Proof.
  unfold timeFromName, HasPrefix.
  destruct (String.prefix prefix name) eqn:Hp; [|discriminate]. simpl.
  destruct (HasSuffix name ext) eqn:Hs; [|discriminate]. simpl.
  destruct (slice name (len prefix) (len name - len ext)) as [ts|] eqn:Hsl.
  { destruct (time_Parse (FilenameTimeFormat l) ts); discriminate. }
  intros _.
  pose proof (HasSuffix_length _ _ Hs) as Hle.
  destruct (prefix_split _ _ Hp) as [rest Hrest].
  destruct (HasSuffix_app _ _ Hs) as [q Hq].
  assert (Hlq : (String.length q < String.length prefix)%nat).
  { apply (f_equal String.length) in Hq. rewrite length_app in Hq.
    unfold slice, len in Hsl.
    destruct (Z.leb_spec 0 (Z.of_nat (String.length prefix))); [|lia].
    destruct (Z.leb_spec (Z.of_nat (String.length name) - Z.of_nat (String.length ext))
                (Z.of_nat (String.length name))); [|lia].
    destruct (Z.leb_spec (Z.of_nat (String.length prefix))
                (Z.of_nat (String.length name) - Z.of_nat (String.length ext)));
      [discriminate | lia]. }
  destruct (app_eq_app_le q ext prefix rest) as (ov & Hov & Hext);
    [congruence | lia |].
  exists q, ov, rest. repeat split; auto.
  intros ->. rewrite string_app_nil_r in Hov. subst. lia.
Qed.

(** The classification of a name cannot panic in ordinal mode, nor in
    timestamp mode when the extension of the log file holds no hyphen. *)
Lemma classifyEntry_no_panic (l : Logger) (name m : string) (w : World) :
  FilenameTimeFormat l = "" \/
  contains_byte "-" (Filepath.Ext (logEntry l)) = false ->
  classifyEntry l (fst (prefixAndExt l)) (snd (prefixAndExt l)) name w <> Panic m.
Proof.
  intros Hmode.
  destruct (String.string_dec (FilenameTimeFormat l) "") as [Hf|Hf].
  - rewrite (prefixAndExt_ordinal l Hf). cbn [fst snd].
    unfold classifyEntry, getFileTimeInfo, OS.Stat. rewrite Hf. simpl.
    rewrite orderFromName_ordinal.
    destruct (negb (HasPrefix name (logEntry l))); [discriminate|].
    destruct (Strconv.Atoi _); [|discriminate].
    destruct (entries w !! name); discriminate.
  - destruct Hmode as [Hm|Hdash]; [contradiction|].
    assert (Hpe : exists stem, prefixAndExt l
                               = (stem +:+ "-", Filepath.Ext (logEntry l))).
    { unfold prefixAndExt. fold (logEntry l).
      apply String.eqb_neq in Hf. rewrite Hf. simpl. eauto. }
    destruct Hpe as [stem ->]. cbn [fst snd].
    assert (Hno : forall ext' m',
              contains_byte "-" ext' = false ->
              timeFromName l name (stem +:+ "-") ext' <> Panic m').
    { intros ext' m' Hc Hpanic.
      apply timeFromName_Panic in Hpanic.
      destruct Hpanic as (a & ov & b & Hov & Hpre & ->).
      symmetry in Hpre. apply tail_contains_last in Hpre; [|exact Hov].
      rewrite contains_byte_app, Hpre in Hc. discriminate. }
    unfold classifyEntry. apply String.eqb_neq in Hf. rewrite Hf. simpl.
    destruct (timeFromName l name (stem +:+ "-") (Filepath.Ext (logEntry l)))
      as [t|e|m1] eqn:H1.
    + discriminate.
    + destruct (timeFromName l name (stem +:+ "-")
                  (Filepath.Ext (logEntry l) +:+ compressSuffix)) as [t|e2|m2] eqn:H2;
        try discriminate.
      exfalso. apply (Hno _ m2) in H2; [exact H2|].
      rewrite contains_byte_app, Hdash. reflexivity.
    + exfalso. now apply (Hno _ m1) in H1.
Qed.

Lemma scanEntries_no_panic (l : Logger) (files : list (string * entry)) :
  FilenameTimeFormat l = "" \/
  contains_byte "-" (Filepath.Ext (logEntry l)) = false ->
  forall acc w m,
    fst (scanEntries l (fst (prefixAndExt l)) (snd (prefixAndExt l)) files acc w)
      <> Panic m.
Proof.
  intros Hmode. induction files as [|[name f] rest IH]; intros acc w m; simpl.
  - discriminate.
  - destruct (isDir f); [apply IH|].
    pose proof (classifyEntry_no_panic l name) as Hc.
    destruct (classifyEntry l _ _ name w) as [[t|]|e|m1] eqn:Hce; simpl;
      try apply IH.
    + discriminate.
    + exfalso. exact (Hc m1 w Hmode Hce).
Qed.

Lemma oldLogFiles_no_panic (l : Logger) (w : World) (m : string) :
  FilenameTimeFormat l = "" \/
  contains_byte "-" (Filepath.Ext (logEntry l)) = false ->
  fst (oldLogFiles l w) <> Panic m.
Proof.
  intros Hmode. unfold oldLogFiles.
  destruct (OS.ReadDir w) as [ents|e|m0] eqn:Hr; simpl; try discriminate.
  - pose proof (scanEntries_no_panic l ents Hmode [] w) as Hs.
    destruct (prefixAndExt l) as [prefix ext]. cbn [fst snd] in Hs.
    destruct (scanEntries l prefix ext ents [] w) as [[out|e|m1] w'];
      simpl in *; try discriminate.
    apply Hs.
  - unfold OS.ReadDir in Hr. destruct (w_dir w); discriminate.
Qed.

(** X17. A retention pass cannot panic in ordinal mode, nor in timestamp
    mode when the extension of the log file's name holds no hyphen: the
    slice of a file name between the prefix and the extension, the only
    expression of the pass that can be out of range, is then within the
    name for every file of the directory. *)
Theorem millRunOnce_no_panic (l : Logger) (w : World) (m : string) :
  FilenameTimeFormat l = "" \/
  contains_byte "-" (Filepath.Ext (logEntry l)) = false ->
  fst (millRunOnce l w) <> Panic m.
Proof.
  intros Hmode.
  destruct ((MaxBackups l =? 0) && (MaxAge l =? 0) && negb (Compress l)) eqn:Hsc.
  { unfold millRunOnce. rewrite Hsc. discriminate. }
  pose proof (oldLogFiles_no_panic l w) as Hnp.
  destruct (oldLogFiles l w) as [[files|e|m0] w1] eqn:Ho.
  - destruct (millRunOnce_phases l w w1 files Hsc Ho)
      as (survivors & remove & compress & err4 & w4 & err5 & w5 & Hp);
      cbv zeta in Hp.
    destruct Hp as (_ & _ & _ & _ & _ & ->). simpl. now destruct err5.
  - unfold millRunOnce. rewrite Hsc, Ho. discriminate.
  - exfalso. now apply (Hnp m0 Hmode).
Qed.

End PanicProperties.

(** ** The backups a pass leaves *)

Section CountProperties.
Context `{P : Platform}.
Import GoStrings.

Local Arguments Ascii.eqb : simpl never.

Lemma elem_of_units (fs : list logInfo) (u : string) :
  u ∈ units fs <-> exists f, In f fs /\ TrimSuffix (Name f) compressSuffix = u.
Proof.
  unfold units. rewrite elem_of_list_to_set, list_elem_of_In, in_map_iff.
  split; intros (f & H1 & H2); exists f; auto.
Qed.

Lemma units_subseteq (a b : list logInfo) :
  (forall f, In f a -> In f b) -> units a ⊆ units b.
Proof.
  intros H u Hu. apply elem_of_units in Hu. destruct Hu as (f & Hf & <-).
  apply elem_of_units. eauto.
Qed.

Lemma size_units_le (fs : list logInfo) : (base.size (units fs) <= length fs)%nat.
Proof.
  induction fs as [|f fs IH].
  { change (units []) with (∅ : gset string). now rewrite size_empty. }
  change (units (f :: fs))
    with ({[ TrimSuffix (Name f) compressSuffix ]} ∪ units fs).
  pose proof (size_insert_le (TrimSuffix (Name f) compressSuffix) (units fs)).
  simpl. lia.
Qed.

Lemma TrimSuffix_app (s suffix : string) : TrimSuffix (s +:+ suffix) suffix = s.
Proof.
  unfold TrimSuffix. rewrite HasSuffix_intro, length_app.
  replace (String.length s + String.length suffix - String.length suffix)%nat
    with (String.length s) by lia.
  apply substring_app_exact.
Qed.

Lemma TrimSuffix_none (s suffix : string) :
  HasSuffix s suffix = false -> TrimSuffix s suffix = s.
Proof. unfold TrimSuffix. now intros ->. Qed.

(** The outcome of the scan depends on the world through the directory. *)
Lemma scanEntries_fst (l : Logger) (prefix ext : string) (files : list (string * entry)) :
  forall acc w w',
    entries w' = entries w ->
    fst (scanEntries l prefix ext files acc w')
      = fst (scanEntries l prefix ext files acc w).
Proof.
  induction files as [|[name f] rest IH]; intros acc w w' He; simpl; [reflexivity|].
  rewrite (classifyEntry_entries l prefix ext name w w' He).
  destruct (isDir f); [now apply IH|].
  destruct (classifyEntry l prefix ext name w) as [[t|]|e|m]; try reflexivity.
  - now apply IH.
  - apply IH. unfold entries in *. simpl. exact He.
Qed.

Lemma scanOf_dir (l : Logger) (w w' : World) :
  w_dir w' = w_dir w -> scanOf l w' = scanOf l w.
Proof.
  intros Hd. pose proof (entries_dir _ _ Hd) as He.
  unfold scanOf, oldLogFiles, OS.ReadDir. rewrite Hd.
  destruct (w_dir w) as [d|]; [|reflexivity].
  destruct (prefixAndExt l) as [prefix ext].
  pose proof (scanEntries_fst l prefix ext
                (merge_sort (λ a b : string * entry, String.leb a.1 b.1) (map_to_list d))
                [] w w' He) as Hs.
  destruct (scanEntries l prefix ext _ [] w') as [[o'|e'|m'] w1'];
    destruct (scanEntries l prefix ext _ [] w) as [[o|e|m] w1];
    simpl in Hs; try discriminate; try reflexivity.
  simpl. congruence.
Qed.

(** A name that the scan classifies in one world is classified in every
    world that has the name. *)
Lemma classifyEntry_exists (l : Logger) (prefix ext name : string) (w w' : World)
    (t : Z) (e : entry) :
  classifyEntry l prefix ext name w' = Ok (Some t) ->
  entries w !! name = Some e ->
  exists t0, classifyEntry l prefix ext name w = Ok (Some t0).
Proof.
  unfold classifyEntry, getFileTimeInfo, OS.Stat. intros H He. rewrite He.
  destruct (negb (String.eqb (FilenameTimeFormat l) "")); [eauto|].
  destruct (orderFromName l name prefix ext); try discriminate. eauto.
Qed.

Lemma compress_target_dec (compress : list logInfo) (n : string) :
  (exists g, In g compress /\ n = Name g +:+ compressSuffix) \/
  (forall g, In g compress -> n <> Name g +:+ compressSuffix).
Proof.
  induction compress as [|g rest [(g' & Hg & Hn)|IH]].
  - right. intros g [].
  - left. exists g'. split; [now right | exact Hn].
  - destruct (String.string_dec n (Name g +:+ compressSuffix)) as [Hn|Hn].
    + left. exists g. split; [now left | exact Hn].
    + right. intros g' [<-|Hg]; auto.
Qed.

(** The pass, phase by phase, with the count of the files it keeps. *)
Lemma millRunOnce_phases_count (l : Logger) (w w1 : World) (files : list logInfo) :
  0 < MaxBackups l ->
  oldLogFiles l w = (Ok files, w1) ->
  exists survivors remove compress err4 w3 w4 err5 w5,
    entries w3 = entries w /\
    Permutation (survivors ++ remove) files /\
    Z.of_nat (base.size (units survivors)) <= MaxBackups l /\
    (forall g, In g compress ->
       In g survivors /\ HasSuffix (Name g) compressSuffix = false) /\
    removeLoop remove None w3 = (err4, w4) /\
    compressLoop compress err4 w4 = (err5, w5) /\
    snd (millRunOnce l w) = w5.
Proof.
  intros Hmb Hscan.
  assert (Hsc : (MaxBackups l =? 0) && (MaxAge l =? 0) && negb (Compress l) = false).
  { destruct (Z.eqb_spec (MaxBackups l) 0); [lia | reflexivity]. }
  unfold millRunOnce. rewrite Hsc, Hscan. rewrite logSolution3_spec.
  pose proof (oldLogFiles_dir l w) as Hdir. rewrite Hscan in Hdir. simpl in Hdir.
  set (w2 := append_solution3 (joinLines (map Name files)) w1).
  assert (Hcount : exists kept dropped w3,
    (if (MaxBackups l >? 0) && (MaxBackups l <? Z.of_nat (length files))
     then countLoop (MaxBackups l) files ∅ [] [] w2
     else (files, [], w2)) = (kept, dropped, w3) /\
    Permutation (kept ++ dropped) files /\
    w_dir w3 = w_dir w /\
    Z.of_nat (base.size (units kept)) <= MaxBackups l).
  { destruct ((MaxBackups l >? 0) && (MaxBackups l <? Z.of_nat (length files))) eqn:Hc.
    - destruct (countLoop_under (MaxBackups l) files [] [] w2)
        as (kept & dropped & w3 & Hr & Hf & Hk & _).
      { change (units []) with (∅ : gset string). rewrite size_empty. lia. }
      change (units []) with (∅ : gset string) in Hr. simpl in Hr, Hk.
      exists kept, dropped, w3. split; [exact Hr|].
      split; [now rewrite Hf|]. split; [|exact Hk].
      apply countLoop_spec in Hr. destruct Hr as [-> _]. exact Hdir.
    - exists files, [], w2. rewrite app_nil_r. repeat split; auto.
      pose proof (size_units_le files).
      destruct (Z.gtb_spec (MaxBackups l) 0); [|lia]. simpl in Hc.
      apply Z.ltb_ge in Hc. lia. }
  destruct Hcount as (kept & dropped & w3 & -> & Hp1 & Hd3 & Hk).
  assert (Hage : exists survivors remove,
    (if MaxAge l >? 0
     then ageLoop (w_now w3 + mul64 (-1) (mul64 (24 * Hour) (MaxAge l))) kept [] dropped
     else (kept, dropped)) = (survivors, remove) /\
    Permutation (survivors ++ remove) files /\
    (forall f, In f survivors -> In f kept)).
  { destruct (MaxAge l >? 0).
    - destruct (ageLoop _ kept [] dropped) as [survivors remove] eqn:Ha.
      apply ageLoop_spec in Ha.
      destruct Ha as (k & d & -> & -> & Hp & _ & _).
      exists k, (dropped ++ d). repeat split; auto.
      + rewrite <- Hp1, <- Hp. simpl.
        rewrite (Permutation_app_comm dropped d), !app_assoc. reflexivity.
      + intros f Hf. apply (Permutation_in _ Hp). apply in_or_app. now left.
    - exists kept, dropped. repeat split; auto. }
  destruct Hage as (survivors & remove & -> & Hp2 & Hsub).
  cbn zeta.
  destruct (removeLoop remove None w3) as [err4 w4] eqn:Hr.
  destruct (compressLoop (if Compress l then compressSelect survivors [] else []) err4 w4)
    as [err5 w5] eqn:Hz.
  exists survivors, remove, (if Compress l then compressSelect survivors [] else []),
    err4, w3, w4, err5, w5.
  split; [now apply entries_dir|]. split; [exact Hp2|]. split.
  { pose proof (subseteq_size _ _ (units_subseteq _ _ Hsub)). lia. }
  split; [|auto].
  intros g Hg. destruct (Compress l); [|destruct Hg].
  apply compressSelect_In in Hg. simpl in Hg. tauto.
Qed.

(** X18. After a retention pass with MaxBackups above 0, a new scan of the
    directory finds at most MaxBackups backups, a file and its compressed
    form counting once. This holds in both modes, with or without
    compression and age enforcement, whatever the pass returns, and also
    when compressions fail. *)
Theorem millRunOnce_max_backups (l : Logger) (w : World) :
  0 < MaxBackups l ->
  Z.of_nat (base.size (units (scanOf l (snd (millRunOnce l w))))) <= MaxBackups l.
Proof.
  intros Hmb.
  assert (Hsc : (MaxBackups l =? 0) && (MaxAge l =? 0) && negb (Compress l) = false).
  { destruct (Z.eqb_spec (MaxBackups l) 0); [lia | reflexivity]. }
  pose proof (oldLogFiles_dir l w) as Hdir.
  destruct (oldLogFiles l w) as [[files|e|m] w1] eqn:Ho; simpl in Hdir.
  2,3: assert (Hw : snd (millRunOnce l w) = w1)
         by (unfold millRunOnce; now rewrite Hsc, Ho);
       rewrite Hw, (scanOf_dir l w w1 Hdir); unfold scanOf; rewrite Ho; cbn [fst];
       change (units []) with (∅ : gset string); rewrite size_empty; lia.
  destruct (millRunOnce_phases_count l w w1 files Hmb Ho)
    as (survivors & remove & compress & err4 & w3 & w4 & err5 & w5 &
        He3 & Hperm & Hk & Hcomp & Hrm & Hcp & ->).
  assert (Hsub : units (scanOf l w5) ⊆ units survivors).
  { intros u Hu. apply elem_of_units in Hu. destruct Hu as (f' & Hf' & <-).
    apply In_scanOf, classified_In in Hf'.
    destruct Hf' as (e' & He' & Hd' & _ & Hc').
    apply elem_of_units.
    destruct (compress_target_dec compress (Name f')) as [(g & Hg & Hn)|Hnot].
    - (* the output of a compression *)
      destruct (Hcomp g Hg) as [Hgs Hgz].
      exists g. split; [exact Hgs|].
      now rewrite Hn, TrimSuffix_app, TrimSuffix_none.
    - (* a file that was there before the pass *)
      pose proof (removeLoop_spec _ _ _ _ _ Hrm) as (_ & Hmono & _ & Hgone).
      pose proof (compressLoop_spec _ _ _ _ _ Hcp) as (_ & _ & Habsent).
      destruct (entries w4 !! Name f') as [e4|] eqn:He4.
      2:{ rewrite (Habsent _ He4 Hnot) in He'. discriminate. }
      assert (Hw : entries w !! Name f' = Some e4).
      { destruct (Hmono (Name f')) as [Hn|Hn]; [congruence|].
        rewrite <- He3, <- Hn. exact He4. }
      assert (Hd4 : isDir e4 = false).
      { destruct (isDir e4) eqn:Hd4; [|reflexivity].
        pose proof (compressLoop_dir compress (Name f') e4 err4 w4 He4 Hd4) as Hk5.
        rewrite Hcp in Hk5. simpl in Hk5. congruence. }
      destruct (classifyEntry_exists _ _ _ _ w w5 _ e4 Hc' Hw) as [t0 Hc0].
      assert (Hin : In {| timestamp := t0; info := info_of (Name f') e4 |} files).
      { apply oldLogFiles_spec in Ho. destruct Ho as [-> _].
        apply (Permutation_in _ (Permutation_sym (sortByBirthTime_Permutation _))).
        apply In_scanned; auto. now apply elem_of_listing. }
      apply (Permutation_in _ (Permutation_sym Hperm)) in Hin.
      apply in_app_or in Hin. destruct Hin as [Hin|Hin].
      + exists {| timestamp := t0; info := info_of (Name f') e4 |}.
        split; [exact Hin | reflexivity].
      + exfalso. apply Hgone in Hin.
        change (Name {| timestamp := t0; info := info_of (Name f') e4 |})
          with (Name f') in Hin.
        destruct Hin as [Hn|(e5 & Hn & Hd5)]; congruence. }
  pose proof (subseteq_size _ _ Hsub). lia.
Qed.

End CountProperties.

(** ** A pass that only compresses *)

Section CompressPass.
Context `{P : Platform}.
Import GoStrings.

Local Arguments Ascii.eqb : simpl never.

Lemma app_suffix_inj (a b s : string) : a +:+ s = b +:+ s -> a = b.
Proof.
  intros H. apply (f_equal (fun x => TrimSuffix x s)) in H.
  now rewrite !TrimSuffix_app in H.
Qed.

Lemma compressSelect_filter (files : list logInfo) :
  forall acc,
    compressSelect files acc
      = acc ++ List.filter (fun f => negb (HasSuffix (Name f) compressSuffix)) files.
Proof.
  induction files as [|f rest IH]; intros acc; simpl; [now rewrite app_nil_r|].
  destruct (negb (HasSuffix (Name f) compressSuffix)).
  - rewrite IH, <- app_assoc. reflexivity.
  - apply IH.
Qed.

Lemma NoDup_map_filter (fs : list logInfo) (q : logInfo -> bool) :
  NoDup (map Name fs) -> NoDup (map Name (List.filter q fs)).
Proof.
  induction fs as [|f fs IH]; simpl; intros H; [constructor|].
  apply NoDup_cons in H. destruct H as [Hn Hr].
  destruct (q f); [|now apply IH].
  simpl. apply NoDup_cons. split; [|now apply IH].
  intros Hin. apply Hn. apply list_elem_of_In in Hin. apply list_elem_of_In.
  apply in_map_iff in Hin. destruct Hin as (g & Hg & Hin).
  apply filter_In in Hin. apply in_map_iff. exists g. tauto.
Qed.

(** Without faults the compressions of files with different names, none
    of which ends in the compress suffix, all succeed. *)
Lemma compressLoop_success (compress : list logInfo) :
  forall err w,
    NoDup (map Name compress) ->
    (forall g, In g compress -> HasSuffix (Name g) compressSuffix = false) ->
    (forall n, w_fault w n = None) ->
    (forall n, w_chown_fails w n = false) ->
    forall g eg,
      In g compress ->
      entries w !! Name g = Some eg -> isDir eg = false ->
      (forall ed, entries w !! (Name g +:+ compressSuffix) = Some ed -> isDir ed = false) ->
      entries (snd (compressLoop compress err w)) !! Name g = None /\
      exists ed,
        entries (snd (compressLoop compress err w)) !! (Name g +:+ compressSuffix)
          = Some ed /\
        isDir ed = false /\ data ed = gzip (data eg).
Proof.
  induction compress as [|f rest IH]; intros err w Hnd Hgz Hfault Hch g eg Hg He Hd Hdst;
    [destruct Hg|].
  simpl in Hnd. apply NoDup_cons in Hnd. destruct Hnd as [Hnf Hndr].
  assert (Hother : forall g', In g' rest ->
            Name f <> Name g' /\ Name f <> Name g' +:+ compressSuffix /\
            Name f +:+ compressSuffix <> Name g' /\
            Name f +:+ compressSuffix <> Name g' +:+ compressSuffix).
  { intros g' Hg'.
    assert (Hne : Name f <> Name g').
    { intros Heq. apply Hnf. apply list_elem_of_In, in_map_iff. eauto. }
    repeat split; auto.
    - intros Heq. pose proof (Hgz f (or_introl eq_refl)) as Hs.
      rewrite Heq, HasSuffix_intro in Hs. discriminate.
    - intros Heq. pose proof (Hgz g' (or_intror Hg')) as Hs.
      rewrite <- Heq, HasSuffix_intro in Hs. discriminate.
    - intros Heq. apply app_suffix_inj in Heq. contradiction. }
  simpl. rewrite Hfault.
  destruct (compressLogFile None (Name f) (Name f +:+ compressSuffix) w) as [r w1] eqn:Hc.
  pose proof (compressLogFile_cases _ _ _ _ _ _ (compressSuffix_neq (Name f)) Hc)
    as (Henv & Hfr & Hcase).
  assert (Hfault1 : forall n, w_fault w1 n = None).
  { intros n. destruct Henv as (_ & _ & _ & _ & -> & _). apply Hfault. }
  assert (Hch1 : forall n, w_chown_fails w1 n = false).
  { intros n. destruct Henv as (_ & _ & _ & _ & _ & ->). apply Hch. }
  assert (Hrest : exists e0, snd (compressLoop rest e0 w1)
                             = snd (match r with
                                    | Ok _ => compressLoop rest err w1
                                    | Err errCompress =>
                                        compressLoop rest
                                          (match err with
                                           | None => Some errCompress
                                           | _ => err
                                           end) w1
                                    | Panic _ => compressLoop rest err w1
                                    end)).
  { destruct r; eauto. }
  destruct Hrest as [e0 <-].
  destruct Hg as [<-|Hg].
  - (* the file compressed in this turn *)
    destruct (compressLogFile_Ok (Name f) (Name f +:+ compressSuffix) w eg
                (compressSuffix_neq _) He Hd (Hch _) Hdst) as [w1' Hok].
    rewrite Hok in Hc. inversion Hc; subst r w1'. clear Hc.
    destruct Hcase as (_ & Hnone & es & ed & Hes & _ & Hed & Hdd & Hdata).
    destruct (compressLoop rest e0 w1) as [err' w'] eqn:Hl.
    apply compressLoop_spec in Hl. destruct Hl as (_ & Hframe & _). simpl.
    rewrite !Hframe.
    + split; [exact Hnone|]. exists ed. rewrite He in Hes. inversion Hes. auto.
    + intros g' Hg'. destruct (Hother g' Hg') as (_ & _ & H3 & H4). auto.
    + intros g' Hg'. destruct (Hother g' Hg') as (H1 & H2 & _). auto.
  - (* a file compressed later *)
    destruct (Hother g Hg) as (H1 & H2 & H3 & H4).
    apply IH; auto.
    + intros g' Hg'. apply Hgz. now right.
    + rewrite Hfr; auto.
    + intros ed. rewrite Hfr; auto.
Qed.

(** X19. A pass that only compresses (MaxBackups and MaxAge both 0,
    Compress set), in a world without faults where every file may be
    owned: every file that its scan lists and whose name does not end in
    the compress suffix is replaced by its compressed form, unless the
    name of that form is a directory. After the pass the file is gone and
    the name with the compress suffix holds its compressed bytes. *)
Theorem millRunOnce_compresses (l : Logger) (w : World) (g : logInfo) :
  MaxBackups l = 0 -> MaxAge l = 0 -> Compress l = true ->
  (forall n, w_fault w n = None) ->
  (forall n, w_chown_fails w n = false) ->
  In g (scanOf l w) ->
  HasSuffix (Name g) compressSuffix = false ->
  (forall ed, entries w !! (Name g +:+ compressSuffix) = Some ed -> isDir ed = false) ->
  entries (snd (millRunOnce l w)) !! Name g = None /\
  exists eg ed,
    entries w !! Name g = Some eg /\
    entries (snd (millRunOnce l w)) !! (Name g +:+ compressSuffix) = Some ed /\
    isDir ed = false /\ data ed = gzip (data eg).
Proof.
  intros Hmb Hma Hc Hfault Hch Hg Hgz Hdst.
  pose proof (scanOf_Ok l w g Hg) as Ho.
  pose proof (oldLogFiles_dir l w) as Hdir.
  destruct (oldLogFiles l w) as [[files|e|m] w1] eqn:Hscan;
    try (unfold scanOf in Hg; rewrite Hscan in Hg; destruct Hg).
  simpl in Hdir.
  assert (Hfiles : scanOf l w = files) by (unfold scanOf; now rewrite Hscan).
  rewrite Hfiles in Hg.
  pose proof (In_scanOf l w g) as Hcl. rewrite Hfiles in Hcl.
  destruct (classified_In l w g (Hcl Hg)) as (eg & Heg & Hdg & _).
  assert (Hnd : NoDup (map Name files)).
  { apply oldLogFiles_spec in Hscan. destruct Hscan as [-> _].
    rewrite sortByBirthTime_Permutation. apply scanned_NoDup, listing_NoDup. }
  unfold millRunOnce. rewrite Hmb, Hma, Hc, Hscan. simpl.
  rewrite logSolution3_spec, compressSelect_filter. simpl.
  set (w3 := append_solution3 (joinLines (map Name files)) w1).
  assert (He3 : entries w3 = entries w) by (apply entries_dir; exact Hdir).
  assert (Henv : (forall n, w_fault w3 n = None) /\ (forall n, w_chown_fails w3 n = false)).
  { apply oldLogFiles_spec in Hscan. destruct Hscan as [_ ->]. auto. }
  destruct Henv as [Hf3 Hc3].
  pose proof (compressLoop_success
                (List.filter (fun f => negb (HasSuffix (Name f) compressSuffix)) files)
                None w3 (NoDup_map_filter _ _ Hnd)) as Hloop.
  destruct (Hloop) with (g := g) (eg := eg) as (Hnone & ed & Hed & Hdd & Hdata); auto.
  - intros g' Hg'. apply filter_In in Hg'. destruct Hg' as [_ Hs].
    now apply negb_true_iff in Hs.
  - apply filter_In. split; [exact Hg|]. now rewrite Hgz.
  - now rewrite He3.
  - intros ed. rewrite He3. apply Hdst.
  - destruct (compressLoop _ None w3) as [err5 w5]. simpl in *.
    split; [exact Hnone|]. exists eg, ed. auto.
Qed.

End CompressPass.

(** ** More runs *)

Section MoreRuns.
Import GoStrings.

(** The next backup name in the directory of the cleanup test is read
    back. *)
Lemma ordinal_backup_read_back_run :
  FilenameTimeFormat cleanupLogger = "" /\
  w_dir cleanupWorld = Some (entries cleanupWorld) /\
  exists k name,
    fst (backupName cleanupLogger (filename cleanupLogger)
           (FilenameTimeFormat cleanupLogger) (LocalTime cleanupLogger) cleanupWorld)
      = Ok name /\
    name = logEntry cleanupLogger +:+ "" +:+ "." +:+ Strconv.Itoa k /\
    orderFromName cleanupLogger name (fst (prefixAndExt cleanupLogger))
      (snd (prefixAndExt cleanupLogger)) = Ok k /\
    HasSuffix name compressSuffix = false.
Proof.
  split; [reflexivity|]. split; [reflexivity|].
  exact (ordinal_backup_read_back cleanupLogger cleanupWorld
           (entries cleanupWorld) eq_refl eq_refl).
Defined.

(** The backup name at time 1000 under the reference layout. *)
Lemma timestamp_backup_read_back_run :
  FilenameTimeFormat timeLogger <> "" /\
  time_Parse (FilenameTimeFormat timeLogger)
    (time_Format (LocalTime timeLogger) (FilenameTimeFormat timeLogger)
       (w_now timeWorld)) = Some 1000 /\
  backupName timeLogger (filename timeLogger) (FilenameTimeFormat timeLogger)
    (LocalTime timeLogger) timeWorld = (Ok "foo-1000.log", timeWorld) /\
  forall w',
    classifyEntry timeLogger (fst (prefixAndExt timeLogger))
      (snd (prefixAndExt timeLogger)) "foo-1000.log" w' = Ok (Some 1000).
Proof.
  assert (Hf : FilenameTimeFormat timeLogger <> "") by discriminate.
  assert (Ht : time_Parse (FilenameTimeFormat timeLogger)
                 (time_Format (LocalTime timeLogger) (FilenameTimeFormat timeLogger)
                    (w_now timeWorld)) = Some 1000) by reflexivity.
  split; [exact Hf|]. split; [exact Ht|].
  exact (timestamp_backup_read_back timeLogger timeWorld 1000 Hf Ht).
Defined.

(** Count enforcement with MaxBackups 1 over the two backups that the scan
    of the cleanup test lists. *)
Lemma countLoop_keeps_newest_run :
  0 <= 1 /\
  scanOf cleanupLogger cleanupWorld
    = fst (fst (countLoop 1 (scanOf cleanupLogger cleanupWorld) ∅ [] [] cleanupWorld))
      ++ snd (fst (countLoop 1 (scanOf cleanupLogger cleanupWorld) ∅ [] [] cleanupWorld)) /\
  Z.of_nat (base.size (units
    (fst (fst (countLoop 1 (scanOf cleanupLogger cleanupWorld) ∅ [] [] cleanupWorld)))))
    <= 1.
Proof.
  assert (H0 : 0 <= 1) by lia.
  split; [exact H0|].
  destruct (countLoop_keeps_newest cleanupLogger cleanupWorld cleanupWorld
              (snd (countLoop 1 (scanOf cleanupLogger cleanupWorld) ∅ [] [] cleanupWorld))
              1
              (fst (fst (countLoop 1 (scanOf cleanupLogger cleanupWorld) ∅ [] []
                           cleanupWorld)))
              (snd (fst (countLoop 1 (scanOf cleanupLogger cleanupWorld) ∅ [] []
                           cleanupWorld)))
              H0) as (Hs & Hk & _).
  - now destruct (countLoop 1 (scanOf cleanupLogger cleanupWorld) ∅ [] [] cleanupWorld)
      as [[kept dropped] w3].
  - split; [exact Hs | exact Hk].
Defined.


(** The log file of the timestamp directory is there after the pass. *)
Lemma millRunOnce_keeps_log_run :
  FilenameTimeFormat timeLogger <> "" /\
  entries (snd (millRunOnce timeLogger timeWorld)) !! logEntry timeLogger
    = entries timeWorld !! logEntry timeLogger.
Proof.
  assert (Hf : FilenameTimeFormat timeLogger <> "") by discriminate.
  split; [exact Hf|].
  exact (millRunOnce_keeps_log timeLogger timeWorld (or_introl Hf)).
Defined.

(** The compression of foo.log.1 without a fault. *)
Lemma compressLogFile_success_run :
  "foo.log.1" <> "foo.log.1.gz" /\
  entries compressWorld !! "foo.log.1" = Some (regular "boo!" 100) /\
  w_chown_fails compressWorld "foo.log.1.gz" = false /\
  exists w',
    compressLogFile None "foo.log.1" "foo.log.1.gz" compressWorld = (Ok tt, w') /\
    entries w' !! "foo.log.1" = None /\
    (exists ed, entries w' !! "foo.log.1.gz" = Some ed /\ isDir ed = false /\
                data ed = gzip (data (regular "boo!" 100))).
Proof.
  assert (Hne : "foo.log.1" <> "foo.log.1.gz") by discriminate.
  assert (Hs : entries compressWorld !! "foo.log.1" = Some (regular "boo!" 100))
    by reflexivity.
  assert (Hd : forall ed, entries compressWorld !! "foo.log.1.gz" = Some ed ->
                          isDir ed = false).
  { intros ed H. vm_compute in H. discriminate. }
  split; [exact Hne|]. split; [exact Hs|]. split; [reflexivity|].
  destruct (compressLogFile_success "foo.log.1" "foo.log.1.gz" compressWorld
              (regular "boo!" 100) Hne Hs eq_refl eq_refl Hd)
    as (w' & Hok & Hnone & Hed & _).
  exists w'. auto.
Defined.


(** Six more bytes on an open file of 4 under the sentinel. *)
Lemma Write_unlimited_run :
  MaxBytes (st_l unlimitedSt) = -1 /\
  file (st_l unlimitedSt) = Some "foo.log" /\
  fst (Write "123456" unlimitedSt) = Ok (len "123456", None) /\
  size (st_l (snd (Write "123456" unlimitedSt))) = 10.
Proof.
  split; [reflexivity|]. split; [reflexivity|].
  destruct (Write_unlimited "123456" "foo.log" unlimitedSt eq_refl eq_refl)
    as (Hr & _ & Hs & _).
  - simpl. lia.
  - vm_compute. reflexivity.
  - split; [exact Hr | exact Hs].
Defined.

(** TestNewFile: the first write in an empty directory. *)
Lemma Write_creates_run :
  file (st_l autoRotateSt) = None /\
  entries (st_w autoRotateSt) !! logEntry (st_l autoRotateSt) = None /\
  exists st',
    Write "boo!" autoRotateSt = (Ok (len "boo!", None), st') /\
    (exists e', entries (st_w st') !! logEntry (st_l autoRotateSt) = Some e' /\
                isDir e' = false /\ data e' = "boo!").
Proof.
  split; [reflexivity|]. split; [reflexivity|].
  destruct (Write_creates "boo!" autoRotateSt eq_refl eq_refl)
    as (st' & Hw & _ & He & _).
  - unfold in_int64, int64_min, int64_max. simpl. lia.
  - vm_compute. discriminate.
  - vm_compute. reflexivity.
  - exists st'. auto.
Defined.

(** Six bytes for a log file of 4 with MaxBytes 10: the sum is the
    maximum, and the file is rotated. *)
Lemma Write_reopens_run :
  file (st_l reopenSt) = None /\
  entries (st_w reopenSt) !! logEntry (st_l reopenSt) = Some (regular "boo!" 900) /\
  len (data (regular "boo!" 900)) + len "123456" >= max (st_l reopenSt) (len "123456") /\
  exists evs,
    st_trace (snd (Write "123456" reopenSt))
      = st_trace reopenSt ++ EvMill :: EvRotate :: evs.
Proof.
  assert (Hge : len (data (regular "boo!" 900)) + len "123456"
                >= max (st_l reopenSt) (len "123456")).
  { vm_compute. discriminate. }
  split; [reflexivity|]. split; [reflexivity|]. split; [exact Hge|].
  destruct (Write_reopens "123456" reopenSt (regular "boo!" 900)
              eq_refl eq_refl eq_refl) as (Hrot & _).
  - vm_compute. discriminate.
  - vm_compute. reflexivity.
  - exact (Hrot Hge).
Defined.

(** The book of the open file after six more bytes. *)
Lemma Write_keeps_book_run :
  tracked openSt /\ tracked (snd (Write "123456" openSt)).
Proof.
  assert (Ht : tracked openSt).
  { split; [reflexivity|]. exists (regular "boo!" 900). repeat split. }
  split; [exact Ht|].
  apply (Write_keeps_book "123456" openSt Ht).
  - vm_compute. discriminate.
  - intros e H. vm_compute in H. inversion H. vm_compute. discriminate.
Defined.

(** A turn of the mill on the timestamp directory. *)
Lemma millRun_keeps_book_run :
  FilenameTimeFormat (st_l pendingSt) <> "" /\
  millCh (st_l (millRun pendingSt)) <> Some true /\
  entries (st_w (millRun pendingSt)) !! logEntry (st_l pendingSt)
    = entries (st_w pendingSt) !! logEntry (st_l pendingSt).
Proof.
  assert (Hf : FilenameTimeFormat (st_l pendingSt) <> "") by discriminate.
  split; [exact Hf|].
  destruct (millRun_keeps_book pendingSt (or_introl Hf)) as (Hm & _ & _ & _ & He & _).
  split; [exact Hm | exact He].
Defined.

(** The extension .log holds no hyphen. *)
Lemma millRunOnce_no_panic_run :
  contains_byte "-" (Filepath.Ext (logEntry timeLogger)) = false /\
  forall m, fst (millRunOnce timeLogger timeWorld) <> Panic m.
Proof.
  assert (Hd : contains_byte "-" (Filepath.Ext (logEntry timeLogger)) = false)
    by reflexivity.
  split; [exact Hd|].
  intros m. exact (millRunOnce_no_panic timeLogger timeWorld m (or_intror Hd)).
Defined.

(** The cleanup test: one backup is left for MaxBackups 1. *)
Lemma millRunOnce_max_backups_run :
  0 < MaxBackups cleanupLogger /\
  Z.of_nat (base.size (units (scanOf cleanupLogger
                                (snd (millRunOnce cleanupLogger cleanupWorld)))))
    <= MaxBackups cleanupLogger.
Proof.
  assert (H : 0 < MaxBackups cleanupLogger) by reflexivity.
  split; [exact H|].
  exact (millRunOnce_max_backups cleanupLogger cleanupWorld H).
Defined.

(** The backup of the ordinal directory is compressed over its stale
    compressed form. *)
Lemma millRunOnce_compresses_run :
  MaxBackups ordinalLogger = 0 /\ MaxAge ordinalLogger = 0 /\
  Compress ordinalLogger = true /\
  In ordinalBackup (scanOf ordinalLogger ordinalWorld) /\
  HasSuffix (Name ordinalBackup) compressSuffix = false /\
  entries (snd (millRunOnce ordinalLogger ordinalWorld)) !! Name ordinalBackup = None /\
  exists eg ed,
    entries ordinalWorld !! Name ordinalBackup = Some eg /\
    entries (snd (millRunOnce ordinalLogger ordinalWorld))
      !! (Name ordinalBackup +:+ compressSuffix) = Some ed /\
    isDir ed = false /\ data ed = gzip (data eg).
Proof.
  assert (Hin : In ordinalBackup (scanOf ordinalLogger ordinalWorld)).
  { vm_compute. left. reflexivity. }
  assert (Hd : forall ed,
             entries ordinalWorld !! (Name ordinalBackup +:+ compressSuffix) = Some ed ->
             isDir ed = false).
  { intros ed H. vm_compute in H. inversion H. reflexivity. }
  split; [reflexivity|]. split; [reflexivity|]. split; [reflexivity|].
  split; [exact Hin|]. split; [reflexivity|].
  exact (millRunOnce_compresses ordinalLogger ordinalWorld ordinalBackup
           eq_refl eq_refl eq_refl (fun _ => eq_refl) (fun _ => eq_refl)
           Hin eq_refl Hd).
Defined.


End MoreRuns.
